(** * yetanothersmtpd: the SMTP session engine, embedded and verified

    A shallow embedding of [command.go], [address.go], [status.go] and
    [session.go].  Go strings are byte strings ([string]); the session's
    pointer receiver becomes explicit state passing; the transport and the
    two caller-supplied handlers become scripted collaborators whose calls
    are recorded in a log. *)

From Stdlib Require Import String Ascii List ZArith Lia Bool Arith.
From Stdlib Require Import DecimalString.
Import ListNotations.
Open Scope string_scope.

(* ================================================================== *)
(** * Go runtime helpers used by the sources *)

Module GoStrings.

(** A string of bytes below [utf8.RuneSelf] (0x80) only.  [strings.Fields]
    and [strings.ToUpper] both scan for this first and then work byte by
    byte; on any other string they fall back on the Unicode tables. *)
Definition seven_bit (s : string) : bool :=
  forallb (fun c => (nat_of_ascii c <? 128)%nat) (list_ascii_of_string s).

(** The slow paths of the two library functions, which belong to Go's
    [strings] and [unicode] packages and not to this repository:
    [strings.Map(unicode.ToUpper, s)] and
    [strings.FieldsFunc(s, unicode.IsSpace)].  They are only reached by
    strings that are not [seven_bit]. *)
Record Unicode : Type := mkUnicode {
  Map_ToUpper        : string -> string;
  FieldsFunc_IsSpace : string -> list string
}.

(** The table [asciiSpace] of package [strings]: TAB, LF, VT, FF, CR and
    SPACE. *)
Definition asciiSpace (c : ascii) : bool :=
  let n := nat_of_ascii c in
  (((9 <=? n) && (n <=? 13)) || (n =? 32))%nat%bool.

(** The fast path of [strings.Fields]: the maximal runs of bytes that are
    not in [asciiSpace], in order. *)
Fixpoint fields_from (cur : string) (s : string) : list string :=
  match s with
  | EmptyString => match cur with EmptyString => [] | _ => [cur] end
  | String c rest =>
      if asciiSpace c
      then match cur with
           | EmptyString => fields_from EmptyString rest
           | _ => cur :: fields_from EmptyString rest
           end
      else fields_from (cur ++ String c EmptyString) rest
  end.

(** [strings.Fields]. *)
Definition Fields (uni : Unicode) (s : string) : list string :=
  if seven_bit s then fields_from EmptyString s else FieldsFunc_IsSpace uni s.

(** The fast path of [strings.ToUpper]: [a]..[z] lose 32, byte by byte. *)
Definition upper_ascii (c : ascii) : ascii :=
  let n := nat_of_ascii c in
  if ((97 <=? n)%nat && (n <=? 122)%nat)%bool then ascii_of_nat (n - 32) else c.

Fixpoint upper_bytes (s : string) : string :=
  match s with
  | EmptyString => EmptyString
  | String c rest => String (upper_ascii c) (upper_bytes rest)
  end.

(** [strings.ToUpper]. *)
Definition ToUpper (uni : Unicode) (s : string) : string :=
  if seven_bit s then upper_bytes s else Map_ToUpper uni s.

(** [strings.Split] / [bytes.Split] with a one-byte separator: one more
    part than there are separators, so the empty string gives one empty
    part. *)
Fixpoint split_from (sep : ascii) (cur : string) (s : string) : list string :=
  match s with
  | EmptyString => [cur]
  | String c rest =>
      if Ascii.eqb c sep
      then cur :: split_from sep EmptyString rest
      else split_from sep (cur ++ String c EmptyString) rest
  end.

Definition Split (s : string) (sep : ascii) : list string :=
  split_from sep EmptyString s.

(** [strings.HasPrefix] and [strings.HasSuffix]. *)
Definition HasPrefix (s p : string) : bool := String.prefix p s.

Definition HasSuffix (s p : string) : bool :=
  (String.length p <=? String.length s)%nat
  && String.eqb (substring (String.length s - String.length p)
                           (String.length p) s) p.

(** [fmt.Sprintf("%d", n)]. *)
Definition fmt_d (n : Z) : string := NilZero.string_of_int (Z.to_int n).

End GoStrings.
Import GoStrings.

(* ================================================================== *)
(** * status.go *)

Definition StatusCode := Z.

Definition StatusServiceReady         : StatusCode := 220%Z.
Definition StatusServiceClosing       : StatusCode := 221%Z.
Definition StatusAuthenticated        : StatusCode := 235%Z.
Definition StatusOK                   : StatusCode := 250%Z.
Definition StatusProvideCredentials   : StatusCode := 334%Z.
Definition StatusStartMailInput       : StatusCode := 354%Z.
Definition StatusSyntaxError          : StatusCode := 501%Z.
Definition StatusCommandNotImplemented : StatusCode := 502%Z.
Definition StatusBadSequence          : StatusCode := 503%Z.

(** A Go [error] value that is not nil: either a [*ReportableStatus] or
    any other error (a transport failure, or whatever a handler returns). *)
Inductive error : Type :=
| Reportable (Code : StatusCode) (Message : string)
| Failure (msg : string).

(** A Go [error]: [None] is nil. *)
Definition err := option error.

Definition NewReportableStatus (code : StatusCode) (msg : string) : err :=
  Some (Reportable code msg).

Definition AuthSuccess := NewReportableStatus StatusAuthenticated "OK, you are now authenticated".
Definition GoAhead     := NewReportableStatus StatusOK "Go ahead".
Definition ThankYou    := NewReportableStatus StatusOK "Thank you".

Definition ErrBadSequence         := NewReportableStatus StatusBadSequence "Invalid command sequence".
Definition ErrDecodingCredentials := NewReportableStatus StatusSyntaxError "Couldn't decode your credentials".
Definition ErrInvalidSyntax       := NewReportableStatus StatusSyntaxError "Invalid syntax".
Definition ErrMalformedEmail      := NewReportableStatus StatusSyntaxError "Malformed email address".
Definition ErrNoHelo              := NewReportableStatus StatusBadSequence "Please introduce yourself first".

(** The status code a reply carries, when it is a reportable one. *)
Definition code_of (e : err) : option StatusCode :=
  match e with
  | Some (Reportable c _) => Some c
  | _ => None
  end.

(* ================================================================== *)
(** * command.go *)

Record command : Type := mkCommand {
  line   : string;
  action : string;
  fields : list string;
  params : list string
}.

Definition parseLine (uni : Unicode) (l : string) : command :=
  let fs := Fields uni l in
  match fs with
  | [] => mkCommand l "" [] []
  | f0 :: tl =>
      mkCommand l (ToUpper uni f0) fs
        match tl with
        | [] => []
        | f1 :: _ => Split f1 ":"%char
        end
  end.

(* ================================================================== *)
(** * encoding/base64, as [authLOGIN] and [authPLAIN] use it *)

Module Base64.

(** The value of a digit of the standard alphabet. *)
Definition digit (c : ascii) : option nat :=
  let n := nat_of_ascii c in
  if ((65 <=? n) && (n <=? 90))%nat%bool then Some (n - 65)
  else if ((97 <=? n) && (n <=? 122))%nat%bool then Some (n - 71)
  else if ((48 <=? n) && (n <=? 57))%nat%bool then Some (n + 4)
  else if (n =? 43)%nat then Some 62
  else if (n =? 47)%nat then Some 63
  else None.

Definition is_pad (c : ascii) : bool := Ascii.eqb c "="%char.

Definition is_nil {A} (l : list A) : bool :=
  match l with [] => true | _ => false end.

(** Four digits give three bytes; padding may only close the input. *)
Fixpoint decode_quads (l : list ascii) : option (list ascii) :=
  match l with
  | [] => Some []
  | a :: b :: c :: d :: rest =>
      match digit a, digit b with
      | Some va, Some vb =>
          let b0 := ascii_of_nat (va * 4 + vb / 16) in
          if is_pad c then
            if is_pad d && is_nil rest then Some [b0] else None
          else
            match digit c with
            | Some vc =>
                let b1 := ascii_of_nat ((vb mod 16) * 16 + vc / 4) in
                if is_pad d then
                  if is_nil rest then Some [b0; b1] else None
                else
                  match digit d with
                  | Some vd =>
                      let b2 := ascii_of_nat ((vc mod 4) * 64 + vd) in
                      option_map (fun t => b0 :: b1 :: b2 :: t) (decode_quads rest)
                  | None => None
                  end
            | None => None
            end
      | _, _ => None
      end
  | _ => None
  end.

Definition is_newline (c : ascii) : bool :=
  (Ascii.eqb c "010"%char || Ascii.eqb c "013"%char)%bool.

(** [base64.StdEncoding.DecodeString]: CR and LF are skipped, padding is
    mandatory; [None] is a decoding error. *)
Definition DecodeString (s : string) : option string :=
  option_map string_of_list_ascii
    (decode_quads (filter (fun c => negb (is_newline c)) (list_ascii_of_string s))).

End Base64.

(** The NUL byte [authPLAIN] splits on. *)
Definition NUL : ascii := "000"%char.

(* ================================================================== *)
(** * The collaborators of a session *)

(** [net/mail.Address]. *)
Record Address : Type := mkAddress {
  addr_Name    : string;
  addr_Address : string
}.

(** [net.Conn]: an accepted connection, or [tls.Server] wrapped around one. *)
Inductive Conn : Type :=
| RawConn (id : nat)
| TLSConn (under : Conn).

(** The calls a session makes into the code its caller supplied. *)
Inductive call : Type :=
| CallAuthenticate (username password : string)
| CallGetMessageHandler (from : string)
| CallHandleHELO (heloName : string) (extended : bool)
| CallHandleSessionError (e : error)
| CallMaxMessageSize
| CallAddRecipient (recipient : string)
| CallGetDataWriter
| CallWrite (data : string)
| CallClose
| CallOnNewConnection (encrypted : bool).

(** A call as the log keeps it: with it, whether the session had an active
    message handler ([s.mHandler != nil]) at the moment of the call. *)
Record logged : Type := mkLogged {
  lg_call   : call;
  lg_active : bool
}.

Definition history := list logged.

(** The handlers are interfaces implemented by the caller and may keep state
    of their own: every method is given the calls made so far. *)

(** [io.WriteCloser], the data sink. *)
Record WriteCloser : Type := mkWriteCloser {
  wcWrite : history -> string -> Z * err;   (* [Write(p) (n int, err error)] *)
  wcClose : history -> err
}.

Record MessageHandler : Type := mkMessageHandler {
  AddRecipient  : history -> string -> err;
  GetDataWriter : history -> option WriteCloser * err
}.

Record SessionHandler : Type := mkSessionHandler {
  Authenticate      : history -> string -> string -> err;
  GetMessageHandler : history -> string -> option MessageHandler * err;
  HandleHELO        : history -> string -> bool -> err;
  MaxMessageSize    : history -> N
}.

(** [Server]; the idle timeout is real time and is left out, and
    [TLSConfig] only matters as nil or not. *)
Record Server : Type := mkServer {
  Hostname        : string;
  OnNewConnection : history -> bool -> option SessionHandler * err;
  RequireAuth     : bool;
  RequireTLS      : bool;
  TLSConfig       : option unit
}.

(** [session]; [reader] and [writer] are kept as the connection they wrap. *)
Record session : Type := mkSession {
  server    : Server;
  sHandler  : option SessionHandler;
  mHandler  : option MessageHandler;
  conn      : Conn;
  gotHelo   : bool;
  isTLS     : bool;
  keepGoing : bool;
  reader    : Conn;
  writer    : Conn
}.

Definition newSession (srv : Server) (handler : option SessionHandler)
                      (c : Conn) (tls : bool) : session :=
  {| server := srv; sHandler := handler; mHandler := None; conn := c;
     gotHelo := false; isTLS := tls; keepGoing := true;
     reader := c; writer := c |}.

Definition set_mHandler (m : option MessageHandler) (s : session) : session :=
  {| server := server s; sHandler := sHandler s; mHandler := m; conn := conn s;
     gotHelo := gotHelo s; isTLS := isTLS s; keepGoing := keepGoing s;
     reader := reader s; writer := writer s |}.

Definition set_gotHelo (b : bool) (s : session) : session :=
  {| server := server s; sHandler := sHandler s; mHandler := mHandler s;
     conn := conn s; gotHelo := b; isTLS := isTLS s; keepGoing := keepGoing s;
     reader := reader s; writer := writer s |}.

Definition set_keepGoing (b : bool) (s : session) : session :=
  {| server := server s; sHandler := sHandler s; mHandler := mHandler s;
     conn := conn s; gotHelo := gotHelo s; isTLS := isTLS s; keepGoing := b;
     reader := reader s; writer := writer s |}.

(** Everything outside the session: what the transport will do, what it has
    done, and the log of handler calls. *)
Record world : Type := mkWorld {
  w_deadlines : list (option string); (* outcomes of the coming SetReadDeadline calls; nil after *)
  w_incoming  : list string;          (* lines the client sends, terminator stripped; then EOF *)
  w_writes    : list (option string); (* outcomes of the coming writes; nil after *)
  w_sent      : list (Conn * string); (* lines written so far, oldest first *)
  w_close     : option string;        (* outcome of closing the transport *)
  w_closed    : list Conn;            (* connections closed so far *)
  w_calls     : history
}.

Definition active (s : session) : bool :=
  match mHandler s with Some _ => true | None => false end.

(** ** Outcomes and the session monad *)

(** A Go run-time panic: an index out of range, or a method called on a nil
    interface value. *)
Inductive panic : Type := IndexOutOfRange | NilDereference.

Inductive outcome (A : Type) : Type :=
| Val (a : A) (s : session) (w : world)
| Panic (p : panic) (s : session) (w : world).
Arguments Val {A} a s w.
Arguments Panic {A} p s w.

Definition M (A : Type) : Type := session -> world -> outcome A.

Definition ret {A} (a : A) : M A := fun s w => Val a s w.

Definition bind {A B} (m : M A) (k : A -> M B) : M B :=
  fun s w =>
    match m s w with
    | Val a s' w' => k a s' w'
    | Panic p s' w' => Panic p s' w'
    end.

Notation "x <- m ;; k" := (bind m (fun x => k))
  (at level 61, m at next level, right associativity).
Notation "m ;;; k" := (bind m (fun _ => k))
  (at level 61, right associativity).

Definition get : M session := fun s w => Val s s w.
Definition modify (f : session -> session) : M unit := fun s w => Val tt (f s) w.
Definition put (s' : session) : M unit := fun _ w => Val tt s' w.
Definition throw {A} (p : panic) : M A := fun s w => Panic p s w.
Definition past : M history := fun s w => Val (w_calls w) s w.

Definition record (c : call) : M unit :=
  fun s w =>
    Val tt s
      {| w_deadlines := w_deadlines w; w_incoming := w_incoming w;
         w_writes := w_writes w; w_sent := w_sent w; w_close := w_close w;
         w_closed := w_closed w;
         w_calls := (w_calls w ++ [mkLogged c (active s)])%list |}.

(** [xs[i]]. *)
Definition index (xs : list string) (i : nat) : M string :=
  match nth_error xs i with
  | Some x => ret x
  | None => throw IndexOutOfRange
  end.

(* ================================================================== *)
(** * The transport *)

Definition transport_error (r : option string) : err :=
  match r with Some m => Some (Failure m) | None => None end.

(** [s.writer.PrintfLine]: one line, flushed to the connection the writer
    wraps; a failed write sends nothing. *)
Definition PrintfLine (text : string) : M err :=
  fun s w =>
    let outcome_of r rest :=
      match r with
      | None =>
          Val None s
            {| w_deadlines := w_deadlines w; w_incoming := w_incoming w;
               w_writes := rest;
               w_sent := (w_sent w ++ [(writer s, text)])%list;
               w_close := w_close w; w_closed := w_closed w;
               w_calls := w_calls w |}
      | Some m =>
          Val (Some (Failure m)) s
            {| w_deadlines := w_deadlines w; w_incoming := w_incoming w;
               w_writes := rest; w_sent := w_sent w;
               w_close := w_close w; w_closed := w_closed w;
               w_calls := w_calls w |}
      end in
    match w_writes w with
    | [] => outcome_of None []
    | r :: rest => outcome_of r rest
    end.

Definition set_incoming (ls : list string) (w : world) : world :=
  {| w_deadlines := w_deadlines w; w_incoming := ls; w_writes := w_writes w;
     w_sent := w_sent w; w_close := w_close w; w_closed := w_closed w;
     w_calls := w_calls w |}.

(** [s.reader.ReadLine]: the next line, or the error at the end of input. *)
Definition ReadLine : M (string * err) :=
  fun s w =>
    match w_incoming w with
    | [] => Val ("", Some (Failure "EOF")) s w
    | l :: rest => Val (l, None) s (set_incoming rest w)
    end.

(** [s.conn.SetReadDeadline]. *)
Definition SetReadDeadline : M err :=
  fun s w =>
    match w_deadlines w with
    | [] => Val None s w
    | r :: rest =>
        Val (transport_error r) s
          {| w_deadlines := rest; w_incoming := w_incoming w;
             w_writes := w_writes w; w_sent := w_sent w;
             w_close := w_close w; w_closed := w_closed w;
             w_calls := w_calls w |}
    end.

(** [closer.Close()] on a connection. *)
Definition CloseConn (c : Conn) : M err :=
  fun s w =>
    Val (transport_error (w_close w)) s
      {| w_deadlines := w_deadlines w; w_incoming := w_incoming w;
         w_writes := w_writes w; w_sent := w_sent w; w_close := w_close w;
         w_closed := (w_closed w ++ [c])%list; w_calls := w_calls w |}.

(** What [s.reader.DotReader()] makes of the lines to come, each taken as
    sent with its line ending: the lines up to the one that is a single
    dot, a leading dot removed from each, every line ended by LF.  With it,
    whether that terminating line came before the end of the input, and
    the lines after it. *)
Definition unstuff (l : string) : string :=
  match l with
  | String "."%char rest => rest
  | _ => l
  end.

Definition LF : string := String "010"%char EmptyString.

Record dotted : Type := mkDotted {
  dot_body       : string;
  dot_terminated : bool;
  dot_rest       : list string
}.

Fixpoint dotRead (ls : list string) : dotted :=
  match ls with
  | [] => mkDotted "" false []
  | l :: rest =>
      if String.eqb l "." then mkDotted "" true rest
      else let d := dotRead rest in
           mkDotted (unstuff l ++ LF ++ dot_body d) (dot_terminated d) (dot_rest d)
  end.

(** The buffer of [io.Copy]: [32 * 1024] bytes.  The dot reader fills it on
    every [Read] until the body ends, so the body reaches the sink cut into
    pieces of that size, the last one shorter or missing. *)
Definition copy_buffer_size : N := 32768.

Fixpoint chunks_from (room : N) (cur : string) (s : string) : list string :=
  match s with
  | EmptyString => match cur with EmptyString => [] | _ => [cur] end
  | String c rest =>
      if (room <=? 1)%N
      then (cur ++ String c EmptyString) :: chunks_from copy_buffer_size EmptyString rest
      else chunks_from (room - 1) (cur ++ String c EmptyString) rest
  end.

Definition chunks (body : string) : list string :=
  chunks_from copy_buffer_size EmptyString body.

Definition ErrShortWrite    : error := Failure "short write".
Definition errInvalidWrite  : error := Failure "invalid write result".
Definition ErrUnexpectedEOF : error := Failure "unexpected EOF".

(** One turn of the loop of [io.Copy] with [nr > 0] bytes read: the write,
    the check of the count it returns, its error, then the short write. *)
Definition copy_chunk (sink : WriteCloser) (chunk : string) : M err :=
  h <- past ;;
  record (CallWrite chunk) ;;;
  let nr := Z.of_nat (String.length chunk) in
  let (nw, ew) := wcWrite sink h chunk in
  let invalid := ((nw <? 0) || (nr <? nw))%Z%bool in
  let ew := if invalid
            then match ew with None => Some errInvalidWrite | Some e => Some e end
            else ew in
  let nw := if invalid then 0%Z else nw in
  match ew with
  | Some e => ret (Some e)
  | None => if (nr =? nw)%Z then ret None else ret (Some ErrShortWrite)
  end.

(** The turns of the loop, one for each piece, up to the first that fails;
    a nil sink panics at its first [Write]. *)
Fixpoint copy_chunks (wc : option WriteCloser) (pieces : list string) : M err :=
  match pieces with
  | [] => ret None
  | piece :: rest =>
      match wc with
      | None => throw NilDereference
      | Some sink =>
          e <- copy_chunk sink piece ;;
          match e with
          | Some x => ret (Some x)
          | None => copy_chunks wc rest
          end
      end
  end.

(** [io.Copy(writeCloser, dotReader)], for a sink that is written through
    [Write].  Every piece read is written before the reader's own error is
    looked at, so an error of the sink comes first, and a body cut short by
    the end of the input is still handed over before the unexpected-EOF
    error is returned.  What the copy leaves of the body is skipped by the
    reader before it reads its next line, so the lines to come are those
    after the terminating line in every case. *)
Definition io_Copy (wc : option WriteCloser) : M err :=
  fun s w =>
    let d := dotRead (w_incoming w) in
    (e <- copy_chunks wc (chunks (dot_body d)) ;;
     match e with
     | Some x => ret (Some x)
     | None => if dot_terminated d then ret None else ret (Some ErrUnexpectedEOF)
     end)
      s (set_incoming (dot_rest d) w).

Definition sink_Close (wc : option WriteCloser) : M err :=
  match wc with
  | None => throw NilDereference
  | Some sink => h <- past ;; record CallClose ;;; ret (wcClose sink h)
  end.

(** ** Calls on the handlers; a nil interface value panics *)

Definition the_sHandler : M SessionHandler :=
  s <- get ;;
  match sHandler s with
  | Some h => ret h
  | None => throw NilDereference
  end.

Definition sh_HandleHELO (name : string) (extended : bool) : M err :=
  h <- the_sHandler ;; p <- past ;;
  record (CallHandleHELO name extended) ;;; ret (HandleHELO h p name extended).

Definition sh_Authenticate (username password : string) : M err :=
  h <- the_sHandler ;; p <- past ;;
  record (CallAuthenticate username password) ;;;
  ret (Authenticate h p username password).

Definition sh_GetMessageHandler (from : string) : M (option MessageHandler * err) :=
  h <- the_sHandler ;; p <- past ;;
  record (CallGetMessageHandler from) ;;; ret (GetMessageHandler h p from).

Definition sh_MaxMessageSize : M N :=
  h <- the_sHandler ;; p <- past ;;
  record CallMaxMessageSize ;;; ret (MaxMessageSize h p).

Definition sh_HandleSessionError (e : error) : M unit :=
  _ <- the_sHandler ;; record (CallHandleSessionError e).

Definition mh_AddRecipient (m : MessageHandler) (recipient : string) : M err :=
  p <- past ;; record (CallAddRecipient recipient) ;;; ret (AddRecipient m p recipient).

Definition mh_GetDataWriter (m : MessageHandler) : M (option WriteCloser * err) :=
  p <- past ;; record CallGetDataWriter ;;; ret (GetDataWriter m p).

Definition srv_OnNewConnection (encrypted : bool) : M (option SessionHandler * err) :=
  s <- get ;; p <- past ;;
  record (CallOnNewConnection encrypted) ;;;
  ret (OnNewConnection (server s) p encrypted).

(** ** The Go idiom [if err != nil { return err }] *)

Definition or_return (m : M err) (k : M err) : M err :=
  e <- m ;;
  match e with
  | Some x => ret (Some x)
  | None => k
  end.

Definition val_or_return {A} (m : M (A * err)) (k : A -> M err) : M err :=
  r <- m ;;
  match snd r with
  | Some x => ret (Some x)
  | None => k (fst r)
  end.

Notation "'check' m ;; k" := (or_return m k)
  (at level 61, m at next level, right associativity).
Notation "x <~ m ;; k" := (val_or_return m (fun x => k))
  (at level 61, m at next level, right associativity).

(* ================================================================== *)
(** * address.go and session.go *)

Section Session.

(** [net/mail.ParseAddress] belongs to the Go library, not to this
    repository: the development is parametric in it. *)
Variable mail_ParseAddress : string -> option Address.

(** So are the Unicode paths of [strings.ToUpper] and [strings.Fields]. *)
Variable unicode : Unicode.

(** ** address.go *)

Definition parseAddress (src : string) : string * err :=
  if negb (HasPrefix src "<") || negb (HasSuffix src ">")
  then ("", ErrMalformedEmail)
  else match mail_ParseAddress src with
       | None => ("", ErrMalformedEmail)
       | Some addr => (addr_Address addr, None)
       end.

(** ** session.go: the verb handlers *)

Definition operationHandler := command -> M err.

(** [extensions]. *)
Definition extensions : M (list string) :=
  size <- sh_MaxMessageSize ;;
  s <- get ;;
  let extensions := [fmt_d (Z.of_N size) ++ " SIZE"; "8BITMIME"; "PIPELINING"] in
  let extensions :=
    match TLSConfig (server s) with
    | Some _ => if negb (isTLS s) then (extensions ++ ["STARTTLS"])%list else extensions
    | None => extensions
    end in
  let extensions :=
    if RequireAuth (server s) then (extensions ++ ["AUTH PLAIN LOGIN"])%list
    else extensions in
  ret extensions.

(** The [for ... range] of [handleEHLO]: it stops at the first write that
    fails. *)
Fixpoint write_continuations (exts : list string) : M err :=
  match exts with
  | [] => ret None
  | ext :: rest =>
      check PrintfLine (fmt_d StatusOK ++ "-" ++ ext) ;;
      write_continuations rest
  end.

Definition handleEHLO : operationHandler := fun cmd =>
  if (length (fields cmd) <? 2)%nat then ret ErrInvalidSyntax
  else
    modify (set_mHandler None) ;;;   (* reset message in case of duplicate HELO *)
    name <- index (fields cmd) 1 ;;
    check sh_HandleHELO name true ;;
    extensions <- extensions ;;
    check (if (1 <? length extensions)%nat
           then write_continuations (removelast extensions)
           else ret None) ;;
    modify (set_gotHelo true) ;;;
    last <- index extensions (length extensions - 1) ;;
    ret (NewReportableStatus StatusOK last).

Definition handleHELO : operationHandler := fun cmd =>
  if (length (fields cmd) <? 2)%nat then ret ErrInvalidSyntax
  else
    modify (set_mHandler None) ;;;   (* reset message in case of duplicate HELO *)
    name <- index (fields cmd) 1 ;;
    check sh_HandleHELO name false ;;
    modify (set_gotHelo true) ;;;
    ret GoAhead.

Definition handleMAIL : operationHandler := fun cmd =>
  s <- get ;;
  if negb (gotHelo s) then ret ErrNoHelo
  else if RequireTLS (server s) && negb (isTLS s)
  then ret (NewReportableStatus StatusBadSequence "please start TLS 1st")
  else
    param <- index (params cmd) 1 ;;
    from <~ ret (parseAddress param) ;;
    mh <~ sh_GetMessageHandler from ;;
    modify (set_mHandler mh) ;;;
    ret GoAhead.

Definition handleNOOP : operationHandler := fun cmd => ret GoAhead.

Definition handleQUIT : operationHandler := fun cmd =>
  modify (set_keepGoing false) ;;;
  ret (NewReportableStatus StatusServiceClosing "OK, bye").

Definition handleRCPT : operationHandler := fun cmd =>
  s <- get ;;
  match mHandler s with
  | None => ret ErrBadSequence
  | Some mh =>
      param <- index (params cmd) 1 ;;
      recipient <~ ret (parseAddress param) ;;
      check mh_AddRecipient mh recipient ;;
      ret GoAhead
  end.

Definition handleRSET : operationHandler := fun cmd =>
  modify (set_mHandler None) ;;;
  ret GoAhead.

Definition handleDATA : operationHandler := fun cmd =>
  s <- get ;;
  match mHandler s with
  | None => ret ErrBadSequence
  | Some mh =>
      writeCloser <~ mh_GetDataWriter mh ;;
      check PrintfLine (fmt_d StatusStartMailInput
                        ++ " Go ahead. End your data with <CR><LF>.<CR><LF>") ;;
      check io_Copy writeCloser ;;
      check sink_Close writeCloser ;;
      modify (set_mHandler None) ;;;   (* this is the end of the current message *)
      ret ThankYou
  end.

Definition handleSTARTTLS : operationHandler := fun cmd =>
  s <- get ;;
  if isTLS s then ret (NewReportableStatus StatusSyntaxError "already running TLS")
  else match TLSConfig (server s) with
  | None => ret (NewReportableStatus StatusCommandNotImplemented "TLS not supported")
  | Some _ =>
      let tlsConn := TLSConn (conn s) in
      check PrintfLine (fmt_d StatusOK ++ " Go ahead") ;;
      (* s.conn.SetDeadline(time.Time{}): result dropped, time is not modelled *)
      newHandler <~ srv_OnNewConnection true ;;
      put (newSession (server s) newHandler tlsConn true) ;;;
      ret None
  end.

(** Decoding as both AUTH mechanisms do it: any decoding error becomes
    [ErrDecodingCredentials]. *)
Definition decode_credentials (text : string) : string * err :=
  match Base64.DecodeString text with
  | Some bytes => (bytes, None)
  | None => ("", ErrDecodingCredentials)
  end.

Definition authLOGIN : operationHandler := fun cmd =>
  check PrintfLine (fmt_d StatusProvideCredentials ++ " VXNlcm5hbWU6") ;;
  line <~ ReadLine ;;
  byteUsername <~ ret (decode_credentials line) ;;
  check PrintfLine (fmt_d StatusProvideCredentials ++ " UGFzc3dvcmQ6") ;;
  line <~ ReadLine ;;
  bytePassword <~ ret (decode_credentials line) ;;
  sh_Authenticate byteUsername bytePassword.

Definition authPLAIN : operationHandler := fun cmd =>
  auth <~ (if (length (fields cmd) <? 3)%nat
           then
             e <- PrintfLine (fmt_d StatusProvideCredentials
                              ++ " Give me your credentials") ;;
             match e with
             | Some x => ret ("", Some x)
             | None => ReadLine
             end
           else
             f <- index (fields cmd) 2 ;; ret (f, None)) ;;
  data <~ ret (decode_credentials auth) ;;
  let parts := Split data NUL in
  if negb (length parts =? 3)%nat then ret ErrDecodingCredentials
  else
    username <- index parts 1 ;;
    password <- index parts 2 ;;
    sh_Authenticate username password.

Definition authMap (mechanism : string) : option operationHandler :=
  if String.eqb mechanism "LOGIN" then Some authLOGIN
  else if String.eqb mechanism "PLAIN" then Some authPLAIN
  else None.

Definition handleAUTH : operationHandler := fun cmd =>
  s <- get ;;
  if negb (gotHelo s) then ret ErrNoHelo
  else if (length (fields cmd) <? 2)%nat then ret ErrInvalidSyntax
  else
    f1 <- index (fields cmd) 1 ;;
    let mechanism := ToUpper unicode f1 in
    match authMap mechanism with
    | None => ret (NewReportableStatus StatusCommandNotImplemented
                     "Unknown authentication mechanism")
    | Some action => action cmd
    end.

Definition operationHandlers (verb : string) : option operationHandler :=
  if String.eqb verb "AUTH" then Some handleAUTH
  else if String.eqb verb "DATA" then Some handleDATA
  else if String.eqb verb "EHLO" then Some handleEHLO
  else if String.eqb verb "HELO" then Some handleHELO
  else if String.eqb verb "MAIL" then Some handleMAIL
  else if String.eqb verb "NOOP" then Some handleNOOP
  else if String.eqb verb "QUIT" then Some handleQUIT
  else if String.eqb verb "RCPT" then Some handleRCPT
  else if String.eqb verb "RSET" then Some handleRSET
  else if String.eqb verb "STARTTLS" then Some handleSTARTTLS
  else None.

(** ** session.go: the command loop *)

(** The non-reportable branch of [handleError]. *)
Definition handleFatal (e : error) : M unit :=
  modify (set_keepGoing false) ;;;
  sh_HandleSessionError e.

(** [handleError].  Its recursive call is on the result of [PrintfLine],
    which is nil or a transport failure and never a reportable status, so
    the recursion is written out once. *)
Definition handleError (e : err) : M unit :=
  match e with
  | None => ret tt
  | Some (Reportable code msg) =>
      e' <- PrintfLine (fmt_d code ++ " " ++ msg) ;;
      match e' with
      | None => ret tt
      | Some f => handleFatal f
      end
  | Some f => handleFatal f
  end.

Definition serveOne : M unit :=
  e <- SetReadDeadline ;;
  match e with
  | Some x => handleError (Some x)
  | None =>
      r <- ReadLine ;;
      match snd r with
      | Some x => handleError (Some x)
      | None =>
          let cmd := parseLine unicode (fst r) in
          match operationHandlers (action cmd) with
          | None =>
              handleError (NewReportableStatus StatusCommandNotImplemented
                             "Unsupported command")
          | Some action => e <- action cmd ;; handleError e
          end
      end
  end.

(** [closeOrReport]. *)
Definition closeOrReport (closer : Conn) : M unit :=
  e <- CloseConn closer ;;
  match e with
  | Some x => sh_HandleSessionError x
  | None => ret tt
  end.

(** How far a run of [serve] got. *)
Inductive run : Type :=
| Returned (s : session) (w : world)       (* [serve] returned *)
| Crashed (p : panic) (s : session) (w : world) (* a panic left [serve] *)
| Looping (s : session) (w : world).       (* still inside the [for] *)

(** The [for { if s.keepGoing { s.serveOne() } }] of [serve], run for
    [fuel] iterations.  The loop has no [break] and no [return]: only a
    panic leaves it. *)
Fixpoint commandLoop (fuel : nat) (s : session) (w : world) : run :=
  match fuel with
  | O => Looping s w
  | S fuel' =>
      if keepGoing s
      then match serveOne s w with
           | Val _ s' w' => commandLoop fuel' s' w'
           | Panic p s' w' => Crashed p s' w'
           end
      else commandLoop fuel' s w
  end.

(** The deferred [s.closeOrReport(s.conn)]: its argument is evaluated
    when [serve] starts; it runs when [serve] returns or panics. *)
Definition run_deferred (closer : Conn) (r : run) : run :=
  match r with
  | Returned s w =>
      match closeOrReport closer s w with
      | Val _ s' w' => Returned s' w'
      | Panic p s' w' => Crashed p s' w'
      end
  | Crashed p s w =>
      match closeOrReport closer s w with
      | Val _ s' w' => Crashed p s' w'
      | Panic p' s' w' => Crashed p' s' w'
      end
  | Looping s w => Looping s w
  end.

Definition serve (fuel : nat) (s : session) (w : world) : run :=
  run_deferred (conn s)
    match PrintfLine (fmt_d StatusServiceReady ++ " "
                      ++ Hostname (server s) ++ " ESMTP ready") s w with
    | Val (Some e) s1 w1 =>
        match sh_HandleSessionError e s1 w1 with
        | Val _ s2 w2 => Returned s2 w2
        | Panic p s2 w2 => Crashed p s2 w2
        end
    | Val None s1 w1 => commandLoop fuel s1 w1
    | Panic p s1 w1 => Crashed p s1 w1
    end.

End Session.

(* ================================================================== *)
(** * A reference instance of the collaborators, for concrete runs *)

Module Reference.

(** A mailbox parser for the dot-atom fragment of the mail-address
    grammar: [local@domain], both sides dot-separated runs of ordinary
    characters. *)
Definition atext (c : ascii) : bool :=
  let n := nat_of_ascii c in
  ((33 <=? n) && (n <=? 126))%nat
  && negb (existsb (Ascii.eqb c)
             (list_ascii_of_string "()<>[]:;@\,."))
  && negb (n =? 34)%nat.

Definition atom (s : string) : bool :=
  negb (String.eqb s "") && forallb atext (list_ascii_of_string s).

Definition dot_atom (s : string) : bool := forallb atom (Split s "."%char).

Definition addr_spec (s : string) : option string :=
  match Split s "@"%char with
  | [l; d] => if dot_atom l && dot_atom d then Some (l ++ "@" ++ d) else None
  | _ => None
  end.

(** The library parser on that fragment: a bare [addr-spec], or one in
    angle brackets. *)
Definition ParseAddress (src : string) : option Address :=
  option_map (mkAddress "")
    (if HasPrefix src "<" && HasSuffix src ">"
     then addr_spec (substring 1 (String.length src - 2) src)
     else addr_spec src).

(** A sink that takes everything, one whose [Close] fails, and one whose
    [Write] fails. *)
Definition accept_all (data : string) : Z * err :=
  (Z.of_nat (String.length data), None).
Definition sink_ok : WriteCloser :=
  mkWriteCloser (fun _ => accept_all) (fun _ => None).
Definition sink_close_fails : WriteCloser :=
  mkWriteCloser (fun _ => accept_all) (fun _ => Some (Failure "disk full")).
Definition sink_write_fails : WriteCloser :=
  mkWriteCloser (fun _ _ => (0%Z, Some (Failure "disk full"))) (fun _ => None).

(** Stand-ins for the Unicode paths of the library: they treat every byte
    as a character of its own.  The runs below are on 7-bit lines, which
    never reach them. *)
Definition unicode : Unicode := mkUnicode upper_bytes (fields_from "").

Definition message_handler (sink : WriteCloser) : MessageHandler :=
  mkMessageHandler (fun _ _ => None) (fun _ => (Some sink, None)).

(** A policy handler that accepts every greeting and sender, and
    authenticates alice only. *)
Definition policy (sink : WriteCloser) : SessionHandler :=
  mkSessionHandler
    (fun _ u p => if String.eqb u "alice" && String.eqb p "secret"
                  then AuthSuccess
                  else NewReportableStatus 535%Z "Authentication failed")
    (fun _ _ => (Some (message_handler sink), None))
    (fun _ _ _ => None)
    (fun _ => 1024%N).

(** A policy handler that rejects every greeting. *)
Definition policy_rejecting : SessionHandler :=
  mkSessionHandler
    (fun _ _ _ => None)
    (fun _ _ => (None, NewReportableStatus 550%Z "No"))
    (fun _ _ _ => NewReportableStatus 550%Z "Go away")
    (fun _ => 1024%N).

Definition the_server (tls : option unit) (requireAuth requireTLS : bool) : Server :=
  mkServer "mx.example" (fun _ _ => (Some (policy sink_ok), None))
           requireAuth requireTLS tls.

(** A client that sends [lines] over a transport that never fails. *)
Definition client (lines : list string) : world :=
  mkWorld [] lines [] [] None [] [].

Definition fresh (srv : Server) (h : SessionHandler) : session :=
  newSession srv (Some h) (RawConn 0) false.

Definition plain_server := the_server None false false.
Definition tls_server := the_server (Some tt) true false.

End Reference.

(* ================================================================== *)
(** * Notions the statements use *)

Definition final_session {A} (o : outcome A) : session :=
  match o with Val _ s _ => s | Panic _ s _ => s end.

Definition final_world {A} (o : outcome A) : world :=
  match o with Val _ _ w => w | Panic _ _ w => w end.

(** The transport accepts every write still to come. *)
Definition transport_up (w : world) : Prop :=
  Forall (fun r => r = None) (w_writes w).

(** The world after [text] went out on [c]. *)
Definition wrote (c : Conn) (text : string) (w : world) : world :=
  {| w_deadlines := w_deadlines w; w_incoming := w_incoming w;
     w_writes := tl (w_writes w);
     w_sent := (w_sent w ++ [(c, text)])%list;
     w_close := w_close w; w_closed := w_closed w; w_calls := w_calls w |}.

(** The world after call [c] was logged with flag [a]. *)
Definition logged_call (c : call) (a : bool) (w : world) : world :=
  {| w_deadlines := w_deadlines w; w_incoming := w_incoming w;
     w_writes := w_writes w; w_sent := w_sent w; w_close := w_close w;
     w_closed := w_closed w;
     w_calls := (w_calls w ++ [mkLogged c a])%list |}.

Ltac unfold_monad :=
  unfold or_return, val_or_return, bind, ret, get, modify, put, throw, past,
    record in *.

(** The world after a run of continuation lines went out on [c]. *)
Fixpoint wrote_all (c : Conn) (texts : list string) (w : world) : world :=
  match texts with
  | [] => w
  | t :: rest => wrote_all c rest (wrote c t w)
  end.

(** The list [extensions] builds, as a function of what it reads. *)
Definition capability_list (size : N) (tls : option unit) (encrypted auth : bool)
  : list string :=
  ([(fmt_d (Z.of_N size) ++ " SIZE")%string; "8BITMIME"; "PIPELINING"]
   ++ (match tls with
       | Some _ => if negb encrypted then ["STARTTLS"] else []
       | None => []
       end)
   ++ (if auth then ["AUTH PLAIN LOGIN"] else []))%list.

Fixpoint last_char (s : string) : option ascii :=
  match s with
  | EmptyString => None
  | String c rest =>
      match rest with
      | EmptyString => Some c
      | _ => last_char rest
      end
  end.

(** STARTTLS is on offer: TLS material is configured and the session is
    not encrypted yet. *)
Definition tls_offered (s : session) : bool :=
  match TLSConfig (server s) with
  | Some _ => negb (isTLS s)
  | None => false
  end.

(** The reply lines for a capability list: continuation form for all but
    the last, terminating form for the last. *)
Definition continuation_line (text : string) : string := "250-" ++ text.
Definition terminating_line (text : string) : string := "250 " ++ text.

Definition multiline_reply (exts : list string) : list string :=
  (map continuation_line (removelast exts) ++ [terminating_line (last exts "")])%list.

(** PLAIN as the specification words it: decode the payload, split the
    decoded bytes on NUL into exactly three parts, and take the second and
    the third as identity and password; [None] is the credential-decoding
    error. *)
Definition plain_credentials (payload : string) : option (string * string) :=
  match Base64.DecodeString payload with
  | None => None
  | Some data =>
      match Split data NUL with
      | [_; username; password] => Some (username, password)
      | _ => None
      end
  end.

(** What the specification has PLAIN do with a payload. *)
Definition plain_outcome (payload : string) : M err :=
  match plain_credentials payload with
  | Some (username, password) => sh_Authenticate username password
  | None => ret ErrDecodingCredentials
  end.

(** Two runs end alike: same result or same panic, same session, same
    calls into the handlers. *)
Definition same_outcome (a b : outcome err) : Prop :=
  match a, b with
  | Val e1 s1 w1, Val e2 s2 w2 => e1 = e2 /\ s1 = s2 /\ w_calls w1 = w_calls w2
  | Panic p1 s1 w1, Panic p2 s2 w2 => p1 = p2 /\ s1 = s2 /\ w_calls w1 = w_calls w2
  | _, _ => False
  end.

(** A session in the middle of a mail transaction. *)
Definition in_transaction (srv : Server) (h : SessionHandler) (sink : WriteCloser)
  : session :=
  set_mHandler (Some (Reference.message_handler sink))
    (set_gotHelo true (Reference.fresh srv h)).

(** What a run of [serve] shows from outside: how it stands, the lines
    sent, the handler calls, the connections closed. *)
Definition observe (r : run) : string * list string * list call * list Conn :=
  match r with
  | Returned _ w => ("returned", map snd (w_sent w), map lg_call (w_calls w), w_closed w)
  | Crashed _ _ w => ("crashed", map snd (w_sent w), map lg_call (w_calls w), w_closed w)
  | Looping _ w => ("looping", map snd (w_sent w), map lg_call (w_calls w), w_closed w)
  end.

(** ** Notions for the session as a state machine *)

(** The session and the world a run stands at. *)
Definition run_session (r : run) : session :=
  match r with Returned s _ => s | Crashed _ s _ => s | Looping s _ => s end.

Definition run_world (r : run) : world :=
  match r with Returned _ w => w | Crashed _ _ w => w | Looping _ w => w end.

(** The ways one verb handler can leave the session. *)
Inductive evolves (s : session) : session -> Prop :=
| ev_same : evolves s s
| ev_cleared : evolves s (set_mHandler None s)
| ev_greeted : evolves s (set_gotHelo true (set_mHandler None s))
| ev_mail (mh : option MessageHandler) :
    gotHelo s = true -> evolves s (set_mHandler mh s)
| ev_quit : evolves s (set_keepGoing false s)
| ev_upgraded (h : option SessionHandler) :
    isTLS s = false ->
    evolves s (newSession (server s) h (TLSConn (conn s)) true).

(** One command: a verb handler, then possibly the end of serving. *)
Definition command_step (s s' : session) : Prop :=
  exists s1, evolves s s1 /\ (s' = s1 \/ s' = set_keepGoing false s1).

(** A message handler is only active after a greeting. *)
Definition greeted_if_active (s : session) : Prop :=
  mHandler s = None \/ gotHelo s = true.

(** The session talks on its connection, which is the accepted connection
    [id], in the clear, or one TLS layer around it. *)
Definition on_connection (id : nat) (s : session) : Prop :=
  reader s = conn s /\ writer s = conn s
  /\ ((isTLS s = false /\ conn s = RawConn id)
      \/ (isTLS s = true /\ conn s = TLSConn (RawConn id))).

(** A line of white space only (the empty line among them). *)
Definition blank (l : string) : Prop :=
  Forall (fun c => asciiSpace c = true) (list_ascii_of_string l).

(** A token: no white space in it. *)
Definition spaceless (t : string) : Prop :=
  Forall (fun c => asciiSpace c = false) (list_ascii_of_string t).

(** No colon in it. *)
Definition colonless (t : string) : Prop :=
  Forall (fun c => Ascii.eqb c ":"%char = false) (list_ascii_of_string t).

(** The world after a write failed: the write is used up, nothing went out. *)
Definition write_failed (w : world) : world :=
  {| w_deadlines := w_deadlines w; w_incoming := w_incoming w;
     w_writes := tl (w_writes w); w_sent := w_sent w;
     w_close := w_close w; w_closed := w_closed w; w_calls := w_calls w |}.

(** The world after a prompt went out on [c] and its answer was read,
    [rest] being the lines still to come. *)
Definition prompted (c : Conn) (text : string) (rest : list string) (w : world)
  : world :=
  set_incoming rest (wrote c text w).

(** A server whose connection factory refuses the upgraded connection. *)
Definition refusing_factory_server : Server :=
  mkServer "mx.example" (fun _ _ => (None, Some (Failure "no more sessions")))
           false false (Some tt).

(** A message handler that has no sink to give. *)
Definition sinkless_message_handler : MessageHandler :=
  mkMessageHandler (fun _ _ => None)
                   (fun _ => (None, Some (Reportable 452%Z "Try again later"))).

(** The world after connection [c] was closed. *)
Definition closed_conn (c : Conn) (w : world) : world :=
  {| w_deadlines := w_deadlines w; w_incoming := w_incoming w;
     w_writes := w_writes w; w_sent := w_sent w; w_close := w_close w;
     w_closed := (w_closed w ++ [c])%list; w_calls := w_calls w |}.

(** ** [Server.Serve], the accept loop *)

(** What [listener.Accept] returns: a connection, or an error that is
    temporary (a [net.Error] whose [Temporary()] holds) or not. *)
Inductive accept_result : Type :=
| Accepted (c : Conn)
| AcceptError (temporary : bool) (e : error).

(** Where the accept loop stands: the sessions it has started with
    [go sn.serve()], in order, the calls it has made to the connection
    factory, and the error [Serve] returned, [None] while it waits in
    [Accept]. *)
Record serving : Type := mkServing {
  started  : list session;
  asked    : history;
  returned : option error
}.

(** The [for] of [Serve] over what the listener will return.  A temporary
    accept error is slept over and skipped; any other accept error, and any
    error of the connection factory, is returned; a nil handler declines
    the connection; otherwise a session is started on it.  The sessions run
    on their own and are only recorded here. *)
Fixpoint accept_loop (srv : Server) (listener : list accept_result)
         (st : serving) : serving :=
  match listener with
  | [] => st
  | AcceptError true _ :: rest => accept_loop srv rest st
  | AcceptError false e :: _ => mkServing (started st) (asked st) (Some e)
  | Accepted c :: rest =>
      let asked' := (asked st ++ [mkLogged (CallOnNewConnection false) false])%list in
      match OnNewConnection srv (asked st) false with
      | (_, Some e) => mkServing (started st) asked' (Some e)
      | (None, None) => accept_loop srv rest (mkServing (started st) asked' None)
      | (Some handler, None) =>
          accept_loop srv rest
            (mkServing (started st ++ [newSession srv (Some handler) c false])%list
                       asked' None)
      end
  end.

(** [Serve].  The [Server] record always holds a connection factory, so the
    nil test that opens [Serve] is passed. *)
Definition Serve (srv : Server) (listener : list accept_result) : serving :=
  accept_loop srv listener (mkServing [] [] None).

(** The connections a listener hands over. *)
Fixpoint accepted_conns (listener : list accept_result) : list Conn :=
  match listener with
  | [] => []
  | Accepted c :: rest => c :: accepted_conns rest
  | AcceptError _ _ :: rest => accepted_conns rest
  end.

(** The listener without its temporary errors. *)
Fixpoint without_temporary (listener : list accept_result) : list accept_result :=
  match listener with
  | [] => []
  | AcceptError true _ :: rest => without_temporary rest
  | r :: rest => r :: without_temporary rest
  end.

(** A sublist, in order. *)
Inductive sublist {A : Type} : list A -> list A -> Prop :=
| sub_nil : sublist [] []
| sub_skip x l1 l2 : sublist l1 l2 -> sublist l1 (x :: l2)
| sub_take x l1 l2 : sublist l1 l2 -> sublist (x :: l1) (x :: l2).

(** The bytes a dot-terminated body of lines [ls] amounts to. *)
Fixpoint body_of (ls : list string) : string :=
  match ls with
  | [] => ""
  | l :: rest => unstuff l ++ LF ++ body_of rest
  end.

(** The pieces of a body put together again. *)
Definition joined (pieces : list string) : string :=
  fold_right append "" pieces.

(** The world after the calls [cs] were logged, in order, with flag [a]. *)
Definition logged_calls (cs : list call) (a : bool) (w : world) : world :=
  fold_left (fun w' c => logged_call c a w') cs w.

(** The calls a completed DATA phase makes for the body lines [ls]: the
    sink is asked for, written to once for every piece of the body, and
    closed. *)
Definition data_calls (ls : list string) : list logged :=
  (mkLogged CallGetDataWriter true
   :: map (fun piece => mkLogged (CallWrite piece) true) (chunks (body_of ls))
   ++ [mkLogged CallClose true])%list.

(** Case analysis on the innermost scrutinee first, so that what was
    learnt about it is still there when the outer match is reached. *)
Ltac case_inner :=
  repeat (cbn -[Base64.DecodeString Split ToUpper fmt_d String.eqb append];
          match goal with
          | |- context [match ?x with _ => _ end] =>
              lazymatch x with
              | context [match _ with _ => _ end] => fail
              | _ => destruct x eqn:?
              end
          end).

(** The log of handler calls only grows. *)
Definition grows (w w' : world) : Prop :=
  exists more, w_calls w' = (w_calls w ++ more)%list.

(** A step that leaves the session alone, closes nothing and only adds to
    the log. *)
Definition quiet {A : Type} (s : session) (w : world) (r : outcome A) : Prop :=
  final_session r = s
  /\ w_closed (final_world r) = w_closed w
  /\ grows w (final_world r).

(** What DATA may do: clear the message handler or not, close nothing,
    add to the log. *)
Definition data_frame (s : session) (w : world) (r : outcome err) : Prop :=
  (final_session r = s \/ final_session r = set_mHandler None s)
  /\ w_closed (final_world r) = w_closed w
  /\ grows w (final_world r).

(** What one step of a session keeps of its greeting, from session [s]
    in world [w] to session [s'] in world [w']: the log of calls only
    grows, and either [s'] is not greeted, or it has the policy handler
    and the greeting flag of [s], or its policy handler accepted, by a nil
    result, a greeting it was asked about during the step. *)
Definition greeting_kept (s : session) (w : world) (s' : session) (w' : world)
  : Prop :=
  grows w w'
  /\ (gotHelo s' = false
      \/ (sHandler s' = sHandler s /\ gotHelo s' = gotHelo s)
      \/ exists h name extended before after,
          sHandler s' = Some h
          /\ w_calls w' = ((w_calls w ++ before)
                           ++ mkLogged (CallHandleHELO name extended) false :: after)%list
          /\ HandleHELO h (w_calls w ++ before)%list name extended = None).

Definition kept_by {A : Type} (s : session) (w : world) (r : outcome A) : Prop :=
  greeting_kept s w (final_session r) (final_world r).

(** The log of the world reached extends the log of the world left. *)
Ltac log_grows :=
  unfold grows; cbn [w_calls final_world logged_call wrote set_incoming];
  first [ exists []; rewrite app_nil_r; reflexivity
        | eexists; rewrite <- ?app_assoc; reflexivity ].

(* ================================================================== *)
(** * Properties *)

(** ** The transport, step by step *)

Lemma PrintfLine_next (text : string) (s : session) (w : world) :
  hd None (w_writes w) = None ->
  PrintfLine text s w = Val None s (wrote (writer s) text w).
Proof.
  unfold PrintfLine, wrote.
  destruct (w_writes w) as [|r rest]; simpl; intros H; [reflexivity|].
  subst r. reflexivity.
Qed.

Lemma transport_up_hd (w : world) : transport_up w -> hd None (w_writes w) = None.
Proof.
  unfold transport_up. destruct (w_writes w); simpl; intros H; [reflexivity|].
  now inversion H.
Qed.

Lemma transport_up_wrote (c : Conn) (text : string) (w : world) :
  transport_up w -> transport_up (wrote c text w).
Proof.
  unfold transport_up, wrote; simpl.
  destruct (w_writes w); simpl; intros H; [constructor|now inversion H].
Qed.

Lemma PrintfLine_total (text : string) (s : session) (w : world) :
  exists e w', PrintfLine text s w = Val e s w'.
Proof.
  unfold PrintfLine.
  destruct (w_writes w) as [|[m|] rest]; eauto.
Qed.

Lemma write_continuations_total (exts : list string) :
  forall s w, exists e w', write_continuations exts s w = Val e s w'.
Proof.
  induction exts as [|ext rest IH]; intros s w; cbn [write_continuations].
  - unfold ret; eauto.
  - unfold or_return, bind.
    destruct (PrintfLine_total (fmt_d StatusOK ++ "-" ++ ext) s w) as (e & w' & ->).
    destruct e; [unfold ret; eauto | apply IH].
Qed.

Lemma write_continuations_up (exts : list string) :
  forall s w, transport_up w ->
    write_continuations exts s w =
    Val None s (wrote_all (writer s) (map (fun e => fmt_d StatusOK ++ "-" ++ e) exts) w).
Proof.
  induction exts as [|ext rest IH]; intros s w Hup;
    cbn [write_continuations map wrote_all]; [reflexivity|].
  unfold or_return, bind.
  rewrite PrintfLine_next by now apply transport_up_hd.
  apply IH. now apply transport_up_wrote.
Qed.

Lemma wrote_all_sent (c : Conn) (texts : list string) :
  forall w, w_sent (wrote_all c texts w) = (w_sent w ++ map (pair c) texts)%list.
Proof.
  induction texts as [|t rest IH]; intros w; simpl.
  - now rewrite app_nil_r.
  - rewrite IH. simpl. now rewrite <- app_assoc.
Qed.

Lemma wrote_all_up (c : Conn) (texts : list string) :
  forall w, transport_up w -> transport_up (wrote_all c texts w).
Proof.
  induction texts as [|t rest IH]; intros w H; simpl; [exact H|].
  apply IH. now apply transport_up_wrote.
Qed.

Lemma wrote_all_calls (c : Conn) (texts : list string) :
  forall w, w_calls (wrote_all c texts w) = w_calls w.
Proof.
  induction texts as [|t rest IH]; intros w; simpl; [reflexivity|].
  now rewrite IH.
Qed.

(** ** The capability list *)

Lemma extensions_eq (s : session) (w : world) (h : SessionHandler) :
  sHandler s = Some h ->
  extensions s w =
  Val (capability_list (MaxMessageSize h (w_calls w)) (TLSConfig (server s))
         (isTLS s) (RequireAuth (server s)))
      s (logged_call CallMaxMessageSize (active s) w).
Proof.
  intros Hh. unfold extensions, sh_MaxMessageSize, the_sHandler, capability_list.
  unfold_monad. rewrite Hh. simpl.
  destruct (TLSConfig (server s)), (isTLS s), (RequireAuth (server s)); reflexivity.
Qed.

Lemma extensions_nil_handler (s : session) (w : world) :
  sHandler s = None -> extensions s w = Panic NilDereference s w.
Proof.
  intros Hh. unfold extensions, sh_MaxMessageSize, the_sHandler.
  unfold_monad. now rewrite Hh.
Qed.

Lemma capability_list_length (size : N) (tls : option unit) (encrypted auth : bool) :
  3 <= length (capability_list size tls encrypted auth).
Proof.
  unfold capability_list. rewrite length_app. simpl. lia.
Qed.

Lemma index_some (xs : list string) (i : nat) (x : string) (s : session) (w : world) :
  nth_error xs i = Some x -> index xs i s w = Val x s w.
Proof. intros H. unfold index. now rewrite H. Qed.

Lemma index_last (xs : list string) (s : session) (w : world) :
  xs <> [] -> index xs (length xs - 1) s w = Val (last xs "") s w.
Proof.
  intros Hne. apply index_some.
  destruct (exists_last Hne) as (front & x & ->).
  rewrite length_app, last_last. simpl.
  replace (length front + 1 - 1) with (length front) by lia.
  now rewrite nth_error_app2, Nat.sub_diag by lia.
Qed.

Lemma fields_second (cmd : command) (name : string) :
  nth_error (fields cmd) 1 = Some name -> (length (fields cmd) <? 2)%nat = false.
Proof.
  intros H. apply Nat.ltb_ge.
  assert (1 < length (fields cmd)) by (apply nth_error_Some; congruence). lia.
Qed.

Lemma sh_HandleHELO_eq (name : string) (ext : bool) (s : session) (w : world)
      (h : SessionHandler) :
  sHandler s = Some h ->
  sh_HandleHELO name ext s w =
  Val (HandleHELO h (w_calls w) name ext) s
      (logged_call (CallHandleHELO name ext) (active s) w).
Proof.
  intros Hh. unfold sh_HandleHELO, the_sHandler. unfold_monad. now rewrite Hh.
Qed.

Lemma sh_HandleHELO_nil (name : string) (ext : bool) (s : session) (w : world) :
  sHandler s = None -> sh_HandleHELO name ext s w = Panic NilDereference s w.
Proof.
  intros Hh. unfold sh_HandleHELO, the_sHandler. unfold_monad. now rewrite Hh.
Qed.

(** [handleEHLO] on a command with an argument, step by step. *)
Lemma handleEHLO_eq (cmd : command) (name : string) (s : session) (w : world)
      (h : SessionHandler) :
  nth_error (fields cmd) 1 = Some name ->
  sHandler s = Some h ->
  let s0 := set_mHandler None s in
  let w0 := logged_call (CallHandleHELO name true) false w in
  let exts := capability_list (MaxMessageSize h (w_calls w0)) (TLSConfig (server s))
                (isTLS s) (RequireAuth (server s)) in
  handleEHLO cmd s w =
  match HandleHELO h (w_calls w) name true with
  | Some e => Val (Some e) s0 w0
  | None =>
      match write_continuations (removelast exts) s0
              (logged_call CallMaxMessageSize false w0) with
      | Val (Some e) s1 w1 => Val (Some e) s1 w1
      | Val None s1 w1 =>
          Val (NewReportableStatus StatusOK (last exts "")) (set_gotHelo true s1) w1
      | Panic p s1 w1 => Panic p s1 w1
      end
  end.
Proof.
  intros Hname Hh s0 w0 exts.
  unfold handleEHLO. rewrite (fields_second _ _ Hname).
  unfold bind at 1. unfold modify at 1.
  unfold bind at 1. rewrite (index_some _ _ _ _ _ Hname).
  unfold or_return at 1. unfold bind at 1.
  rewrite (sh_HandleHELO_eq name true (set_mHandler None s) w h Hh).
  change (active (set_mHandler None s)) with false. fold s0 w0.
  destruct (HandleHELO h (w_calls w) name true) as [e|]; [reflexivity|].
  unfold bind at 1.
  rewrite (extensions_eq s0 w0 h Hh).
  change (active s0) with false.
  change (capability_list _ _ _ _) with exts.
  assert (Hlen : 3 <= length exts) by apply capability_list_length.
  assert (H1 : (1 <? length exts)%nat = true) by (apply Nat.ltb_lt; lia).
  rewrite H1.
  unfold or_return at 1. unfold bind at 1.
  destruct (write_continuations_total (removelast exts) s0
              (logged_call CallMaxMessageSize false w0)) as (e & w1 & ->).
  destruct e as [e|]; [reflexivity|].
  unfold bind at 1. unfold modify at 1.
  unfold bind at 1.
  rewrite index_last by (intros E; rewrite E in Hlen; simpl in Hlen; lia).
  reflexivity.
Qed.

(** C10.  Whatever the server configuration and the session state, the list
    [extensions] builds starts with the size limit the policy handler
    gives, then 8BITMIME, then PIPELINING, so it has at least three
    entries and its last element exists; and [handleEHLO], which reads that
    last element, never fails with an index out of range.  (With a nil
    policy handler the call to [MaxMessageSize] panics before any list is
    built.) *)
Theorem extensions_at_least_three (cmd : command) (s : session) (w : world) :
  match extensions s w with
  | Val exts _ _ =>
      3 <= length exts /\ nth_error exts (length exts - 1) <> None
      /\ exists h more,
          sHandler s = Some h
          /\ exts = (fmt_d (Z.of_N (MaxMessageSize h (w_calls w))) ++ " SIZE")%string
                    :: "8BITMIME" :: "PIPELINING" :: more
          /\ (In "STARTTLS" more <-> TLSConfig (server s) <> None /\ isTLS s = false)
          /\ (In "AUTH PLAIN LOGIN" more <-> RequireAuth (server s) = true)
  | Panic p _ _ => p = NilDereference /\ sHandler s = None
  end
  /\ match handleEHLO cmd s w with
     | Panic IndexOutOfRange _ _ => False
     | _ => True
     end.
Proof.
  split.
  - destruct (sHandler s) as [h|] eqn:Hh.
    + rewrite (extensions_eq s w h Hh).
      pose proof (capability_list_length (MaxMessageSize h (w_calls w))
                    (TLSConfig (server s)) (isTLS s) (RequireAuth (server s))) as Hlen.
      split; [exact Hlen|].
      split; [apply nth_error_Some; lia|].
      exists h. eexists. split; [reflexivity|].
      split; [unfold capability_list; cbn [app]; reflexivity|].
      destruct (TLSConfig (server s)) as [[]|], (isTLS s), (RequireAuth (server s));
        cbn [negb app In]; intuition (discriminate || congruence).
    + rewrite (extensions_nil_handler s w Hh). now split.
  - destruct (nth_error (fields cmd) 1) as [name|] eqn:Hname.
    + destruct (sHandler s) as [h|] eqn:Hh.
      * rewrite (handleEHLO_eq cmd name s w h Hname Hh).
        destruct (HandleHELO h (w_calls w) name true); [exact I|].
        match goal with
        | |- context [write_continuations ?l ?s0 ?w0] =>
            destruct (write_continuations_total l s0 w0) as (e & w1 & ->)
        end.
        destruct e; exact I.
      * unfold handleEHLO. rewrite (fields_second _ _ Hname).
        unfold bind at 1. unfold modify at 1.
        unfold bind at 1. rewrite (index_some _ _ _ _ _ Hname).
        unfold or_return at 1. unfold bind at 1.
        rewrite sh_HandleHELO_nil by exact Hh. exact I.
    + unfold handleEHLO.
      assert (Hshort : (length (fields cmd) <? 2)%nat = true).
      { apply Nat.ltb_lt. apply nth_error_None in Hname. lia. }
      rewrite Hshort. exact I.
Qed.

(** ** The EHLO reply *)

Lemma last_char_app (x : string) (c : ascii) (y : string) :
  last_char (x ++ String c y) = last_char (String c y).
Proof.
  induction x as [|a x IH]; [reflexivity|].
  cbn [append last_char]. rewrite IH.
  destruct x; reflexivity.
Qed.

Lemma size_line_not_starttls (x : string) : x ++ " SIZE" <> "STARTTLS".
Proof.
  intros H. apply (f_equal last_char) in H.
  rewrite last_char_app in H. discriminate H.
Qed.

Lemma size_line_not_auth (x : string) : x ++ " SIZE" <> "AUTH PLAIN LOGIN".
Proof.
  intros H. apply (f_equal last_char) in H.
  rewrite last_char_app in H. discriminate H.
Qed.

Lemma capability_list_starttls (size : N) (tls : option unit) (encrypted auth : bool) :
  count_occ string_dec (capability_list size tls encrypted auth) "STARTTLS" =
  match tls with
  | Some _ => if negb encrypted then 1 else 0
  | None => 0
  end.
Proof.
  unfold capability_list.
  cbn [app count_occ].
  destruct (string_dec (fmt_d (Z.of_N size) ++ " SIZE") "STARTTLS") as [E|_];
    [now apply size_line_not_starttls in E|].
  destruct tls, encrypted, auth; reflexivity.
Qed.

Lemma capability_list_auth (size : N) (tls : option unit) (encrypted auth : bool) :
  count_occ string_dec (capability_list size tls encrypted auth) "AUTH PLAIN LOGIN" =
  if auth then 1 else 0.
Proof.
  unfold capability_list.
  cbn [app count_occ].
  destruct (string_dec (fmt_d (Z.of_N size) ++ " SIZE") "AUTH PLAIN LOGIN") as [E|_];
    [now apply size_line_not_auth in E|].
  destruct tls, encrypted, auth; reflexivity.
Qed.

(** C5.  An EHLO with an argument that the policy handler accepts, on a
    transport that takes the writes, is answered by one line per
    capability: all but the last in continuation form [250-text], the last
    in terminating form [250 text].  The capabilities are at least three;
    STARTTLS is among them exactly once when TLS material is configured and
    the session is not encrypted, and not at all otherwise; the AUTH
    advertisement is among them exactly once when require-AUTH is set, and
    not at all otherwise. *)
Theorem ehlo_reply_multiline (cmd : command) (name : string) (s : session)
        (w : world) (h : SessionHandler) :
  nth_error (fields cmd) 1 = Some name ->
  sHandler s = Some h ->
  HandleHELO h (w_calls w) name true = None ->
  transport_up w ->
  exists exts s' w',
    (e <- handleEHLO cmd ;; handleError e) s w = Val tt s' w'
    /\ gotHelo s' = true
    /\ w_sent w' = (w_sent w ++ map (pair (writer s)) (multiline_reply exts))%list
    /\ 3 <= length exts
    /\ count_occ string_dec exts "STARTTLS" = (if tls_offered s then 1 else 0)
    /\ count_occ string_dec exts "AUTH PLAIN LOGIN"
       = (if RequireAuth (server s) then 1 else 0).
Proof.
  intros Hname Hh Haccept Hup.
  set (w0 := logged_call (CallHandleHELO name true) false w).
  set (exts := capability_list (MaxMessageSize h (w_calls w0)) (TLSConfig (server s))
                 (isTLS s) (RequireAuth (server s))).
  set (s0 := set_mHandler None s).
  set (w1 := wrote_all (writer s0) (map (fun e => fmt_d StatusOK ++ "-" ++ e)
                                        (removelast exts))
               (logged_call CallMaxMessageSize false w0)).
  exists exts, (set_gotHelo true s0),
    (wrote (writer s0) (terminating_line (last exts "")) w1).
  assert (Hup1 : transport_up w1).
  { apply wrote_all_up. exact Hup. }
  split; [|split; [reflexivity|split; [|split; [|split]]]].
  - unfold bind at 1.
    rewrite (handleEHLO_eq cmd name s w h Hname Hh), Haccept.
    fold w0 exts s0.
    rewrite write_continuations_up by exact Hup.
    fold w1. unfold NewReportableStatus, handleError.
    unfold bind at 1.
    rewrite PrintfLine_next by now apply transport_up_hd.
    reflexivity.
  - cbn [w_sent wrote]. unfold w1. rewrite wrote_all_sent.
    unfold multiline_reply. rewrite map_app, <- app_assoc. reflexivity.
  - apply capability_list_length.
  - unfold exts, tls_offered. rewrite capability_list_starttls.
    destruct (TLSConfig (server s)); reflexivity.
  - apply capability_list_auth.
Qed.

(** ** Greeting again *)

Lemma handleHELO_eq (cmd : command) (name : string) (s : session) (w : world)
      (h : SessionHandler) :
  nth_error (fields cmd) 1 = Some name ->
  sHandler s = Some h ->
  handleHELO cmd s w =
  match HandleHELO h (w_calls w) name false with
  | Some e => Val (Some e) (set_mHandler None s)
                  (logged_call (CallHandleHELO name false) false w)
  | None => Val GoAhead (set_gotHelo true (set_mHandler None s))
                (logged_call (CallHandleHELO name false) false w)
  end.
Proof.
  intros Hname Hh.
  unfold handleHELO. rewrite (fields_second _ _ Hname).
  unfold bind at 1. unfold modify at 1.
  unfold bind at 1. rewrite (index_some _ _ _ _ _ Hname).
  unfold or_return at 1. unfold bind at 1.
  rewrite (sh_HandleHELO_eq name false (set_mHandler None s) w h Hh).
  change (active (set_mHandler None s)) with false.
  destruct (HandleHELO h (w_calls w) name false); reflexivity.
Qed.

Lemma greeting_nil_handler (cmd : command) (name : string) (s : session) (w : world) :
  nth_error (fields cmd) 1 = Some name ->
  sHandler s = None ->
  handleEHLO cmd s w = Panic NilDereference (set_mHandler None s) w
  /\ handleHELO cmd s w = Panic NilDereference (set_mHandler None s) w.
Proof.
  intros Hname Hh.
  unfold handleEHLO, handleHELO. rewrite (fields_second _ _ Hname).
  split.
  - unfold bind at 1. unfold modify at 1.
    unfold bind at 1. rewrite (index_some _ _ _ _ _ Hname).
    unfold or_return at 1. unfold bind at 1.
    now rewrite sh_HandleHELO_nil.
  - unfold bind at 1. unfold modify at 1.
    unfold bind at 1. rewrite (index_some _ _ _ _ _ Hname).
    unfold or_return at 1. unfold bind at 1.
    now rewrite sh_HandleHELO_nil.
Qed.

Lemma write_continuations_calls (exts : list string) :
  forall s w e s' w',
    write_continuations exts s w = Val e s' w' -> s' = s /\ w_calls w' = w_calls w.
Proof.
  induction exts as [|ext rest IH]; intros s w e s' w';
    cbn [write_continuations].
  - unfold ret. intros H. inversion H. now split.
  - unfold or_return, bind.
    unfold PrintfLine.
    destruct (w_writes w) as [|[m|] more]; unfold ret.
    + intros H. apply IH in H. exact H.
    + intros H. inversion H. now split.
    + intros H. apply IH in H. exact H.
Qed.

(** C9.  An EHLO or a HELO that carries an argument clears the active
    message handler before the policy handler's HELO classification is
    called: whatever the command does next, the session it leaves has no
    message handler; the classification is the first call it makes, logged
    with no message handler active; and when the classification rejects the
    greeting, the rejection is returned from the session already cleared. *)
Theorem greeting_clears_message_handler (cmd : command) (name : string)
        (s : session) (w : world) :
  nth_error (fields cmd) 1 = Some name ->
  (mHandler (final_session (handleEHLO cmd s w)) = None
   /\ mHandler (final_session (handleHELO cmd s w)) = None)
  /\ forall h, sHandler s = Some h ->
       (exists rest,
           w_calls (final_world (handleEHLO cmd s w)) =
           (w_calls w ++ mkLogged (CallHandleHELO name true) false :: rest)%list)
       /\ (exists rest,
              w_calls (final_world (handleHELO cmd s w)) =
              (w_calls w ++ mkLogged (CallHandleHELO name false) false :: rest)%list)
       /\ (forall e, HandleHELO h (w_calls w) name true = Some e ->
             handleEHLO cmd s w =
             Val (Some e) (set_mHandler None s)
                 (logged_call (CallHandleHELO name true) false w))
       /\ (forall e, HandleHELO h (w_calls w) name false = Some e ->
             handleHELO cmd s w =
             Val (Some e) (set_mHandler None s)
                 (logged_call (CallHandleHELO name false) false w)).
Proof.
  intros Hname.
  destruct (sHandler s) as [h|] eqn:Hh.
  - pose proof (handleEHLO_eq cmd name s w h Hname Hh) as HE. cbv zeta in HE.
    pose proof (handleHELO_eq cmd name s w h Hname Hh) as HH.
    split; [split|].
    + rewrite HE.
      destruct (HandleHELO h (w_calls w) name true); [reflexivity|].
      match goal with
      | |- context [write_continuations ?l ?s0 ?w0] =>
          destruct (write_continuations_total l s0 w0) as (e & w1 & ->)
      end.
      destruct e; reflexivity.
    + rewrite HH.
      destruct (HandleHELO h (w_calls w) name false); reflexivity.
    + intros h' Hh'. injection Hh' as <-.
      split; [|split; [|split]].
      * rewrite HE.
        destruct (HandleHELO h (w_calls w) name true).
        { exists []. reflexivity. }
        match goal with
        | |- context [write_continuations ?l ?s0 ?w0] =>
            destruct (write_continuations l s0 w0) as [e s1 w1|p s1 w1] eqn:Hw
        end.
        { apply write_continuations_calls in Hw. destruct Hw as [_ Hc].
          exists [mkLogged CallMaxMessageSize false].
          destruct e; cbn [final_world]; rewrite Hc; cbn [w_calls logged_call];
            now rewrite <- app_assoc. }
        { match type of Hw with
          | write_continuations ?l ?s0 ?w0 = _ =>
              destruct (write_continuations_total l s0 w0) as (e & w2 & Hv)
          end.
          congruence. }
      * rewrite HH.
        destruct (HandleHELO h (w_calls w) name false); exists []; reflexivity.
      * intros e He. rewrite HE, He. reflexivity.
      * intros e He. rewrite HH, He. reflexivity.
  - destruct (greeting_nil_handler cmd name s w Hname Hh) as [-> ->].
    split; [split; reflexivity|].
    intros h Hh'. discriminate Hh'.
Qed.

(** ** MAIL and RCPT *)

Lemma handleMAIL_eq (lib : string -> option Address) (cmd : command)
      (s : session) (w : world) :
  handleMAIL lib cmd s w =
  if negb (gotHelo s) then Val ErrNoHelo s w
  else if RequireTLS (server s) && negb (isTLS s)
  then Val (NewReportableStatus StatusBadSequence "please start TLS 1st") s w
  else match nth_error (params cmd) 1 with
       | None => Panic IndexOutOfRange s w
       | Some param =>
           match parseAddress lib param with
           | (_, Some e) => Val (Some e) s w
           | (from, None) =>
               match sHandler s with
               | None => Panic NilDereference s w
               | Some h =>
                   let w' := logged_call (CallGetMessageHandler from) (active s) w in
                   match GetMessageHandler h (w_calls w) from with
                   | (_, Some e) => Val (Some e) s w'
                   | (mh, None) => Val GoAhead (set_mHandler mh s) w'
                   end
               end
           end
       end.
Proof.
  unfold handleMAIL. unfold bind at 1. unfold get at 1.
  destruct (negb (gotHelo s)); [reflexivity|].
  destruct (RequireTLS (server s) && negb (isTLS s)); [reflexivity|].
  unfold bind at 1. unfold index.
  destruct (nth_error (params cmd) 1) as [param|]; [|reflexivity].
  unfold ret at 1. unfold val_or_return at 1. unfold bind at 1. unfold ret at 1.
  destruct (parseAddress lib param) as [from [e|]]; cbn [fst snd]; [reflexivity|].
  unfold val_or_return at 1. unfold bind at 1.
  unfold sh_GetMessageHandler, the_sHandler. unfold_monad.
  destruct (sHandler s) as [h|]; [|reflexivity].
  cbn [fst snd].
  destruct (GetMessageHandler h (w_calls w) from) as [mh [e|]]; reflexivity.
Qed.

Lemma handleRCPT_eq (lib : string -> option Address) (cmd : command)
      (s : session) (w : world) :
  handleRCPT lib cmd s w =
  match mHandler s with
  | None => Val ErrBadSequence s w
  | Some mh =>
      match nth_error (params cmd) 1 with
      | None => Panic IndexOutOfRange s w
      | Some param =>
          match parseAddress lib param with
          | (_, Some e) => Val (Some e) s w
          | (recipient, None) =>
              let w' := logged_call (CallAddRecipient recipient) true w in
              match AddRecipient mh (w_calls w) recipient with
              | Some e => Val (Some e) s w'
              | None => Val GoAhead s w'
              end
          end
      end
  end.
Proof.
  unfold handleRCPT. unfold bind at 1. unfold get at 1.
  destruct (mHandler s) as [mh|] eqn:Hm; [|reflexivity].
  unfold bind at 1. unfold index.
  destruct (nth_error (params cmd) 1) as [param|]; [|reflexivity].
  unfold ret at 1. unfold val_or_return at 1. unfold bind at 1. unfold ret at 1.
  destruct (parseAddress lib param) as [recipient [e|]]; cbn [fst snd]; [reflexivity|].
  unfold mh_AddRecipient. unfold_monad. unfold active. rewrite Hm.
  destruct (AddRecipient mh (w_calls w) recipient); reflexivity.
Qed.

(** C7.  MAIL before a greeting is answered 503 (no-greeting-yet); MAIL
    after a greeting on a server that requires TLS, from a session that is
    not encrypted, is answered 503 with the direction to start TLS first;
    otherwise a MAIL whose parameter is a valid bracketed address for which
    the policy handler returns a message handler and no error is answered
    250 go-ahead, and that message handler becomes the active one. *)
Theorem mail_sequence_and_acceptance (lib : string -> option Address)
        (cmd : command) (s : session) (w : world) :
  (gotHelo s = false ->
     handleMAIL lib cmd s w = Val ErrNoHelo s w
     /\ code_of ErrNoHelo = Some StatusBadSequence
     /\ StatusBadSequence = 503%Z)
  /\ (gotHelo s = true -> RequireTLS (server s) = true -> isTLS s = false ->
        handleMAIL lib cmd s w =
        Val (NewReportableStatus StatusBadSequence "please start TLS 1st") s w)
  /\ (gotHelo s = true -> RequireTLS (server s) && negb (isTLS s) = false ->
      forall param from h mh,
        nth_error (params cmd) 1 = Some param ->
        parseAddress lib param = (from, None) ->
        sHandler s = Some h ->
        GetMessageHandler h (w_calls w) from = (mh, None) ->
        handleMAIL lib cmd s w =
        Val GoAhead (set_mHandler mh s)
            (logged_call (CallGetMessageHandler from) (active s) w)
        /\ mHandler (set_mHandler mh s) = mh
        /\ code_of GoAhead = Some 250%Z).
Proof.
  rewrite handleMAIL_eq.
  split; [|split].
  - intros ->. repeat split.
  - intros -> -> ->. reflexivity.
  - intros -> -> param from h mh -> -> -> ->. repeat split.
Qed.

(** C3, as the code has it.  A MAIL after the greeting (and past the TLS
    check), or a RCPT inside a transaction, whose command has no second
    colon-separated parameter indexes [cmd.params] out of range: the
    handler panics instead of answering with a syntax error.  The lines
    [MAIL] and [MAIL FROM] are such commands. *)
Theorem mail_rcpt_without_parameter_panic (lib : string -> option Address)
      (uni : Unicode)
        (cmd : command) (s : session) (w : world) :
  length (params cmd) < 2 ->
  (gotHelo s = true -> RequireTLS (server s) && negb (isTLS s) = false ->
     handleMAIL lib cmd s w = Panic IndexOutOfRange s w)
  /\ (mHandler s <> None -> handleRCPT lib cmd s w = Panic IndexOutOfRange s w)
  /\ params (parseLine uni "MAIL") = []
  /\ params (parseLine uni "MAIL FROM") = ["FROM"]
  /\ params (parseLine uni "RCPT") = [].
Proof.
  intros Hlen.
  assert (Hnone : nth_error (params cmd) 1 = None) by (apply nth_error_None; lia).
  split; [|split; [|repeat split]].
  - intros Hg Ht. rewrite handleMAIL_eq, Hg, Ht, Hnone. reflexivity.
  - intros Hm. rewrite handleRCPT_eq, Hnone.
    destruct (mHandler s); [reflexivity|congruence].
Qed.

(** ** DATA *)

Lemma copy_chunk_total (sink : WriteCloser) (chunk : string) (s : session) (w : world) :
  exists e, copy_chunk sink chunk s w = Val e s (logged_call (CallWrite chunk) (active s) w).
Proof.
  unfold copy_chunk. unfold_monad.
  destruct (wcWrite sink (w_calls w) chunk) as [nw ew].
  destruct ((nw <? 0) || (Z.of_nat (String.length chunk) <? nw))%Z%bool;
    destruct ew; cbv beta iota; eauto;
    match goal with
    | |- context [(?a =? ?b)%Z] => destruct (a =? b)%Z; eauto
    end.
Qed.

Lemma copy_chunks_total (sink : WriteCloser) (pieces : list string) :
  forall s w, exists e w', copy_chunks (Some sink) pieces s w = Val e s w'.
Proof.
  induction pieces as [|piece rest IH]; intros s w; cbn [copy_chunks].
  - unfold ret. eauto.
  - unfold bind.
    destruct (copy_chunk_total sink piece s w) as (e & ->).
    destruct e; [unfold ret; eauto|apply IH].
Qed.

Lemma io_Copy_total (sink : WriteCloser) (s : session) (w : world) :
  exists e w', io_Copy (Some sink) s w = Val e s w'.
Proof.
  unfold io_Copy. unfold bind.
  destruct (copy_chunks_total sink (chunks (dot_body (dotRead (w_incoming w)))) s
              (set_incoming (dot_rest (dotRead (w_incoming w))) w)) as (e & w' & ->).
  destruct e; [unfold ret; eauto|].
  destruct (dot_terminated (dotRead (w_incoming w))); unfold ret; eauto.
Qed.

Lemma handleDATA_eq (cmd : command) (s : session) (w : world)
      (mh : MessageHandler) (sink : WriteCloser) :
  mHandler s = Some mh ->
  GetDataWriter mh (w_calls w) = (Some sink, None) ->
  hd None (w_writes w) = None ->
  let w1 := wrote (writer s)
              (fmt_d StatusStartMailInput
               ++ " Go ahead. End your data with <CR><LF>.<CR><LF>")
              (logged_call CallGetDataWriter true w) in
  handleDATA cmd s w =
  match io_Copy (Some sink) s w1 with
  | Val (Some e) _ w2 => Val (Some e) s w2
  | Val None _ w2 =>
      match wcClose sink (w_calls w2) with
      | Some e => Val (Some e) s (logged_call CallClose true w2)
      | None => Val ThankYou (set_mHandler None s) (logged_call CallClose true w2)
      end
  | Panic p s' w' => Panic p s' w'
  end.
Proof.
  intros Hm Hsink Hwr w1.
  unfold handleDATA. unfold bind at 1. unfold get at 1. rewrite Hm.
  unfold val_or_return at 1. unfold bind at 1.
  unfold mh_GetDataWriter. unfold_monad. rewrite Hsink. cbn [fst snd].
  unfold active. rewrite Hm.
  rewrite PrintfLine_next by exact Hwr.
  fold (logged_call CallGetDataWriter true w). fold w1.
  destruct (io_Copy_total sink s w1) as (e & w2 & ->).
  destruct e; [reflexivity|].
  unfold sink_Close. unfold_monad. unfold active. rewrite Hm.
  destruct (wcClose sink (w_calls w2)); reflexivity.
Qed.

(** C1, as the code has it.  A DATA command with an active message handler
    whose sink was obtained and whose go-ahead was written.  The copy of
    the body into the sink returns without panic; when it returns an error
    (a write of the sink failed, or the input ended before the terminating
    dot), that error is what the handler returns and the session is left
    as it was, its message handler still in place; when the copy succeeds
    and the sink's close fails, the same holds for the error of the close;
    the message handler is cleared, and the reply is thank-you, only when
    the copy and the close both succeed. *)
Theorem data_clears_handler_on_success_only (cmd : command) (s : session)
        (w : world) (mh : MessageHandler) (sink : WriteCloser) :
  mHandler s = Some mh ->
  GetDataWriter mh (w_calls w) = (Some sink, None) ->
  hd None (w_writes w) = None ->
  let w1 := wrote (writer s) "354 Go ahead. End your data with <CR><LF>.<CR><LF>"
              (logged_call CallGetDataWriter true w) in
  exists copied w2,
    io_Copy (Some sink) s w1 = Val copied s w2
    /\ handleDATA cmd s w =
       match copied with
       | Some e => Val (Some e) s w2
       | None =>
           match wcClose sink (w_calls w2) with
           | Some e => Val (Some e) s (logged_call CallClose true w2)
           | None => Val ThankYou (set_mHandler None s) (logged_call CallClose true w2)
           end
       end.
Proof.
  intros Hm Hsink Hwr w1.
  pose proof (handleDATA_eq cmd s w mh sink Hm Hsink Hwr) as E. cbv zeta in E.
  fold w1 in E.
  destruct (io_Copy_total sink s w1) as (copied & w2 & Hcopy).
  exists copied, w2. split; [exact Hcopy|].
  rewrite E.
  change (wrote (writer s)
            (fmt_d StatusStartMailInput
             ++ " Go ahead. End your data with <CR><LF>.<CR><LF>")
            (logged_call CallGetDataWriter true w)) with w1.
  rewrite Hcopy. destruct copied; reflexivity.
Qed.

(** ** STARTTLS *)

(** C4.  STARTTLS on a session that is not encrypted, with TLS material
    configured, whose go-ahead is written and for which the connection
    factory returns no error, returns nil and leaves a new session in place
    of the old one: its transport, reader and writer are the TLS-wrapped
    connection, it is encrypted, it has received no greeting and it has no
    message handler.  On that session a second STARTTLS is answered 501
    already-running-TLS, and MAIL is answered 503 no-greeting-yet. *)
Theorem starttls_replaces_session (cmd : command) (s : session) (w : world)
        (cfg : unit) (newHandler : option SessionHandler) :
  isTLS s = false ->
  TLSConfig (server s) = Some cfg ->
  hd None (w_writes w) = None ->
  OnNewConnection (server s) (w_calls w) true = (newHandler, None) ->
  let s' := newSession (server s) newHandler (TLSConn (conn s)) true in
  handleSTARTTLS cmd s w =
    Val None s'
        (logged_call (CallOnNewConnection true) (active s)
           (wrote (writer s) "250 Go ahead" w))
  /\ (conn s' = TLSConn (conn s) /\ reader s' = TLSConn (conn s)
      /\ writer s' = TLSConn (conn s))
  /\ isTLS s' = true
  /\ gotHelo s' = false
  /\ mHandler s' = None
  /\ (forall cmd2 w2,
        handleSTARTTLS cmd2 s' w2 = Val (Some (Reportable 501%Z "already running TLS")) s' w2)
  /\ (forall lib cmd3 w3,
        handleMAIL lib cmd3 s' w3 = Val ErrNoHelo s' w3).
Proof.
  intros Htls Hcfg Hwr Hnew s'.
  split; [|repeat split].
  unfold handleSTARTTLS. unfold bind at 1. unfold get at 1.
  rewrite Htls, Hcfg.
  unfold or_return at 1. unfold bind at 1.
  rewrite PrintfLine_next by exact Hwr.
  unfold val_or_return, srv_OnNewConnection. unfold_monad.
  cbn [w_calls wrote]. rewrite Hnew. reflexivity.
Qed.

(** ** AUTH PLAIN *)

Lemma credentials_then_authenticate (payload : string) (s : session) (w : world) :
  (data <~ ret (decode_credentials payload) ;;
   let parts := Split data NUL in
   if negb (length parts =? 3)%nat then ret ErrDecodingCredentials
   else
     username <- index parts 1 ;;
     password <- index parts 2 ;;
     sh_Authenticate username password) s w
  = plain_outcome payload s w.
Proof.
  unfold plain_outcome, plain_credentials, decode_credentials.
  unfold val_or_return at 1. unfold bind at 1. unfold ret at 1.
  destruct (Base64.DecodeString payload) as [data|]; cbn [fst snd]; [|reflexivity].
  destruct (Split data NUL) as [|a [|b [|c [|d l]]]]; reflexivity.
Qed.

Lemma plain_outcome_calls (payload : string) (s : session) (w1 w2 : world) :
  w_calls w1 = w_calls w2 ->
  same_outcome (plain_outcome payload s w1) (plain_outcome payload s w2).
Proof.
  intros Hc. unfold plain_outcome.
  destruct (plain_credentials payload) as [[u p]|].
  - unfold sh_Authenticate, the_sHandler. unfold_monad.
    destruct (sHandler s); cbn [same_outcome w_calls]; rewrite Hc; repeat split.
  - unfold ret. cbn [same_outcome]. repeat split. exact Hc.
Qed.

(** C6.  AUTH PLAIN with the payload as the command's third field, and AUTH
    PLAIN without a third field whose prompt is written and answered by the
    same payload, both do what the specification has PLAIN do with that
    payload: a payload that does not decode, or does not split on NUL into
    exactly three parts, gives the credential-decoding syntax error and no
    call; otherwise the second and third parts are passed to the policy
    handler's authenticate operation and its result returned.  The two runs
    end with the same result, the same session and the same handler calls;
    the payload [base64(NUL alice NUL secret)] gives the credentials alice
    and secret. *)
Theorem auth_plain_inline_interactive (inline interactive : command)
        (payload : string) (s : session) (w : world) :
  nth_error (fields inline) 2 = Some payload ->
  length (fields interactive) < 3 ->
  hd None (w_writes w) = None ->
  let asked := set_incoming (payload :: w_incoming w) w in
  authPLAIN inline s w = plain_outcome payload s w
  /\ authPLAIN interactive s asked =
     plain_outcome payload s (wrote (writer s) "334 Give me your credentials" w)
  /\ same_outcome (authPLAIN inline s w) (authPLAIN interactive s asked)
  /\ plain_credentials "AGFsaWNlAHNlY3JldA==" = Some ("alice", "secret")
  /\ code_of ErrDecodingCredentials = Some StatusSyntaxError.
Proof.
  intros Hinline Hshort Hwr asked.
  assert (E1 : authPLAIN inline s w = plain_outcome payload s w).
  { rewrite <- credentials_then_authenticate.
    unfold authPLAIN.
    assert (Hlong : (length (fields inline) <? 3)%nat = false).
    { apply Nat.ltb_ge.
      assert (2 < length (fields inline)) by (apply nth_error_Some; congruence).
      lia. }
    rewrite Hlong.
    unfold val_or_return at 1. unfold bind at 1. unfold bind at 1.
    rewrite (index_some _ _ _ _ _ Hinline). reflexivity. }
  assert (E2 : authPLAIN interactive s asked =
               plain_outcome payload s
                 (wrote (writer s) "334 Give me your credentials" w)).
  { rewrite <- credentials_then_authenticate.
    unfold authPLAIN.
    assert (Hlt : (length (fields interactive) <? 3)%nat = true)
      by now apply Nat.ltb_lt.
    rewrite Hlt.
    unfold val_or_return at 1. unfold bind at 1. unfold bind at 1.
    rewrite PrintfLine_next by exact Hwr.
    reflexivity. }
  split; [exact E1|split; [exact E2|split; [|split; reflexivity]]].
  rewrite E1, E2. apply plain_outcome_calls. reflexivity.
Qed.

(** ** The address validator *)

Lemma HasPrefix_bracket (src : string) :
  HasPrefix src "<" = true <-> exists rest, src = String "<"%char rest.
Proof.
  unfold HasPrefix. destruct src as [|a rest]; cbn [prefix].
  - split; [discriminate|intros (r & H); discriminate H].
  - destruct (ascii_dec "<"%char a) as [<-|Hne].
    + destruct rest; split; eauto.
    + split; [discriminate|]. intros (r & H). injection H as H _. congruence.
Qed.

Lemma last_char_snoc (s : string) (c : ascii) :
  last_char s = Some c <-> exists front, s = front ++ String c "".
Proof.
  split.
  - induction s as [|a rest IH]; [discriminate|].
    cbn [last_char]. destruct rest as [|b rest'].
    + intros H. injection H as ->. exists "". reflexivity.
    + intros H. destruct (IH H) as (front & ->).
      exists (String a front). reflexivity.
  - intros (front & ->). now rewrite last_char_app.
Qed.

Lemma substring_last_char (s : string) :
  substring (String.length s - 1) 1 s =
  match last_char s with
  | Some c => String c ""
  | None => ""
  end.
Proof.
  induction s as [|a rest IH]; [reflexivity|].
  destruct rest as [|b rest']; [reflexivity|].
  cbn [String.length last_char] in *.
  replace (S (S (String.length rest')) - 1) with (S (S (String.length rest') - 1)) by lia.
  cbn [substring]. exact IH.
Qed.

Lemma HasSuffix_bracket (src : string) :
  HasSuffix src ">" = true <-> exists front, src = front ++ ">".
Proof.
  rewrite <- (last_char_snoc src ">"%char).
  unfold HasSuffix. rewrite substring_last_char.
  destruct src as [|a rest]; [split; discriminate|].
  change (String.length ">") with 1.
  replace (1 <=? String.length (String a rest))%nat with true
    by (symmetry; apply Nat.leb_le; cbn [String.length]; lia).
  cbn [andb].
  destruct (last_char (String a rest)) as [c|].
  - rewrite String.eqb_eq. split.
    + intros H. injection H as ->. reflexivity.
    + intros H. injection H as ->. reflexivity.
  - split; discriminate.
Qed.

(** A string passes the bracket test of [parseAddress] exactly when it is
    some text between [<] and [>]. *)
Lemma bracket_test (src : string) :
  negb (HasPrefix src "<") || negb (HasSuffix src ">") = false
  <-> exists inner, src = "<" ++ inner ++ ">".
Proof.
  rewrite orb_false_iff, !negb_false_iff, HasPrefix_bracket, HasSuffix_bracket.
  split.
  - intros [(rest & ->) (front & Hf)].
    destruct front as [|a front'].
    + discriminate Hf.
    + cbn [append] in Hf. injection Hf as <- ->. now exists front'.
  - intros (inner & ->). split.
    + now exists (inner ++ ">").
    + now exists (String "<"%char inner).
Qed.

(** C8.  Take the mail-address grammar as [mailbox], giving the canonical
    address of a text that is one mailbox, and let the library parser read
    an angle-bracketed text by that grammar.  Then the validator succeeds
    on exactly the strings that are [<], a mailbox, [>], returning the
    canonical address without the brackets; on every other string it fails
    with the malformed-address status, which is a 501, and returns the
    empty string with it.  So [foo@bar] is rejected, and [<foo@bar>] gives
    [foo@bar] when the grammar takes it. *)
Theorem parseAddress_contract (lib : string -> option Address)
        (mailbox : string -> option string) (src : string) :
  (forall inner, option_map addr_Address (lib ("<" ++ inner ++ ">")) = mailbox inner) ->
  (forall a, parseAddress lib src = (a, None)
             <-> exists inner, src = "<" ++ inner ++ ">" /\ mailbox inner = Some a)
  /\ (parseAddress lib src = ("", ErrMalformedEmail)
      \/ exists a, parseAddress lib src = (a, None))
  /\ ((forall inner a, src = "<" ++ inner ++ ">" -> mailbox inner <> Some a) ->
      parseAddress lib src = ("", ErrMalformedEmail))
  /\ ErrMalformedEmail = Some (Reportable 501%Z "Malformed email address")
  /\ parseAddress lib "foo@bar" = ("", ErrMalformedEmail)
  /\ (mailbox "foo@bar" = Some "foo@bar" ->
      parseAddress lib "<foo@bar>" = ("foo@bar", None)).
Proof.
  intros Hlib.
  split; [|split; [|split; [|split; [|split]]]].
  - intros a. split.
    + unfold parseAddress.
      destruct (negb (HasPrefix src "<") || negb (HasSuffix src ">")) eqn:Hb;
        [discriminate|].
      apply bracket_test in Hb. destruct Hb as (inner & ->).
      destruct (lib ("<" ++ inner ++ ">")) as [addr|] eqn:Elib; [|discriminate].
      intros H. injection H as <-.
      exists inner. split; [reflexivity|].
      rewrite <- Hlib, Elib. reflexivity.
    + intros (inner & -> & Hm).
      unfold parseAddress.
      replace (negb (HasPrefix ("<" ++ inner ++ ">") "<")
               || negb (HasSuffix ("<" ++ inner ++ ">") ">")) with false
        by (symmetry; apply bracket_test; eauto).
      rewrite <- Hlib in Hm.
      destruct (lib ("<" ++ inner ++ ">")) as [addr|]; [|discriminate Hm].
      cbn [option_map] in Hm. injection Hm as <-. reflexivity.
  - unfold parseAddress.
    destruct (negb (HasPrefix src "<") || negb (HasSuffix src ">")); [now left|].
    destruct (lib src); [right; eauto|now left].
  - intros Hnone. unfold parseAddress.
    destruct (negb (HasPrefix src "<") || negb (HasSuffix src ">")) eqn:Hb;
      [reflexivity|].
    apply bracket_test in Hb. destruct Hb as (inner & ->).
    destruct (lib ("<" ++ inner ++ ">")) as [addr|] eqn:Elib; [|reflexivity].
    exfalso. apply (Hnone inner (addr_Address addr) eq_refl).
    rewrite <- Hlib, Elib. reflexivity.
  - reflexivity.
  - reflexivity.
  - intros Hm. rewrite <- (Hlib "foo@bar") in Hm.
    unfold parseAddress.
    change (negb (HasPrefix "<foo@bar>" "<") || negb (HasSuffix "<foo@bar>" ">"))
      with false.
    change ("<" ++ "foo@bar" ++ ">") with "<foo@bar>" in Hm.
    destruct (lib "<foo@bar>") as [addr|]; [|discriminate Hm].
    cbn [option_map] in Hm. injection Hm as ->. reflexivity.
Qed.

(** ** The command loop *)

Lemma commandLoop_stopped (lib : string -> option Address)
      (uni : Unicode) (fuel : nat)
      (s : session) (w : world) :
  keepGoing s = false -> commandLoop lib uni fuel s w = Looping s w.
Proof.
  intros Hstop. induction fuel as [|fuel IH]; cbn [commandLoop]; [reflexivity|].
  rewrite Hstop. exact IH.
Qed.

Lemma commandLoop_never_returns (lib : string -> option Address)
      (uni : Unicode) (fuel : nat) :
  forall s w s' w', commandLoop lib uni fuel s w <> Returned s' w'.
Proof.
  induction fuel as [|fuel IH]; intros s w s' w'; cbn [commandLoop]; [discriminate|].
  destruct (keepGoing s); [|apply IH].
  destruct (serveOne lib uni s w); [apply IH|discriminate].
Qed.

Lemma serveOne_quit (lib : string -> option Address)
      (uni : Unicode) (s : session) (w : world)
      (rest : list string) :
  w_deadlines w = [] ->
  hd None (w_writes w) = None ->
  w_incoming w = "QUIT" :: rest ->
  serveOne lib uni s w =
  Val tt (set_keepGoing false s)
      (wrote (writer s) "221 OK, bye" (set_incoming rest w)).
Proof.
  intros Hd Hw Hin.
  unfold serveOne. unfold bind at 1. unfold SetReadDeadline. rewrite Hd.
  unfold bind at 1. unfold ReadLine. rewrite Hin. cbn [fst snd].
  change (operationHandlers lib uni (action (parseLine uni "QUIT")))
    with (Some handleQUIT).
  cbv iota. unfold bind at 1. unfold handleQUIT.
  unfold bind at 1. unfold modify at 1. unfold ret at 1.
  unfold NewReportableStatus, handleError.
  unfold bind at 1.
  rewrite PrintfLine_next by exact Hw.
  reflexivity.
Qed.

(** C2, as the code has it.  The [for] of [serve] has no exit: it never
    makes [serve] return, and once continue-serving is false every further
    iteration leaves session and world as they are.  So a session whose
    client sends QUIT writes the greeting and the closing reply and then
    stays in the loop for good, however long it runs: [serve] does not
    return and the transport is not closed. *)
Theorem serve_spins_after_quit (lib : string -> option Address)
      (uni : Unicode) (fuel : nat)
        (s : session) (w : world) (rest : list string) :
  keepGoing s = true ->
  w_deadlines w = [] ->
  w_writes w = [] ->
  w_incoming w = "QUIT" :: rest ->
  let w' := wrote (writer s) "221 OK, bye"
              (set_incoming rest
                 (wrote (writer s)
                    ("220 " ++ Hostname (server s) ++ " ESMTP ready") w)) in
  serve lib uni (S fuel) s w = Looping (set_keepGoing false s) w'
  /\ w_closed w' = w_closed w
  /\ (forall n s0 w0, keepGoing s0 = false -> commandLoop lib uni n s0 w0 = Looping s0 w0)
  /\ (forall n s0 w0 s1 w1, commandLoop lib uni n s0 w0 <> Returned s1 w1).
Proof.
  intros Hgo Hd Hw Hin w'.
  split; [|split; [reflexivity|split]].
  - unfold serve.
    rewrite PrintfLine_next by (rewrite Hw; reflexivity).
    cbn [commandLoop]. rewrite Hgo.
    rewrite (serveOne_quit lib uni s _ rest); cbn [w_deadlines w_writes w_incoming wrote];
      try assumption; [|rewrite Hw; reflexivity].
    rewrite commandLoop_stopped by reflexivity.
    reflexivity.
  - intros n s0 w0. apply commandLoop_stopped.
  - intros n s0 w0 s1 w1. apply commandLoop_never_returns.
Qed.

(* ================================================================== *)
(** * Concrete runs *)

Lemma length_append (s t : string) :
  String.length (s ++ t) = String.length s + String.length t.
Proof.
  induction s as [|c s IH]; cbn [append String.length]; [reflexivity|].
  now rewrite IH.
Qed.

Lemma reference_reads_brackets (inner : string) :
  option_map addr_Address (Reference.ParseAddress ("<" ++ inner ++ ">"))
  = Reference.addr_spec inner.
Proof.
  unfold Reference.ParseAddress.
  assert (Hp : HasPrefix ("<" ++ inner ++ ">") "<" = true)
    by (apply HasPrefix_bracket; now exists (inner ++ ">")).
  assert (Hs : HasSuffix ("<" ++ inner ++ ">") ">" = true)
    by (apply HasSuffix_bracket; now exists (String "<"%char inner)).
  rewrite Hp, Hs. cbn [andb].
  assert (Hsub : substring 1 (String.length ("<" ++ inner ++ ">") - 2)
                   ("<" ++ inner ++ ">") = inner).
  { cbn [append String.length substring].
    replace (S (String.length (inner ++ ">")) - 2) with (String.length inner)
      by (rewrite length_append; cbn [String.length]; lia).
    clear. induction inner as [|c t IH]; [reflexivity|].
    cbn [append String.length substring]. now rewrite IH. }
  rewrite Hsub.
  destruct (Reference.addr_spec inner); reflexivity.
Qed.

(** C1, the claim as written: a failed DATA phase would leave no message
    handler.  It does not hold: when the sink's close fails after the body
    [hi] was copied, the session still has its message handler. *)
Lemma data_failure_keeps_handler :
  ~ (forall (cmd : command) (s : session) (w : world),
        mHandler s <> None ->
        mHandler (final_session (handleDATA cmd s w)) = None).
Proof.
  intros Hclaim.
  set (s := in_transaction Reference.plain_server
              (Reference.policy Reference.sink_close_fails)
              Reference.sink_close_fails).
  set (w := Reference.client ["hi"; "."]).
  assert (Hkept : mHandler (final_session (handleDATA (parseLine Reference.unicode "DATA") s w))
                  = Some (Reference.message_handler Reference.sink_close_fails))
    by reflexivity.
  rewrite Hclaim in Hkept; [discriminate Hkept|].
  discriminate.
Qed.

(** C1 at a sink whose close fails after the body [hi] was copied: the
    failure comes back and the session is unchanged. *)
Lemma data_clears_handler_on_success_only_witness :
  let sink := Reference.sink_close_fails in
  let mh := Reference.message_handler sink in
  let s := in_transaction Reference.plain_server (Reference.policy sink) sink in
  let w := Reference.client ["hi"; "."] in
  (mHandler s = Some mh
   /\ GetDataWriter mh (w_calls w) = (Some sink, None)
   /\ hd None (w_writes w) = None)
  /\ exists w', handleDATA (parseLine Reference.unicode "DATA") s w
                = Val (Some (Failure "disk full")) s w'.
Proof.
  intros sink mh s w.
  split; [repeat split|].
  destruct (data_clears_handler_on_success_only (parseLine Reference.unicode "DATA")
              s w mh sink eq_refl eq_refl eq_refl) as (copied & w2 & Hcopy & E).
  assert (Hc : copied = None) by (vm_compute in Hcopy; congruence).
  subst copied. exists (logged_call CallClose true w2). exact E.
Defined.

(** C2 at a client that sends QUIT and nothing else. *)
Lemma serve_spins_after_quit_witness :
  let s := Reference.fresh Reference.plain_server (Reference.policy Reference.sink_ok) in
  let w := Reference.client ["QUIT"] in
  (keepGoing s = true /\ w_deadlines w = [] /\ w_writes w = []
   /\ w_incoming w = ["QUIT"])
  /\ serve Reference.ParseAddress Reference.unicode 1000 s w =
     Looping (set_keepGoing false s)
       (mkWorld [] [] []
          [(RawConn 0, "220 mx.example ESMTP ready"); (RawConn 0, "221 OK, bye")]
          None [] []).
Proof.
  intros s w.
  split; [repeat split|].
  exact (proj1 (serve_spins_after_quit Reference.ParseAddress Reference.unicode 999 s w []
                  eq_refl eq_refl eq_refl eq_refl)).
Defined.

(** C3 at the line [MAIL] after a greeting, and [RCPT] inside a
    transaction. *)
Lemma mail_rcpt_without_parameter_panic_witness :
  let s := in_transaction Reference.plain_server
             (Reference.policy Reference.sink_ok) Reference.sink_ok in
  let w := Reference.client [] in
  length (params (parseLine Reference.unicode "MAIL")) < 2
  /\ handleMAIL Reference.ParseAddress (parseLine Reference.unicode "MAIL") s w
     = Panic IndexOutOfRange s w.
Proof.
  intros s w.
  assert (Hshort : length (params (parseLine Reference.unicode "MAIL")) < 2) by (vm_compute; lia).
  split; [exact Hshort|].
  exact (proj1 (mail_rcpt_without_parameter_panic Reference.ParseAddress Reference.unicode
                  (parseLine Reference.unicode "MAIL") s w Hshort) eq_refl eq_refl).
Defined.

(** C4 at a fresh session on a server with TLS material. *)
Lemma starttls_replaces_session_witness :
  let s := set_gotHelo true
             (Reference.fresh Reference.tls_server (Reference.policy Reference.sink_ok)) in
  let w := Reference.client [] in
  let s' := newSession Reference.tls_server (Some (Reference.policy Reference.sink_ok))
              (TLSConn (RawConn 0)) true in
  (isTLS s = false /\ TLSConfig (server s) = Some tt
   /\ hd None (w_writes w) = None
   /\ OnNewConnection (server s) (w_calls w) true
      = (Some (Reference.policy Reference.sink_ok), None))
  /\ handleSTARTTLS (parseLine Reference.unicode "STARTTLS") s w =
     Val None s'
       (logged_call (CallOnNewConnection true) false
          (wrote (RawConn 0) "250 Go ahead" w)).
Proof.
  intros s w s'.
  split; [repeat split|].
  exact (proj1 (starttls_replaces_session (parseLine Reference.unicode "STARTTLS") s w tt
                  (Some (Reference.policy Reference.sink_ok))
                  eq_refl eq_refl eq_refl eq_refl)).
Defined.

(** C5 at an EHLO on a server with TLS material that requires AUTH. *)
Lemma ehlo_reply_multiline_witness :
  let h := Reference.policy Reference.sink_ok in
  let s := Reference.fresh Reference.tls_server h in
  let w := Reference.client [] in
  let cmd := parseLine Reference.unicode "EHLO client.example" in
  (nth_error (fields cmd) 1 = Some "client.example"
   /\ sHandler s = Some h
   /\ HandleHELO h (w_calls w) "client.example" true = None
   /\ transport_up w)
  /\ exists exts s' w',
      (e <- handleEHLO cmd ;; handleError e) s w = Val tt s' w'
      /\ gotHelo s' = true
      /\ w_sent w' = (w_sent w ++ map (pair (writer s)) (multiline_reply exts))%list
      /\ 3 <= length exts
      /\ count_occ string_dec exts "STARTTLS" = (if tls_offered s then 1 else 0)
      /\ count_occ string_dec exts "AUTH PLAIN LOGIN"
         = (if RequireAuth (server s) then 1 else 0).
Proof.
  intros h s w cmd.
  assert (Hup : transport_up w) by constructor.
  split; [repeat split; exact Hup|].
  exact (ehlo_reply_multiline cmd "client.example" s w h
           eq_refl eq_refl eq_refl Hup).
Defined.

(** C6 at the payload [base64(NUL alice NUL secret)]. *)
Lemma auth_plain_inline_interactive_witness :
  let s := set_gotHelo true
             (Reference.fresh Reference.plain_server (Reference.policy Reference.sink_ok)) in
  let w := Reference.client [] in
  let payload := "AGFsaWNlAHNlY3JldA==" in
  let inline := parseLine Reference.unicode "AUTH PLAIN AGFsaWNlAHNlY3JldA==" in
  let interactive := parseLine Reference.unicode "AUTH PLAIN" in
  (nth_error (fields inline) 2 = Some payload
   /\ length (fields interactive) < 3
   /\ hd None (w_writes w) = None)
  /\ same_outcome (authPLAIN inline s w)
       (authPLAIN interactive s (set_incoming (payload :: w_incoming w) w))
  /\ authPLAIN inline s w =
     Val AuthSuccess s (logged_call (CallAuthenticate "alice" "secret") false w).
Proof.
  intros s w payload inline interactive.
  assert (Hshort : length (fields interactive) < 3) by (vm_compute; lia).
  split; [repeat split; exact Hshort|].
  pose proof (auth_plain_inline_interactive inline interactive payload s w
                eq_refl Hshort eq_refl) as (E1 & _ & Hsame & _).
  split; [exact Hsame|].
  rewrite E1. reflexivity.
Defined.

(** C7 at [MAIL FROM:<a@b>] after a greeting. *)
Lemma mail_sequence_and_acceptance_witness :
  let h := Reference.policy Reference.sink_ok in
  let s := set_gotHelo true (Reference.fresh Reference.plain_server h) in
  let w := Reference.client [] in
  let cmd := parseLine Reference.unicode "MAIL FROM:<a@b>" in
  let mh := Some (Reference.message_handler Reference.sink_ok) in
  (gotHelo s = true
   /\ RequireTLS (server s) && negb (isTLS s) = false
   /\ nth_error (params cmd) 1 = Some "<a@b>"
   /\ parseAddress Reference.ParseAddress "<a@b>" = ("a@b", None)
   /\ sHandler s = Some h
   /\ GetMessageHandler h (w_calls w) "a@b" = (mh, None))
  /\ handleMAIL Reference.ParseAddress cmd s w =
     Val GoAhead (set_mHandler mh s)
         (logged_call (CallGetMessageHandler "a@b") false w).
Proof.
  intros h s w cmd mh.
  split; [repeat split|].
  exact (proj1 (proj2 (proj2 (mail_sequence_and_acceptance Reference.ParseAddress
                                cmd s w))
                 eq_refl eq_refl "<a@b>" "a@b" h mh eq_refl eq_refl eq_refl eq_refl)).
Defined.

(** C8 at the reference parser and [<foo@bar>]. *)
Lemma parseAddress_contract_witness :
  (forall inner,
      option_map addr_Address (Reference.ParseAddress ("<" ++ inner ++ ">"))
      = Reference.addr_spec inner)
  /\ parseAddress Reference.ParseAddress "<foo@bar>" = ("foo@bar", None)
  /\ parseAddress Reference.ParseAddress "foo@bar" = ("", ErrMalformedEmail).
Proof.
  split; [exact reference_reads_brackets|].
  pose proof (parseAddress_contract Reference.ParseAddress Reference.addr_spec
                "<foo@bar>" reference_reads_brackets)
    as (_ & _ & _ & _ & Hbare & Hbracketed).
  split; [exact (Hbracketed eq_refl)|exact Hbare].
Defined.

(** C9 at an EHLO, in the middle of a transaction, that the policy handler
    rejects. *)
Lemma greeting_clears_message_handler_witness :
  let s := in_transaction Reference.plain_server Reference.policy_rejecting
             Reference.sink_ok in
  let w := Reference.client [] in
  let cmd := parseLine Reference.unicode "EHLO x" in
  nth_error (fields cmd) 1 = Some "x"
  /\ mHandler s <> None
  /\ handleEHLO cmd s w =
     Val (Some (Reportable 550%Z "Go away")) (set_mHandler None s)
         (logged_call (CallHandleHELO "x" true) false w).
Proof.
  intros s w cmd.
  split; [reflexivity|split; [discriminate|]].
  pose proof (greeting_clears_message_handler cmd "x" s w eq_refl) as (_ & H).
  destruct (H Reference.policy_rejecting eq_refl) as (_ & _ & Hrej & _).
  exact (Hrej (Reportable 550%Z "Go away") eq_refl).
Defined.


(** ** Small checks of the helpers *)

Example parseLine_mail :
  parseLine Reference.unicode "mail FROM:<a@b>" =
  mkCommand "mail FROM:<a@b>" "MAIL" ["mail"; "FROM:<a@b>"] ["FROM"; "<a@b>"].
Proof. reflexivity. Qed.

Example fmt_d_250 : fmt_d StatusOK = "250".
Proof. reflexivity. Qed.

Example decode_alice :
  Base64.DecodeString "AGFsaWNlAHNlY3JldA==" =
  Some (String NUL ("alice" ++ String NUL "secret")).
Proof. reflexivity. Qed.

Example decode_bad : Base64.DecodeString "AGFsaWNl*" = None.
Proof. reflexivity. Qed.

(** ** Whole sessions *)

Example session_with_bare_mail_crashes :
  observe (serve Reference.ParseAddress Reference.unicode 10
             (Reference.fresh Reference.plain_server (Reference.policy Reference.sink_ok))
             (Reference.client ["HELO x"; "MAIL"]))
  = ("crashed", ["220 mx.example ESMTP ready"; "250 Go ahead"],
     [CallHandleHELO "x" false], [RawConn 0]).
Proof. reflexivity. Qed.

Example session_with_one_message :
  observe (serve Reference.ParseAddress Reference.unicode 10
             (Reference.fresh Reference.plain_server (Reference.policy Reference.sink_ok))
             (Reference.client ["HELO x"; "MAIL FROM:<a@b>"; "RCPT TO:<c@d>";
                                "DATA"; "hi"; "."; "QUIT"]))
  = ("looping",
     ["220 mx.example ESMTP ready"; "250 Go ahead"; "250 Go ahead"; "250 Go ahead";
      "354 Go ahead. End your data with <CR><LF>.<CR><LF>"; "250 Thank you";
      "221 OK, bye"],
     [CallHandleHELO "x" false; CallGetMessageHandler "a@b"; CallAddRecipient "c@d";
      CallGetDataWriter; CallWrite ("hi" ++ LF); CallClose],
     []).
Proof. reflexivity. Qed.

(* ================================================================== *)
(** * The session as a state machine *)

Lemma PrintfLine_session (text : string) (s : session) (w : world) :
  final_session (PrintfLine text s w) = s.
Proof. destruct (PrintfLine_total text s w) as (e & w' & ->). reflexivity. Qed.

Lemma handleError_session (e : err) (s : session) (w : world) :
  final_session (handleError e s w) = s
  \/ final_session (handleError e s w) = set_keepGoing false s.
Proof.
  unfold handleError, handleFatal, sh_HandleSessionError, the_sHandler, PrintfLine.
  unfold_monad.
  destruct e as [[code msg|m]|]; case_inner; cbn; auto.
Qed.

Lemma write_continuations_session (exts : list string) (s : session) (w : world) :
  final_session (write_continuations exts s w) = s.
Proof.
  destruct (write_continuations_total exts s w) as (e & w' & ->). reflexivity.
Qed.

Lemma handleEHLO_evolves (cmd : command) (s : session) (w : world) :
  evolves s (final_session (handleEHLO cmd s w)).
Proof.
  destruct (nth_error (fields cmd) 1) as [name|] eqn:Hname.
  - destruct (sHandler s) as [h|] eqn:Hh.
    + rewrite (handleEHLO_eq cmd name s w h Hname Hh).
      destruct (HandleHELO h (w_calls w) name true); [constructor|].
      match goal with
      | |- context [write_continuations ?l ?s0 ?w0] =>
          destruct (write_continuations_total l s0 w0) as (e & w1 & ->)
      end.
      destruct e; constructor.
    + destruct (greeting_nil_handler cmd name s w Hname Hh) as [-> _]. constructor.
  - unfold handleEHLO.
    replace (length (fields cmd) <? 2)%nat with true
      by (symmetry; apply Nat.ltb_lt; apply nth_error_None in Hname; lia).
    constructor.
Qed.

Lemma handleHELO_evolves (cmd : command) (s : session) (w : world) :
  evolves s (final_session (handleHELO cmd s w)).
Proof.
  destruct (nth_error (fields cmd) 1) as [name|] eqn:Hname.
  - destruct (sHandler s) as [h|] eqn:Hh.
    + rewrite (handleHELO_eq cmd name s w h Hname Hh).
      destruct (HandleHELO h (w_calls w) name false); constructor.
    + destruct (greeting_nil_handler cmd name s w Hname Hh) as [_ ->]. constructor.
  - unfold handleHELO.
    replace (length (fields cmd) <? 2)%nat with true
      by (symmetry; apply Nat.ltb_lt; apply nth_error_None in Hname; lia).
    constructor.
Qed.

Lemma handleMAIL_evolves (lib : string -> option Address) (cmd : command)
      (s : session) (w : world) :
  evolves s (final_session (handleMAIL lib cmd s w)).
Proof.
  rewrite handleMAIL_eq.
  destruct (gotHelo s) eqn:Hg; cbn [negb]; [|constructor].
  case_inner; try constructor; exact Hg.
Qed.

Lemma handleRCPT_session (lib : string -> option Address) (cmd : command)
      (s : session) (w : world) :
  final_session (handleRCPT lib cmd s w) = s.
Proof. rewrite handleRCPT_eq. case_inner; reflexivity. Qed.

Lemma grows_refl (w : world) : grows w w.
Proof. exists []. now rewrite app_nil_r. Qed.

Lemma grows_same (w w' : world) : w_calls w' = w_calls w -> grows w w'.
Proof. intros H. exists []. now rewrite app_nil_r. Qed.

Lemma grows_trans (w1 w2 w3 : world) : grows w1 w2 -> grows w2 w3 -> grows w1 w3.
Proof.
  intros (m1 & H1) (m2 & H2). exists (m1 ++ m2)%list.
  now rewrite H2, H1, app_assoc.
Qed.

Lemma grows_logged (c : call) (a : bool) (w : world) : grows w (logged_call c a w).
Proof. now exists [mkLogged c a]. Qed.

Lemma quiet_PrintfLine (text : string) (s : session) (w : world) :
  quiet s w (PrintfLine text s w).
Proof.
  unfold PrintfLine.
  destruct (w_writes w) as [|[m|] rest]; repeat split; now apply grows_same.
Qed.

Lemma quiet_copy_chunks (wc : option WriteCloser) (pieces : list string) :
  forall s w, quiet s w (copy_chunks wc pieces s w).
Proof.
  induction pieces as [|piece rest IH]; intros s w; cbn [copy_chunks].
  - repeat split. apply grows_refl.
  - destruct wc as [sink|]; [|repeat split; apply grows_refl].
    unfold bind.
    destruct (copy_chunk_total sink piece s w) as (e & ->).
    destruct e as [e|].
    + repeat split. apply grows_logged.
    + destruct (IH s (logged_call (CallWrite piece) (active s) w)) as (Hs & Hc & Hg).
      repeat split; [exact Hs|exact Hc|].
      eapply grows_trans; [apply grows_logged|exact Hg].
Qed.

Lemma quiet_io_Copy (wc : option WriteCloser) (s : session) (w : world) :
  quiet s w (io_Copy wc s w).
Proof.
  unfold io_Copy. unfold bind.
  destruct (quiet_copy_chunks wc (chunks (dot_body (dotRead (w_incoming w)))) s
              (set_incoming (dot_rest (dotRead (w_incoming w))) w)) as (Hs & Hc & Hg).
  destruct (copy_chunks wc _ s _) as [e s1 w1|p s1 w1]; cbn [final_session final_world] in *.
  - subst s1. destruct e; [repeat split; assumption|].
    destruct (dot_terminated (dotRead (w_incoming w))); repeat split; assumption.
  - repeat split; assumption.
Qed.

Lemma quiet_sink_Close (wc : option WriteCloser) (s : session) (w : world) :
  quiet s w (sink_Close wc s w).
Proof.
  unfold sink_Close. destruct wc; unfold_monad; repeat split;
    try apply grows_refl. apply grows_logged.
Qed.

Lemma handleDATA_frame (cmd : command) (s : session) (w : world) :
  data_frame s w (handleDATA cmd s w).
Proof.
  assert (Hleaf : forall (e : err) w', w_closed w' = w_closed w -> grows w w' ->
                                data_frame s w (Val e s w')).
  { intros e w' Hc Hg. repeat split; [now left|exact Hc|exact Hg]. }
  assert (Hpanic : forall p w', w_closed w' = w_closed w -> grows w w' ->
                                data_frame s w (Panic p s w')).
  { intros p w' Hc Hg. repeat split; [now left|exact Hc|exact Hg]. }
  unfold handleDATA. unfold bind at 1. unfold get at 1.
  destruct (mHandler s) as [mh|] eqn:Hm;
    [|apply Hleaf; [reflexivity|apply grows_refl]].
  unfold val_or_return at 1. unfold bind at 1.
  unfold mh_GetDataWriter. unfold_monad.
  fold (logged_call CallGetDataWriter (active s) w).
  set (w0 := logged_call CallGetDataWriter (active s) w).
  assert (G0 : grows w w0) by apply grows_logged.
  assert (C0 : w_closed w0 = w_closed w) by reflexivity.
  destruct (GetDataWriter mh (w_calls w)) as [wc [e|]]; cbn [fst snd];
    [apply Hleaf; [reflexivity|exact G0]|].
  destruct (quiet_PrintfLine
              (fmt_d StatusStartMailInput
               ++ " Go ahead. End your data with <CR><LF>.<CR><LF>") s w0)
    as (Hs1 & Hc1 & Hg1).
  destruct (PrintfLine _ s w0) as [e1 s1 w1|p s1 w1];
    cbn [final_session final_world] in *; subst s1.
  2:{ apply Hpanic; [congruence|eapply grows_trans; eassumption]. }
  assert (G1 : grows w w1) by (eapply grows_trans; eassumption).
  assert (C1 : w_closed w1 = w_closed w) by congruence.
  destruct e1; [apply Hleaf; assumption|].
  destruct (quiet_io_Copy wc s w1) as (Hs2 & Hc2 & Hg2).
  destruct (io_Copy wc s w1) as [e2 s2 w2|p s2 w2];
    cbn [final_session final_world] in *; subst s2.
  2:{ apply Hpanic; [congruence|eapply grows_trans; eassumption]. }
  assert (G2 : grows w w2) by (eapply grows_trans; eassumption).
  assert (C2 : w_closed w2 = w_closed w) by congruence.
  destruct e2; [apply Hleaf; assumption|].
  destruct (quiet_sink_Close wc s w2) as (Hs3 & Hc3 & Hg3).
  destruct (sink_Close wc s w2) as [e3 s3 w3|p s3 w3];
    cbn [final_session final_world] in *; subst s3.
  2:{ apply Hpanic; [congruence|eapply grows_trans; eassumption]. }
  assert (G3 : grows w w3) by (eapply grows_trans; eassumption).
  destruct e3; [apply Hleaf; [congruence|exact G3]|].
  repeat split; [now right|cbn [final_world]; congruence|exact G3].
Qed.

Lemma handleDATA_evolves (cmd : command) (s : session) (w : world) :
  evolves s (final_session (handleDATA cmd s w)).
Proof.
  destruct (handleDATA_frame cmd s w) as ([-> | ->] & _); constructor.
Qed.

Lemma handleSTARTTLS_evolves (cmd : command) (s : session) (w : world) :
  evolves s (final_session (handleSTARTTLS cmd s w)).
Proof.
  unfold handleSTARTTLS, srv_OnNewConnection, PrintfLine.
  unfold_monad.
  destruct (isTLS s) eqn:Htls; [constructor|].
  case_inner; try constructor; exact Htls.
Qed.

Lemma authLOGIN_session (cmd : command) (s : session) (w : world) :
  final_session (authLOGIN cmd s w) = s.
Proof.
  unfold authLOGIN, decode_credentials, sh_Authenticate, the_sHandler,
    ReadLine, PrintfLine.
  unfold_monad. case_inner; reflexivity.
Qed.

Lemma authPLAIN_session (cmd : command) (s : session) (w : world) :
  final_session (authPLAIN cmd s w) = s.
Proof.
  unfold authPLAIN, decode_credentials, sh_Authenticate, the_sHandler,
    ReadLine, PrintfLine, index.
  unfold_monad. case_inner; reflexivity.
Qed.

Lemma handleAUTH_session (uni : Unicode) (cmd : command) (s : session) (w : world) :
  final_session (handleAUTH uni cmd s w) = s.
Proof.
  unfold handleAUTH, authMap, index. unfold_monad.
  destruct (negb (gotHelo s)); [reflexivity|].
  destruct (length (fields cmd) <? 2)%nat; [reflexivity|].
  destruct (nth_error (fields cmd) 1) as [f1|]; [|reflexivity].
  destruct (String.eqb (ToUpper uni f1) "LOGIN"); [apply authLOGIN_session|].
  destruct (String.eqb (ToUpper uni f1) "PLAIN"); [apply authPLAIN_session|].
  reflexivity.
Qed.

Lemma operationHandlers_evolves (lib : string -> option Address)
      (uni : Unicode) (verb : string)
      (h : operationHandler) (cmd : command) (s : session) (w : world) :
  operationHandlers lib uni verb = Some h ->
  evolves s (final_session (h cmd s w)).
Proof.
  unfold operationHandlers.
  repeat match goal with
         | |- context [String.eqb verb ?v] => destruct (String.eqb verb v)
         end;
    intros H; try discriminate H; injection H as <-.
  - rewrite handleAUTH_session. constructor.
  - apply handleDATA_evolves.
  - apply handleEHLO_evolves.
  - apply handleHELO_evolves.
  - apply handleMAIL_evolves.
  - constructor.
  - constructor.
  - rewrite handleRCPT_session. constructor.
  - constructor.
  - apply handleSTARTTLS_evolves.
Qed.

Lemma handleError_step (e : err) (s : session) (w : world) :
  command_step s (final_session (handleError e s w)).
Proof.
  exists s. split; [constructor|apply handleError_session].
Qed.

Lemma dispatch_step (lib : string -> option Address)
      (uni : Unicode) (l : string)
      (s : session) (w : world) :
  command_step s
    (final_session
       (match operationHandlers lib uni (action (parseLine uni l)) with
        | None => handleError (NewReportableStatus StatusCommandNotImplemented
                                 "Unsupported command")
        | Some action => e <- action (parseLine uni l) ;; handleError e
        end s w)).
Proof.
  destruct (operationHandlers lib uni (action (parseLine uni l))) as [h|] eqn:Hop;
    [|apply handleError_step].
  pose proof (operationHandlers_evolves lib uni _ h (parseLine uni l) s w Hop) as Hev.
  unfold bind.
  destruct (h (parseLine uni l) s w) as [e s1 w1|p s1 w1]; cbn [final_session] in *.
  - exists s1. split; [exact Hev|apply handleError_session].
  - exists s1. split; [exact Hev|now left].
Qed.

Lemma serveOne_step (lib : string -> option Address)
      (uni : Unicode) (s : session) (w : world) :
  command_step s (final_session (serveOne lib uni s w)).
Proof.
  unfold serveOne. unfold bind at 1. unfold SetReadDeadline.
  destruct (w_deadlines w) as [|[m|] rest]; cbn [transport_error];
    try apply handleError_step;
    unfold bind at 1; unfold ReadLine; cbn [w_incoming];
    destruct (w_incoming w) as [|l more]; cbn [fst snd];
    try apply handleError_step; apply dispatch_step.
Qed.

Lemma sh_HandleSessionError_session (e : error) (s : session) (w : world) :
  final_session (sh_HandleSessionError e s w) = s.
Proof.
  unfold sh_HandleSessionError, the_sHandler. unfold_monad.
  destruct (sHandler s); reflexivity.
Qed.

Lemma closeOrReport_session (c : Conn) (s : session) (w : world) :
  final_session (closeOrReport c s w) = s.
Proof.
  unfold closeOrReport, CloseConn. unfold bind.
  destruct (transport_error (w_close w)); [|reflexivity].
  apply sh_HandleSessionError_session.
Qed.

Lemma run_deferred_session (c : Conn) (r : run) :
  run_session (run_deferred c r) = run_session r.
Proof.
  destruct r as [s w|p s w|s w]; cbn [run_deferred]; [| |reflexivity].
  - pose proof (closeOrReport_session c s w) as H.
    destruct (closeOrReport c s w); exact H.
  - pose proof (closeOrReport_session c s w) as H.
    destruct (closeOrReport c s w); exact H.
Qed.

(** Whatever every command keeps, a whole run of [serve] keeps. *)
Lemma serve_keeps (lib : string -> option Address)
      (uni : Unicode) (P : session -> Prop) :
  (forall s s', command_step s s' -> P s -> P s') ->
  forall fuel s w, P s -> P (run_session (serve lib uni fuel s w)).
Proof.
  intros Hstep.
  assert (Hloop : forall fuel s w, P s -> P (run_session (commandLoop lib uni fuel s w))).
  { induction fuel as [|fuel IH]; intros s w Hs; cbn [commandLoop]; [exact Hs|].
    destruct (keepGoing s); [|now apply IH].
    pose proof (serveOne_step lib uni s w) as Hone.
    destruct (serveOne lib uni s w) as [u s1 w1|p s1 w1]; cbn [final_session] in Hone.
    - apply IH. exact (Hstep s s1 Hone Hs).
    - exact (Hstep s s1 Hone Hs). }
  intros fuel s w Hs. unfold serve. rewrite run_deferred_session.
  pose proof (PrintfLine_session
                (fmt_d StatusServiceReady ++ " " ++ Hostname (server s) ++ " ESMTP ready")
                s w) as Hpr.
  destruct (PrintfLine _ s w) as [[e|] s1 w1|p s1 w1]; cbn [final_session] in Hpr;
    subst s1.
  - pose proof (sh_HandleSessionError_session e s w1) as Hh.
    destruct (sh_HandleSessionError e s w1); cbn [final_session] in Hh; subst;
      exact Hs.
  - now apply Hloop.
  - exact Hs.
Qed.

Lemma greeted_if_active_step (s s' : session) :
  command_step s s' -> greeted_if_active s -> greeted_if_active s'.
Proof.
  unfold greeted_if_active.
  intros (s1 & Hev & Hs') H.
  assert (H1 : mHandler s1 = None \/ gotHelo s1 = true).
  { destruct Hev; cbn; auto. }
  destruct Hs' as [->| ->]; exact H1.
Qed.

Lemma on_connection_step (id : nat) (s s' : session) :
  command_step s s' -> on_connection id s -> on_connection id s'.
Proof.
  unfold on_connection.
  intros (s1 & Hev & Hs') H.
  assert (H1 : reader s1 = conn s1 /\ writer s1 = conn s1
               /\ ((isTLS s1 = false /\ conn s1 = RawConn id)
                   \/ (isTLS s1 = true /\ conn s1 = TLSConn (RawConn id)))).
  { destruct Hev; cbn; try exact H.
    destruct H as (_ & _ & [[_ Hc]|[Ht _]]); [|congruence].
    rewrite Hc. auto. }
  destruct Hs' as [->| ->]; exact H1.
Qed.

Lemma server_step (s s' : session) :
  command_step s s' -> server s' = server s.
Proof.
  intros (s1 & Hev & Hs').
  assert (H1 : server s1 = server s) by (destruct Hev; reflexivity).
  destruct Hs' as [->| ->]; exact H1.
Qed.

Lemma kept_quiet (s : session) (w : world) (s' : session) (w' : world) :
  sHandler s' = sHandler s -> gotHelo s' = gotHelo s -> grows w w' ->
  greeting_kept s w s' w'.
Proof. intros Hh Hg Hw. split; [exact Hw|]. right. left. now split. Qed.

Lemma kept_trans (s : session) (w : world) (s1 : session) (w1 : world)
      (s2 : session) (w2 : world) :
  greeting_kept s w s1 w1 -> greeting_kept s1 w1 s2 w2 -> greeting_kept s w s2 w2.
Proof.
  intros [G1 K1] [G2 K2]. split; [eapply grows_trans; eassumption|].
  destruct K2 as [Hf|[[Hh Hg]|(h & name & ext & before & after & Hh & Hc & Hacc)]].
  - now left.
  - destruct K1 as [Hf|[[Hh1 Hg1]|(h & name & ext & before & after & Hh1 & Hc & Hacc)]].
    + left. congruence.
    + right. left. split; congruence.
    + right. right. destruct G2 as (more & Hmore).
      exists h, name, ext, before, (after ++ more)%list.
      split; [congruence|]. split; [|exact Hacc].
      rewrite Hmore, Hc.
      now rewrite <- (app_assoc (w_calls w ++ before)%list _ more).
  - right. right. destruct G1 as (more & Hmore).
    exists h, name, ext, (more ++ before)%list, after.
    split; [exact Hh|]. rewrite Hmore in Hc, Hacc.
    rewrite <- (app_assoc (w_calls w) more before) in Hc, Hacc. now split.
Qed.

Lemma handleError_kept (e : err) (s : session) (w : world) :
  greeting_kept s w (final_session (handleError e s w))
                    (final_world (handleError e s w)).
Proof.
  unfold handleError, handleFatal, sh_HandleSessionError, the_sHandler, PrintfLine.
  unfold_monad.
  destruct e as [[code msg|m]|]; case_inner;
    (apply kept_quiet; [reflexivity|reflexivity|log_grows]).
Qed.

Lemma handleHELO_kept (cmd : command) (s : session) (w : world) :
  greeting_kept s w (final_session (handleHELO cmd s w))
                    (final_world (handleHELO cmd s w)).
Proof.
  destruct (nth_error (fields cmd) 1) as [name|] eqn:Hname.
  - destruct (sHandler s) as [h|] eqn:Hh.
    + rewrite (handleHELO_eq cmd name s w h Hname Hh).
      destruct (HandleHELO h (w_calls w) name false) eqn:Hacc;
        cbn [final_session final_world].
      * apply kept_quiet; [reflexivity|reflexivity|apply grows_logged].
      * split; [apply grows_logged|]. right. right.
        exists h, name, false, [], [].
        rewrite app_nil_r. repeat split; assumption.
    + destruct (greeting_nil_handler cmd name s w Hname Hh) as [_ ->].
      apply kept_quiet; [reflexivity|reflexivity|apply grows_refl].
  - unfold handleHELO.
    replace (length (fields cmd) <? 2)%nat with true
      by (symmetry; apply Nat.ltb_lt; apply nth_error_None in Hname; lia).
    apply kept_quiet; [reflexivity|reflexivity|apply grows_refl].
Qed.

Lemma handleEHLO_kept (cmd : command) (s : session) (w : world) :
  greeting_kept s w (final_session (handleEHLO cmd s w))
                    (final_world (handleEHLO cmd s w)).
Proof.
  destruct (nth_error (fields cmd) 1) as [name|] eqn:Hname.
  - destruct (sHandler s) as [h|] eqn:Hh.
    + rewrite (handleEHLO_eq cmd name s w h Hname Hh).
      destruct (HandleHELO h (w_calls w) name true) eqn:Hacc;
        cbn [final_session final_world].
      * apply kept_quiet; [reflexivity|reflexivity|apply grows_logged].
      * match goal with
        | |- context [write_continuations ?l ?s0 ?w0] =>
            destruct (write_continuations_total l s0 w0) as (e & w1 & E);
            destruct (write_continuations_calls l s0 w0 e _ w1 E) as [_ Hc]
        end.
        rewrite E. cbn [w_calls logged_call] in Hc.
        assert (Hg : grows w w1).
        { exists [mkLogged (CallHandleHELO name true) false;
                  mkLogged CallMaxMessageSize false].
          rewrite Hc, <- app_assoc. reflexivity. }
        destruct e; cbn [final_session final_world].
        -- apply kept_quiet; [reflexivity|reflexivity|exact Hg].
        -- split; [exact Hg|]. right. right.
           exists h, name, true, [], [mkLogged CallMaxMessageSize false].
           rewrite app_nil_r. repeat split; [exact Hh| |exact Hacc].
           rewrite Hc, <- app_assoc. reflexivity.
    + destruct (greeting_nil_handler cmd name s w Hname Hh) as [-> _].
      apply kept_quiet; [reflexivity|reflexivity|apply grows_refl].
  - unfold handleEHLO.
    replace (length (fields cmd) <? 2)%nat with true
      by (symmetry; apply Nat.ltb_lt; apply nth_error_None in Hname; lia).
    apply kept_quiet; [reflexivity|reflexivity|apply grows_refl].
Qed.

Lemma operationHandlers_kept (lib : string -> option Address)
      (uni : Unicode) (verb : string)
      (h : operationHandler) (cmd : command) (s : session) (w : world) :
  operationHandlers lib uni verb = Some h ->
  greeting_kept s w (final_session (h cmd s w)) (final_world (h cmd s w)).
Proof.
  unfold operationHandlers.
  repeat match goal with
         | |- context [String.eqb verb ?v] => destruct (String.eqb verb v)
         end;
    intros H; try discriminate H; injection H as <-.
  - unfold handleAUTH, authMap, authLOGIN, authPLAIN, decode_credentials,
      sh_Authenticate, the_sHandler, ReadLine, PrintfLine, index.
    unfold_monad. case_inner;
      (apply kept_quiet; [reflexivity|reflexivity|log_grows]).
  - destruct (handleDATA_frame cmd s w) as ([-> | ->] & _ & Hg);
      (apply kept_quiet; [reflexivity|reflexivity|exact Hg]).
  - apply handleEHLO_kept.
  - apply handleHELO_kept.
  - rewrite handleMAIL_eq. case_inner;
      (apply kept_quiet; [reflexivity|reflexivity|log_grows]).
  - apply kept_quiet; [reflexivity|reflexivity|log_grows].
  - apply kept_quiet; [reflexivity|reflexivity|log_grows].
  - rewrite handleRCPT_eq. case_inner;
      (apply kept_quiet; [reflexivity|reflexivity|log_grows]).
  - apply kept_quiet; [reflexivity|reflexivity|log_grows].
  - unfold handleSTARTTLS, srv_OnNewConnection, PrintfLine.
    unfold_monad. case_inner;
      first [ apply kept_quiet; [reflexivity|reflexivity|log_grows]
            | split; [log_grows|left; reflexivity] ].
Qed.

Lemma serveOne_kept (lib : string -> option Address)
      (uni : Unicode) (s : session) (w : world) :
  greeting_kept s w (final_session (serveOne lib uni s w))
                    (final_world (serveOne lib uni s w)).
Proof.
  change (kept_by s w (serveOne lib uni s w)).
  assert (Hstart : forall w0, w_calls w0 = w_calls w -> forall e,
             kept_by s w (handleError e s w0)).
  { intros w0 Hc e.
    apply (kept_trans s w s w0);
      [apply kept_quiet; [reflexivity|reflexivity|now apply grows_same]
      |apply handleError_kept]. }
  assert (Hdispatch : forall l w0, w_calls w0 = w_calls w ->
             kept_by s w
               (match operationHandlers lib uni (action (parseLine uni l)) with
                | None => handleError (NewReportableStatus StatusCommandNotImplemented
                                         "Unsupported command")
                | Some action => e <- action (parseLine uni l) ;; handleError e
                end s w0)).
  { intros l w0 Hc.
    destruct (operationHandlers lib uni (action (parseLine uni l))) as [h|] eqn:Hop;
      [|now apply Hstart].
    pose proof (operationHandlers_kept lib uni _ h (parseLine uni l) s w0 Hop) as Hk.
    apply (kept_trans s w s w0);
      [apply kept_quiet; [reflexivity|reflexivity|now apply grows_same]|].
    unfold bind.
    destruct (h (parseLine uni l) s w0) as [e s1 w1|p s1 w1];
      cbn [final_session final_world] in *; [|exact Hk].
    eapply kept_trans; [exact Hk|apply handleError_kept]. }
  unfold serveOne. unfold bind at 1. unfold SetReadDeadline.
  destruct (w_deadlines w) as [|[m|] rest]; cbn [transport_error];
    try (apply Hstart; reflexivity);
    unfold bind at 1; unfold ReadLine; cbn [w_incoming];
    destruct (w_incoming w) as [|l more]; cbn [fst snd];
    try (apply Hstart; reflexivity); apply Hdispatch; reflexivity.
Qed.

Lemma commandLoop_kept (lib : string -> option Address) (uni : Unicode) :
  forall fuel s w,
    greeting_kept s w (run_session (commandLoop lib uni fuel s w))
                      (run_world (commandLoop lib uni fuel s w)).
Proof.
  induction fuel as [|fuel IH]; intros s w; cbn [commandLoop].
  - apply kept_quiet; [reflexivity|reflexivity|apply grows_refl].
  - destruct (keepGoing s); [|apply IH].
    pose proof (serveOne_kept lib uni s w) as Hone.
    destruct (serveOne lib uni s w) as [u s1 w1|p s1 w1];
      cbn [final_session final_world] in Hone.
    + eapply kept_trans; [exact Hone|apply IH].
    + exact Hone.
Qed.

Lemma closeOrReport_kept (c : Conn) (s : session) (w : world) :
  greeting_kept s w (final_session (closeOrReport c s w))
                    (final_world (closeOrReport c s w)).
Proof.
  unfold closeOrReport, CloseConn, sh_HandleSessionError, the_sHandler.
  unfold_monad. case_inner;
    (apply kept_quiet; [reflexivity|reflexivity|log_grows]).
Qed.

Lemma run_deferred_kept (c : Conn) (r : run) :
  greeting_kept (run_session r) (run_world r)
                (run_session (run_deferred c r)) (run_world (run_deferred c r)).
Proof.
  destruct r as [s w|p s w|s w]; cbn [run_deferred run_session run_world].
  - pose proof (closeOrReport_kept c s w) as H.
    destruct (closeOrReport c s w); exact H.
  - pose proof (closeOrReport_kept c s w) as H.
    destruct (closeOrReport c s w); exact H.
  - apply kept_quiet; [reflexivity|reflexivity|apply grows_refl].
Qed.

Lemma serve_kept (lib : string -> option Address) (uni : Unicode)
      (fuel : nat) (s : session) (w : world) :
  greeting_kept s w (run_session (serve lib uni fuel s w))
                    (run_world (serve lib uni fuel s w)).
Proof.
  unfold serve.
  eapply kept_trans; [|apply run_deferred_kept].
  destruct (quiet_PrintfLine
              (fmt_d StatusServiceReady ++ " " ++ Hostname (server s) ++ " ESMTP ready")
              s w) as (Hs & _ & Hg).
  destruct (PrintfLine _ s w) as [[e|] s1 w1|p s1 w1];
    cbn [final_session final_world] in Hs, Hg; subst s1.
  - assert (Hk : greeting_kept s w1 (final_session (sh_HandleSessionError e s w1))
                                    (final_world (sh_HandleSessionError e s w1))).
    { unfold sh_HandleSessionError, the_sHandler. unfold_monad. case_inner;
        (apply kept_quiet; [reflexivity|reflexivity|log_grows]). }
    apply (kept_trans s w s w1);
      [apply kept_quiet; [reflexivity|reflexivity|exact Hg]|].
    destruct (sh_HandleSessionError e s w1); exact Hk.
  - apply (kept_trans s w s w1);
      [apply kept_quiet; [reflexivity|reflexivity|exact Hg]|].
    apply commandLoop_kept.
  - cbn [run_session run_world].
    apply kept_quiet; [reflexivity|reflexivity|exact Hg].
Qed.

Lemma transaction_only_after_greeting_aux (lib : string -> option Address)
      (uni : Unicode)
      (fuel : nat) (srv : Server) (h : option SessionHandler) (c : Conn)
      (tls : bool) (w : world) :
  greeted_if_active (run_session (serve lib uni fuel (newSession srv h c tls) w)).
Proof.
  apply (serve_keeps lib uni greeted_if_active greeted_if_active_step).
  now left.
Qed.

(** X1.  However long a session made by [newSession] is served and whatever
    the client sends, a message handler is only ever active in a session
    that has been greeted, and a session is only ever greeted because its
    own policy handler accepted a greeting: among the calls logged during
    the run there is a [HandleHELO] call which that handler, asked with the
    calls logged before it, answered by a nil result.  So RCPT and DATA,
    which test the message handler alone, are never let through before the
    policy handler accepted a HELO or EHLO. *)
Theorem transaction_only_after_greeting (lib : string -> option Address)
      (uni : Unicode)
        (fuel : nat) (srv : Server) (h : option SessionHandler) (c : Conn)
        (tls : bool) (w : world) :
  let r := serve lib uni fuel (newSession srv h c tls) w in
  let s := run_session r in
  (mHandler s = None \/ gotHelo s = true)
  /\ (gotHelo s = true ->
      exists accepting name extended before after,
        sHandler s = Some accepting
        /\ w_calls (run_world r)
           = ((w_calls w ++ before)
              ++ mkLogged (CallHandleHELO name extended) false :: after)%list
        /\ HandleHELO accepting (w_calls w ++ before)%list name extended = None).
Proof.
  cbv zeta. split.
  - apply (serve_keeps lib uni greeted_if_active greeted_if_active_step).
    unfold greeted_if_active. cbn [newSession mHandler]. now left.
  - intros Hg.
    destruct (serve_kept lib uni fuel (newSession srv h c tls) w)
      as [_ [Hf|[[_ Hsame]|Hacc]]].
    + congruence.
    + rewrite Hg in Hsame. discriminate Hsame.
    + exact Hacc.
Qed.

Lemma transaction_only_after_greeting_witness :
  let h := Reference.policy Reference.sink_ok in
  let w := Reference.client ["NOOP"; "HELO x"; "MAIL FROM:<a@b>"] in
  let r := serve Reference.ParseAddress Reference.unicode 3
             (newSession Reference.plain_server (Some h) (RawConn 0) false) w in
  gotHelo (run_session r) = true
  /\ mHandler (run_session r) <> None
  /\ exists accepting name extended before after,
      sHandler (run_session r) = Some accepting
      /\ w_calls (run_world r)
         = ((w_calls w ++ before)
            ++ mkLogged (CallHandleHELO name extended) false :: after)%list
      /\ HandleHELO accepting (w_calls w ++ before)%list name extended = None.
Proof.
  intros h w r.
  split; [reflexivity|]. split; [discriminate|].
  exact (proj2 (transaction_only_after_greeting Reference.ParseAddress
                  Reference.unicode 3 Reference.plain_server (Some h) (RawConn 0)
                  false w) eq_refl).
Defined.

(** X2.  A session started in the clear on an accepted connection always
    reads and writes on its current connection, which is that connection
    while the session is not encrypted and one TLS layer around it once it
    is: encryption is never dropped and never stacked.  The server
    configuration of the session never changes. *)
Theorem session_stays_on_its_connection (lib : string -> option Address)
      (uni : Unicode)
        (fuel : nat) (srv : Server) (h : option SessionHandler) (id : nat)
        (w : world) :
  let s := run_session (serve lib uni fuel (newSession srv h (RawConn id) false) w) in
  reader s = conn s /\ writer s = conn s
  /\ ((isTLS s = false /\ conn s = RawConn id)
      \/ (isTLS s = true /\ conn s = TLSConn (RawConn id)))
  /\ server s = srv.
Proof.
  cbv zeta.
  pose proof (serve_keeps lib uni (fun s => on_connection id s /\ server s = srv)) as H.
  cbv beta in H.
  assert (Hkeep : on_connection id
                    (run_session (serve lib uni fuel (newSession srv h (RawConn id) false) w))
                  /\ server (run_session (serve lib uni fuel
                                            (newSession srv h (RawConn id) false) w)) = srv).
  { apply H.
    - intros s s' Hstep [Hc Hs]. split.
      + exact (on_connection_step id s s' Hstep Hc).
      + rewrite (server_step s s' Hstep). exact Hs.
    - repeat split. now left. }
  destruct Hkeep as [(Hr & Hw & Hc) Hs]. auto.
Qed.

(** X3.  In every session a run of [serve] can reach from [newSession],
    as long as no greeting has succeeded the verbs that need one are all
    refused with 503 and nothing else happens: MAIL and AUTH by the
    no-greeting status, RCPT and DATA by the bad-sequence status. *)
Theorem ungreeted_session_refuses (lib : string -> option Address)
      (uni : Unicode)
        (fuel : nat) (srv : Server) (h : option SessionHandler) (c : Conn)
        (tls : bool) (w : world) :
  let s := run_session (serve lib uni fuel (newSession srv h c tls) w) in
  gotHelo s = false ->
  forall cmd w',
    handleMAIL lib cmd s w' = Val ErrNoHelo s w'
    /\ handleAUTH uni cmd s w' = Val ErrNoHelo s w'
    /\ handleRCPT lib cmd s w' = Val ErrBadSequence s w'
    /\ handleDATA cmd s w' = Val ErrBadSequence s w'
    /\ code_of ErrNoHelo = Some 503%Z /\ code_of ErrBadSequence = Some 503%Z.
Proof.
  intros s Hg cmd w'.
  assert (Hm : mHandler s = None).
  { destruct (transaction_only_after_greeting_aux lib uni fuel srv h c tls w) as [H|H];
      [exact H|fold s in H; congruence]. }
  repeat split.
  - rewrite handleMAIL_eq, Hg. reflexivity.
  - unfold handleAUTH. unfold_monad. rewrite Hg. reflexivity.
  - rewrite handleRCPT_eq, Hm. reflexivity.
  - unfold handleDATA. unfold_monad. rewrite Hm. reflexivity.
Qed.

Lemma ungreeted_session_refuses_witness :
  let s := run_session
             (serve Reference.ParseAddress Reference.unicode 3
                (newSession Reference.plain_server
                   (Some (Reference.policy Reference.sink_ok)) (RawConn 0) false)
                (Reference.client ["NOOP"; "RSET"])) in
  gotHelo s = false
  /\ handleRCPT Reference.ParseAddress (parseLine Reference.unicode "RCPT TO:<a@b>") s (Reference.client [])
     = Val ErrBadSequence s (Reference.client []).
Proof.
  intros s. split; [reflexivity|].
  exact (proj1 (proj2 (proj2
           (ungreeted_session_refuses Reference.ParseAddress Reference.unicode 3 Reference.plain_server
              (Some (Reference.policy Reference.sink_ok)) (RawConn 0) false
              (Reference.client ["NOOP"; "RSET"]) eq_refl
              (parseLine Reference.unicode "RCPT TO:<a@b>") (Reference.client []))))).
Defined.

(** ** Lines and verbs *)

Lemma asciiSpace_seven (c : ascii) :
  asciiSpace c = true -> (nat_of_ascii c <? 128)%nat = true.
Proof. destruct c as [[] [] [] [] [] [] [] []]; cbv; congruence. Qed.

Lemma blank_seven_bit (l : string) : blank l -> seven_bit l = true.
Proof.
  unfold blank, seven_bit.
  induction (list_ascii_of_string l) as [|c cs IH]; intros H; [reflexivity|].
  inversion H as [|? ? Hc Hl]; subst.
  cbn [forallb]. now rewrite (asciiSpace_seven c Hc), IH.
Qed.

Lemma seven_bit_app (a b : string) :
  seven_bit (a ++ b) = seven_bit a && seven_bit b.
Proof.
  unfold seven_bit.
  induction a as [|c a IH]; cbn [append list_ascii_of_string forallb]; [reflexivity|].
  now rewrite IH, andb_assoc.
Qed.

Lemma fields_from_blank (l : string) : blank l -> fields_from "" l = [].
Proof.
  unfold blank.
  induction l as [|c l IH]; cbn [list_ascii_of_string fields_from]; [reflexivity|].
  intros H. inversion H as [|? ? Hc Hl]; subst.
  rewrite Hc. now apply IH.
Qed.

Lemma Fields_blank (uni : Unicode) (l : string) : blank l -> Fields uni l = [].
Proof.
  intros H. unfold Fields. rewrite (blank_seven_bit l H).
  now apply fields_from_blank.
Qed.

Lemma serveOne_unsupported (lib : string -> option Address)
      (uni : Unicode) (l : string)
      (rest : list string) (s : session) (w : world) :
  operationHandlers lib uni (action (parseLine uni l)) = None ->
  w_deadlines w = [] ->
  hd None (w_writes w) = None ->
  w_incoming w = l :: rest ->
  serveOne lib uni s w =
  Val tt s (wrote (writer s) "502 Unsupported command" (set_incoming rest w)).
Proof.
  intros Hop Hd Hw Hin.
  unfold serveOne. unfold bind at 1. unfold SetReadDeadline. rewrite Hd.
  unfold bind at 1. unfold ReadLine. rewrite Hin. cbn [fst snd].
  rewrite Hop. unfold NewReportableStatus, handleError.
  unfold bind at 1.
  rewrite PrintfLine_next by exact Hw.
  reflexivity.
Qed.

(** X4.  A line made only of the bytes TAB, LF, VT, FF, CR and SPACE (the
    empty line too) has no verb, and a line whose verb, its first field
    upper-cased as the library does it, is not one of the ten has no
    handler: on a transport that works, [serveOne] answers either with 502
    unsupported-command, calls no handler and leaves the session as it
    was.  This holds whatever the library does with lines that are not of
    7-bit bytes. *)
Theorem blank_or_unknown_line_unsupported (lib : string -> option Address)
        (uni : Unicode) (l : string) (rest : list string) (s : session) (w : world) :
  blank l \/ operationHandlers lib uni (action (parseLine uni l)) = None ->
  w_deadlines w = [] ->
  hd None (w_writes w) = None ->
  w_incoming w = l :: rest ->
  serveOne lib uni s w =
  Val tt s (wrote (writer s) "502 Unsupported command" (set_incoming rest w))
  /\ w_calls (wrote (writer s) "502 Unsupported command" (set_incoming rest w))
     = w_calls w.
Proof.
  intros Hl Hd Hw Hin. split; [|reflexivity].
  apply (serveOne_unsupported lib uni l rest); try assumption.
  destruct Hl as [Hb|Hu]; [|exact Hu].
  unfold parseLine. rewrite (Fields_blank uni l Hb). reflexivity.
Qed.

Lemma blank_or_unknown_line_unsupported_witness :
  let s := Reference.fresh Reference.plain_server (Reference.policy Reference.sink_ok) in
  let w := Reference.client ["   "; "NOOP"] in
  (blank "   " /\ w_deadlines w = [] /\ hd None (w_writes w) = None
   /\ w_incoming w = ["   "; "NOOP"])
  /\ serveOne Reference.ParseAddress Reference.unicode s w =
     Val tt s (wrote (RawConn 0) "502 Unsupported command" (Reference.client ["NOOP"])).
Proof.
  intros s w.
  assert (Hb : blank "   ") by (repeat constructor).
  split; [repeat split; exact Hb|].
  exact (proj1 (blank_or_unknown_line_unsupported Reference.ParseAddress Reference.unicode "   "
                  ["NOOP"] s w (or_introl Hb) eq_refl eq_refl eq_refl)).
Defined.

Lemma asciiSpace_upper (c : ascii) : asciiSpace (upper_ascii c) = asciiSpace c.
Proof. destruct c as [[] [] [] [] [] [] [] []]; reflexivity. Qed.

Lemma upper_ascii_idem (c : ascii) : upper_ascii (upper_ascii c) = upper_ascii c.
Proof. destruct c as [[] [] [] [] [] [] [] []]; reflexivity. Qed.

Lemma upper_ascii_seven (c : ascii) :
  (nat_of_ascii (upper_ascii c) <? 128)%nat = (nat_of_ascii c <? 128)%nat.
Proof. destruct c as [[] [] [] [] [] [] [] []]; reflexivity. Qed.

Lemma upper_bytes_idem (s : string) : upper_bytes (upper_bytes s) = upper_bytes s.
Proof.
  induction s as [|c s IH]; cbn [upper_bytes]; [reflexivity|].
  now rewrite upper_ascii_idem, IH.
Qed.

Lemma upper_bytes_app (s t : string) :
  upper_bytes (s ++ t) = upper_bytes s ++ upper_bytes t.
Proof.
  induction s as [|c s IH]; cbn [upper_bytes append]; [reflexivity|].
  now rewrite IH.
Qed.

Lemma seven_bit_upper (s : string) : seven_bit (upper_bytes s) = seven_bit s.
Proof.
  unfold seven_bit.
  induction s as [|c s IH]; cbn [upper_bytes list_ascii_of_string forallb];
    [reflexivity|].
  now rewrite upper_ascii_seven, IH.
Qed.

Lemma fields_from_upper (l : string) :
  forall cur,
    fields_from (upper_bytes cur) (upper_bytes l)
    = map upper_bytes (fields_from cur l).
Proof.
  induction l as [|c l IH]; intros cur; cbn [upper_bytes fields_from].
  - destruct cur; reflexivity.
  - rewrite asciiSpace_upper. destruct (asciiSpace c).
    + destruct cur; cbn [upper_bytes map]; [apply (IH "")|].
      f_equal. apply (IH "").
    + rewrite <- (IH (cur ++ String c "")), upper_bytes_app. reflexivity.
Qed.

Lemma fields_from_seven (l : string) :
  forall cur,
    seven_bit cur = true -> seven_bit l = true ->
    Forall (fun f => seven_bit f = true) (fields_from cur l).
Proof.
  induction l as [|c l IH]; intros cur Hcur Hl; cbn [fields_from].
  - destruct cur; constructor; [exact Hcur|constructor].
  - change (String c l) with (String c "" ++ l) in Hl.
    rewrite seven_bit_app in Hl. apply andb_true_iff in Hl. destruct Hl as [Hc Hl].
    destruct (asciiSpace c).
    + destruct cur; [now apply IH|].
      constructor; [exact Hcur|now apply IH].
    + apply IH; [|exact Hl].
      rewrite seven_bit_app, Hcur, Hc. reflexivity.
Qed.

Lemma ToUpper_seven (uni : Unicode) (s : string) :
  seven_bit s = true -> ToUpper uni s = upper_bytes s.
Proof. intros H. unfold ToUpper. now rewrite H. Qed.

Lemma Fields_seven (uni : Unicode) (s : string) :
  seven_bit s = true -> Fields uni s = fields_from "" s.
Proof. intros H. unfold Fields. now rewrite H. Qed.

(** X5.  On a line of 7-bit bytes, verbs are found whatever their case:
    upper-casing the line upper-cases its fields one by one, so the line
    and its upper-cased form have the same verb, hence the same handler;
    and the verb of the line is in upper case already. *)
Theorem verb_is_case_insensitive (lib : string -> option Address)
        (uni : Unicode) (l : string) :
  seven_bit l = true ->
  fields (parseLine uni (ToUpper uni l))
  = map (ToUpper uni) (fields (parseLine uni l))
  /\ action (parseLine uni (ToUpper uni l)) = action (parseLine uni l)
  /\ ToUpper uni (action (parseLine uni l)) = action (parseLine uni l)
  /\ operationHandlers lib uni (action (parseLine uni (ToUpper uni l)))
     = operationHandlers lib uni (action (parseLine uni l)).
Proof.
  intros Hl.
  pose proof (fields_from_seven l "" eq_refl Hl) as Hseven.
  assert (Hup : ToUpper uni l = upper_bytes l) by now apply ToUpper_seven.
  assert (HF : Fields uni l = fields_from "" l) by now apply Fields_seven.
  assert (HFu : Fields uni (upper_bytes l) = map upper_bytes (fields_from "" l)).
  { rewrite Fields_seven by now rewrite seven_bit_upper.
    apply (fields_from_upper l ""). }
  assert (Hmap : map (ToUpper uni) (fields_from "" l)
                 = map upper_bytes (fields_from "" l)).
  { apply map_ext_in. intros f Hin. apply ToUpper_seven.
    rewrite Forall_forall in Hseven. now apply Hseven. }
  assert (Hf : fields (parseLine uni (ToUpper uni l))
               = map (ToUpper uni) (fields (parseLine uni l))).
  { unfold parseLine. rewrite Hup, HFu, HF.
    destruct (fields_from "" l) as [|f0 tl] eqn:E; [reflexivity|].
    cbn [map fields]. cbn [map] in Hmap. now rewrite Hmap. }
  assert (Hidem : forall f, seven_bit f = true ->
                            ToUpper uni (ToUpper uni f) = ToUpper uni f).
  { intros f Hf7. rewrite (ToUpper_seven uni f Hf7).
    rewrite ToUpper_seven by now rewrite seven_bit_upper.
    apply upper_bytes_idem. }
  assert (Ha : action (parseLine uni (ToUpper uni l)) = action (parseLine uni l)).
  { unfold parseLine. rewrite Hup, HFu, HF.
    destruct (fields_from "" l) as [|f0 tl] eqn:E; [reflexivity|].
    cbn [map action]. inversion Hseven as [|? ? H0 _]; subst.
    rewrite <- (ToUpper_seven uni f0 H0). now apply Hidem. }
  repeat split.
  - exact Hf.
  - exact Ha.
  - unfold parseLine. rewrite HF.
    destruct (fields_from "" l) as [|f0 tl] eqn:E; [|cbn [action]].
    + cbn [action]. reflexivity.
    + inversion Hseven as [|? ? H0 _]; subst. now apply Hidem.
  - now rewrite Ha.
Qed.

Lemma verb_is_case_insensitive_witness :
  seven_bit "mail FROM:<a@b>" = true
  /\ action (parseLine Reference.unicode
               (ToUpper Reference.unicode "mail FROM:<a@b>"))
     = action (parseLine Reference.unicode "mail FROM:<a@b>").
Proof.
  split; [reflexivity|].
  exact (proj1 (proj2 (verb_is_case_insensitive Reference.ParseAddress
                         Reference.unicode "mail FROM:<a@b>" eq_refl))).
Defined.

Lemma app_assoc_string (a b c : string) : (a ++ b) ++ c = a ++ (b ++ c).
Proof.
  induction a as [|x a IH]; cbn [append]; [reflexivity|]. now rewrite IH.
Qed.

Lemma app_empty_string (a : string) : a ++ "" = a.
Proof.
  induction a as [|x a IH]; cbn [append]; [reflexivity|]. now rewrite IH.
Qed.

Lemma app_nonempty_string (a b : string) : b <> "" -> a ++ b <> "".
Proof. destruct a; cbn [append]; [auto|discriminate]. Qed.

Lemma fields_from_token (t : string) :
  forall cur rest,
    spaceless t -> fields_from cur (t ++ rest) = fields_from (cur ++ t) rest.
Proof.
  unfold spaceless.
  induction t as [|c t IH]; intros cur rest H; cbn [append list_ascii_of_string] in *.
  - now rewrite app_empty_string.
  - inversion H as [|? ? Hc Ht]; subst.
    cbn [fields_from]. rewrite Hc, IH by exact Ht.
    now rewrite app_assoc_string.
Qed.

Lemma fields_from_gap (sp : string) :
  forall rest, blank sp -> fields_from "" (sp ++ rest) = fields_from "" rest.
Proof.
  unfold blank.
  induction sp as [|c sp IH]; intros rest H; cbn [append list_ascii_of_string] in *;
    [reflexivity|].
  inversion H as [|? ? Hc Hsp]; subst.
  cbn [fields_from]. rewrite Hc. now apply IH.
Qed.

Lemma fields_from_separator (sp cur rest : string) :
  blank sp -> sp <> "" -> cur <> "" ->
  fields_from cur (sp ++ rest) = cur :: fields_from "" rest.
Proof.
  unfold blank. intros H Hsp Hcur.
  destruct sp as [|c sp]; [congruence|].
  cbn [append list_ascii_of_string] in *.
  inversion H as [|? ? Hc Hrest]; subst.
  cbn [fields_from]. rewrite Hc.
  destruct cur; [congruence|].
  f_equal. now apply fields_from_gap.
Qed.

Lemma fields_from_end (cur post : string) :
  blank post -> cur <> "" -> fields_from cur post = [cur].
Proof.
  intros H Hcur.
  destruct post as [|c post].
  - cbn [fields_from]. destruct cur; [congruence|reflexivity].
  - rewrite <- (app_empty_string (String c post)).
    rewrite fields_from_separator by (assumption || discriminate).
    reflexivity.
Qed.

Lemma split_from_token (sep : ascii) (t : string) :
  forall cur rest,
    Forall (fun c => Ascii.eqb c sep = false) (list_ascii_of_string t) ->
    split_from sep cur (t ++ rest) = split_from sep (cur ++ t) rest.
Proof.
  induction t as [|c t IH]; intros cur rest H; cbn [append list_ascii_of_string] in *.
  - now rewrite app_empty_string.
  - inversion H as [|? ? Hc Ht]; subst.
    cbn [split_from]. rewrite Hc, IH by exact Ht.
    now rewrite app_assoc_string.
Qed.

Lemma Split_key_value (key value : string) :
  colonless key -> colonless value ->
  Split (key ++ ":" ++ value) ":"%char = [key; value].
Proof.
  intros Hk Hv. unfold Split.
  rewrite split_from_token by exact Hk.
  cbn [append split_from]. rewrite Ascii.eqb_refl.
  f_equal.
  rewrite <- (app_empty_string value) at 1.
  rewrite split_from_token by exact Hv.
  reflexivity.
Qed.

Lemma fields_verb_argument (pre verb sp arg post : string) :
  blank pre -> blank sp -> blank post -> sp <> "" ->
  spaceless verb -> verb <> "" -> spaceless arg -> arg <> "" ->
  fields_from "" (pre ++ verb ++ sp ++ arg ++ post) = [verb; arg].
Proof.
  intros Hpre Hsp Hpost Hsp0 Hverb Hverb0 Harg Harg0.
  rewrite fields_from_gap by exact Hpre.
  rewrite fields_from_token by exact Hverb. cbn [append].
  rewrite fields_from_separator by assumption.
  f_equal.
  rewrite fields_from_token by exact Harg. cbn [append].
  now apply fields_from_end.
Qed.

Lemma spaceless_app (a b : string) : spaceless a -> spaceless b -> spaceless (a ++ b).
Proof.
  unfold spaceless. intros Ha Hb.
  induction a as [|c a IH]; cbn [append list_ascii_of_string] in *; [exact Hb|].
  inversion Ha; subst. constructor; auto.
Qed.

(** A 7-bit line of a verb and one argument, white space around them. *)
Lemma parseLine_two_fields (uni : Unicode) (pre verb sp arg post : string) :
  blank pre -> blank sp -> blank post -> sp <> "" ->
  spaceless verb -> verb <> "" -> spaceless arg -> arg <> "" ->
  seven_bit verb = true -> seven_bit arg = true ->
  parseLine uni (pre ++ verb ++ sp ++ arg ++ post) =
  mkCommand (pre ++ verb ++ sp ++ arg ++ post) (upper_bytes verb) [verb; arg]
            (Split arg ":"%char).
Proof.
  intros Hpre Hsp Hpost Hsp0 Hverb Hverb0 Harg Harg0 Hv7 Ha7.
  assert (H7 : seven_bit (pre ++ verb ++ sp ++ arg ++ post) = true).
  { rewrite !seven_bit_app, Hv7, Ha7.
    now rewrite (blank_seven_bit pre Hpre), (blank_seven_bit sp Hsp),
      (blank_seven_bit post Hpost). }
  unfold parseLine. rewrite (Fields_seven uni _ H7).
  rewrite (fields_verb_argument pre verb sp arg post) by assumption.
  now rewrite (ToUpper_seven uni verb Hv7).
Qed.

(** X6.  A line [verb key:value] of 7-bit bytes, with any run of the bytes
    TAB, LF, VT, FF, CR and SPACE before, between and after, where verb,
    key and value hold none of those and key and value no colon, parses to
    the upper-cased verb, the two fields and the two parameters key and
    value; the line itself is kept as it came.  So [MAIL FROM:<a@b>] has
    [<a@b>] as its second parameter. *)
Theorem parseLine_verb_key_value (uni : Unicode) (pre verb sp key value post : string) :
  blank pre -> blank sp -> blank post -> sp <> "" ->
  spaceless verb -> verb <> "" ->
  spaceless key -> spaceless value -> colonless key -> colonless value ->
  seven_bit verb = true -> seven_bit key = true -> seven_bit value = true ->
  let l := pre ++ verb ++ sp ++ (key ++ ":" ++ value) ++ post in
  parseLine uni l
  = mkCommand l (ToUpper uni verb) [verb; key ++ ":" ++ value] [key; value]
  /\ ToUpper uni verb = upper_bytes verb.
Proof.
  intros Hpre Hsp Hpost Hsp0 Hverb Hverb0 Hkey Hvalue Hck Hcv Hv7 Hk7 Hval7 l.
  assert (Harg : spaceless (key ++ ":" ++ value)).
  { apply spaceless_app; [exact Hkey|].
    apply (spaceless_app ":" value); [repeat constructor|exact Hvalue]. }
  assert (Harg7 : seven_bit (key ++ ":" ++ value) = true).
  { now rewrite !seven_bit_app, Hk7, Hval7. }
  split; [|now apply ToUpper_seven].
  subst l.
  rewrite (parseLine_two_fields uni pre verb sp (key ++ ":" ++ value) post)
    by (try assumption; apply app_nonempty_string; discriminate).
  rewrite Split_key_value by assumption.
  now rewrite (ToUpper_seven uni verb Hv7).
Qed.

Lemma parseLine_verb_key_value_witness :
  (blank "" /\ blank " " /\ blank "" /\ " " <> ""
   /\ spaceless "mail" /\ "mail" <> "" /\ spaceless "FROM" /\ spaceless "<a@b>"
   /\ colonless "FROM" /\ colonless "<a@b>"
   /\ seven_bit "mail" = true /\ seven_bit "FROM" = true /\ seven_bit "<a@b>" = true)
  /\ parseLine Reference.unicode "mail FROM:<a@b>" =
     mkCommand "mail FROM:<a@b>" "MAIL" ["mail"; "FROM:<a@b>"] ["FROM"; "<a@b>"].
Proof.
  assert (H1 : blank "") by constructor.
  assert (H2 : blank " ") by (repeat constructor).
  assert (H3 : " " <> "") by discriminate.
  assert (H4 : spaceless "mail") by (repeat constructor).
  assert (H5 : "mail" <> "") by discriminate.
  assert (H6 : spaceless "FROM") by (repeat constructor).
  assert (H7 : spaceless "<a@b>") by (repeat constructor).
  assert (H8 : colonless "FROM") by (repeat constructor).
  assert (H9 : colonless "<a@b>") by (repeat constructor).
  split; [repeat split; assumption|].
  exact (proj1 (parseLine_verb_key_value Reference.unicode "" "mail" " " "FROM"
                  "<a@b>" "" H1 H2 H1 H3 H4 H5 H6 H7 H8 H9 eq_refl eq_refl eq_refl)).
Defined.

(** ** Replies and fatal errors *)

Lemma PrintfLine_fails (text m : string) (s : session) (w : world) :
  hd None (w_writes w) = Some m ->
  PrintfLine text s w = Val (Some (Failure m)) s (write_failed w).
Proof.
  unfold PrintfLine, write_failed.
  destruct (w_writes w) as [|r rest]; cbn [hd tl]; [discriminate|].
  intros ->. reflexivity.
Qed.

Lemma handleFatal_eq (f : error) (s : session) (w : world) (h : SessionHandler) :
  sHandler s = Some h ->
  handleFatal f s w =
  Val tt (set_keepGoing false s)
      (logged_call (CallHandleSessionError f) (active s) w).
Proof.
  intros Hh. unfold handleFatal, sh_HandleSessionError, the_sHandler.
  unfold_monad. cbn [sHandler set_keepGoing]. rewrite Hh. reflexivity.
Qed.

(** X7.  What [handleError] does with a handler's result.  Nil: nothing.
    A reportable status: the one line [code message] is written and the
    session goes on as it was.  If that write fails, nothing reaches the
    client, serving ends, and the policy handler is told of the write
    failure, not of the status.  Any other error: nothing is written,
    serving ends, and the policy handler is told of that error. *)
Theorem handleError_replies_or_ends (s : session) (w : world) (h : SessionHandler) :
  sHandler s = Some h ->
  handleError None s w = Val tt s w
  /\ (forall code msg,
        hd None (w_writes w) = None ->
        handleError (Some (Reportable code msg)) s w =
        Val tt s (wrote (writer s) (fmt_d code ++ " " ++ msg) w))
  /\ (forall code msg m,
        hd None (w_writes w) = Some m ->
        handleError (Some (Reportable code msg)) s w =
        Val tt (set_keepGoing false s)
            (logged_call (CallHandleSessionError (Failure m)) (active s)
               (write_failed w)))
  /\ (forall m,
        handleError (Some (Failure m)) s w =
        Val tt (set_keepGoing false s)
            (logged_call (CallHandleSessionError (Failure m)) (active s) w)).
Proof.
  intros Hh. split; [reflexivity|split; [|split]].
  - intros code msg Hw. unfold handleError. unfold bind.
    now rewrite PrintfLine_next.
  - intros code msg m Hw. unfold handleError. unfold bind.
    rewrite (PrintfLine_fails _ m) by exact Hw.
    now apply (handleFatal_eq _ _ _ h).
  - intros m. unfold handleError. now apply (handleFatal_eq _ _ _ h).
Qed.

Lemma handleError_replies_or_ends_witness :
  let h := Reference.policy Reference.sink_ok in
  let s := Reference.fresh Reference.plain_server h in
  let w := mkWorld [] [] [Some "broken pipe"] [] None [] [] in
  (sHandler s = Some h /\ hd None (w_writes w) = Some "broken pipe")
  /\ handleError GoAhead s w =
     Val tt (set_keepGoing false s)
         (mkWorld [] [] [] [] None []
            [mkLogged (CallHandleSessionError (Failure "broken pipe")) false]).
Proof.
  intros h s w. split; [split; reflexivity|].
  exact (proj1 (proj2 (proj2 (handleError_replies_or_ends s w h eq_refl)))
           StatusOK "Go ahead" "broken pipe" eq_refl).
Defined.

(** ** AUTH *)

Lemma sh_Authenticate_eq (u p : string) (s : session) (w : world)
      (h : SessionHandler) :
  sHandler s = Some h ->
  sh_Authenticate u p s w =
  Val (Authenticate h (w_calls w) u p) s
      (logged_call (CallAuthenticate u p) (active s) w).
Proof.
  intros Hh. unfold sh_Authenticate, the_sHandler. unfold_monad. now rewrite Hh.
Qed.

(** X8.  AUTH LOGIN on a transport that works, with two lines to come.  The
    two prompts are the base64 of [Username:] and [Password:].  If the first
    answer does not decode, the reply is the credential-decoding error, the
    second prompt is never sent and the second line is left unread; if the
    second does not decode, the same error after both prompts; in neither
    case is the policy handler called.  Otherwise the policy handler's
    authenticate operation is called once with the two decoded texts and
    its result is returned as it is. *)
Theorem auth_login_exchange (cmd : command) (s : session) (w : world)
        (h : SessionHandler) (l1 l2 : string) (rest : list string) :
  sHandler s = Some h ->
  transport_up w ->
  w_incoming w = l1 :: l2 :: rest ->
  let w1 := prompted (writer s) "334 VXNlcm5hbWU6" (l2 :: rest) w in
  let w2 := prompted (writer s) "334 UGFzc3dvcmQ6" rest w1 in
  authLOGIN cmd s w =
    match Base64.DecodeString l1 with
    | None => Val ErrDecodingCredentials s w1
    | Some username =>
        match Base64.DecodeString l2 with
        | None => Val ErrDecodingCredentials s w2
        | Some password =>
            Val (Authenticate h (w_calls w) username password) s
                (logged_call (CallAuthenticate username password) (active s) w2)
        end
    end
  /\ Base64.DecodeString "VXNlcm5hbWU6" = Some "Username:"
  /\ Base64.DecodeString "UGFzc3dvcmQ6" = Some "Password:".
Proof.
  intros Hh Hup Hin w1 w2.
  split; [|split; reflexivity].
  assert (Hup1 : transport_up (wrote (writer s) "334 VXNlcm5hbWU6" w))
    by now apply transport_up_wrote.
  subst w1 w2. unfold prompted.
  unfold authLOGIN.
  unfold or_return at 1. unfold bind at 1.
  rewrite PrintfLine_next by now apply transport_up_hd.
  unfold val_or_return at 1. unfold bind at 1.
  unfold ReadLine. cbn [w_incoming wrote]. rewrite Hin. cbn [fst snd].
  unfold val_or_return at 1. unfold bind at 1. unfold ret at 1.
  unfold decode_credentials.
  destruct (Base64.DecodeString l1) as [username|]; cbn [fst snd]; [|reflexivity].
  unfold or_return at 1. unfold bind at 1.
  rewrite PrintfLine_next by (apply transport_up_hd; exact Hup1).
  unfold val_or_return at 1. unfold bind at 1.
  unfold ReadLine. cbn [w_incoming wrote set_incoming fst snd].
  unfold val_or_return at 1. unfold bind at 1. unfold ret at 1.
  destruct (Base64.DecodeString l2) as [password|]; cbn [fst snd]; [|reflexivity].
  rewrite (sh_Authenticate_eq username password s _ h Hh).
  reflexivity.
Qed.

Lemma auth_login_exchange_witness :
  let h := Reference.policy Reference.sink_ok in
  let s := set_gotHelo true (Reference.fresh Reference.plain_server h) in
  let w := Reference.client ["YWxpY2U="; "c2VjcmV0"] in
  (sHandler s = Some h /\ transport_up w
   /\ w_incoming w = ["YWxpY2U="; "c2VjcmV0"])
  /\ authLOGIN (parseLine Reference.unicode "AUTH LOGIN") s w =
     Val AuthSuccess s
       (mkWorld [] [] []
          [(RawConn 0, "334 VXNlcm5hbWU6"); (RawConn 0, "334 UGFzc3dvcmQ6")]
          None [] [mkLogged (CallAuthenticate "alice" "secret") false]).
Proof.
  intros h s w.
  assert (Hup : transport_up w) by constructor.
  split; [repeat split; exact Hup|].
  exact (proj1 (auth_login_exchange (parseLine Reference.unicode "AUTH LOGIN") s w h
                  "YWxpY2U=" "c2VjcmV0" [] eq_refl Hup eq_refl)).
Defined.

(** X9.  AUTH before a greeting is refused with the no-greeting status,
    AUTH without a mechanism with the invalid-syntax status, and a
    mechanism that the library's upper-casing turns into neither LOGIN nor
    PLAIN with 502, all three without touching anything; a mechanism that
    it turns into LOGIN or PLAIN runs that exchange.  Whatever happens,
    AUTH leaves the session as it was: the outcome of an authentication is
    not kept in the session.  This holds whatever the library does with
    mechanisms that are not of 7-bit bytes. *)
Theorem auth_dispatch (uni : Unicode) (cmd : command) (s : session) (w : world) :
  (gotHelo s = false -> handleAUTH uni cmd s w = Val ErrNoHelo s w)
  /\ (gotHelo s = true -> nth_error (fields cmd) 1 = None ->
      handleAUTH uni cmd s w = Val ErrInvalidSyntax s w)
  /\ (gotHelo s = true ->
      forall m, nth_error (fields cmd) 1 = Some m ->
        (ToUpper uni m = "LOGIN" -> handleAUTH uni cmd s w = authLOGIN cmd s w)
        /\ (ToUpper uni m = "PLAIN" -> handleAUTH uni cmd s w = authPLAIN cmd s w)
        /\ (ToUpper uni m <> "LOGIN" -> ToUpper uni m <> "PLAIN" ->
            handleAUTH uni cmd s w =
            Val (Some (Reportable 502%Z "Unknown authentication mechanism")) s w))
  /\ final_session (handleAUTH uni cmd s w) = s.
Proof.
  split; [|split; [|split]].
  - intros Hg. unfold handleAUTH. unfold_monad. now rewrite Hg.
  - intros Hg Hnone. unfold handleAUTH. unfold_monad. rewrite Hg. cbn [negb].
    replace (length (fields cmd) <? 2)%nat with true
      by (symmetry; apply Nat.ltb_lt; apply nth_error_None in Hnone; lia).
    reflexivity.
  - intros Hg m Hm.
    assert (E : handleAUTH uni cmd s w =
                match authMap (ToUpper uni m) with
                | None => Val (Some (Reportable 502%Z "Unknown authentication mechanism")) s w
                | Some action => action cmd s w
                end).
    { unfold handleAUTH. unfold bind at 1. unfold get at 1. rewrite Hg. cbn [negb].
      rewrite (fields_second _ _ Hm).
      unfold bind at 1. rewrite (index_some _ _ _ _ _ Hm).
      destruct (authMap (ToUpper uni m)); reflexivity. }
    rewrite E. unfold authMap.
    split; [|split].
    + intros ->. reflexivity.
    + intros ->. reflexivity.
    + intros H1 H2.
      destruct (String.eqb_spec (ToUpper uni m) "LOGIN"); [congruence|].
      destruct (String.eqb_spec (ToUpper uni m) "PLAIN"); [congruence|].
      reflexivity.
  - apply handleAUTH_session.
Qed.

Lemma auth_dispatch_witness :
  let h := Reference.policy Reference.sink_ok in
  let s := set_gotHelo true (Reference.fresh Reference.plain_server h) in
  let w := Reference.client [] in
  let cmd := parseLine Reference.unicode "auth Plain AGFsaWNlAHNlY3JldA==" in
  (gotHelo s = true /\ nth_error (fields cmd) 1 = Some "Plain"
   /\ ToUpper Reference.unicode "Plain" = "PLAIN")
  /\ handleAUTH Reference.unicode cmd s w = authPLAIN cmd s w.
Proof.
  intros h s w cmd. split; [repeat split|].
  destruct (auth_dispatch Reference.unicode cmd s w) as (_ & _ & H & _).
  exact (proj1 (proj2 (H eq_refl "Plain" eq_refl)) eq_refl).
Defined.

(** X10.  The reply to AUTH is what the policy handler's authenticate
    operation returns and nothing else: when AUTH PLAIN with an inline
    payload of three parts is authenticated by a nil result, the call is
    made, the session goes on, and no line at all is written to the
    client. *)
Theorem auth_nil_result_sends_nothing (cmd : command) (payload username password : string)
        (s : session) (w : world) (h : SessionHandler) :
  nth_error (fields cmd) 2 = Some payload ->
  plain_credentials payload = Some (username, password) ->
  sHandler s = Some h ->
  Authenticate h (w_calls w) username password = None ->
  (e <- authPLAIN cmd ;; handleError e) s w =
  Val tt s (logged_call (CallAuthenticate username password) (active s) w)
  /\ w_sent (logged_call (CallAuthenticate username password) (active s) w)
     = w_sent w.
Proof.
  intros Hp Hc Hh Hnil. split; [|reflexivity].
  unfold bind at 1.
  assert (E : authPLAIN cmd s w = plain_outcome payload s w).
  { rewrite <- credentials_then_authenticate.
    unfold authPLAIN.
    replace (length (fields cmd) <? 3)%nat with false
      by (symmetry; apply Nat.ltb_ge;
          assert (2 < length (fields cmd)) by (apply nth_error_Some; congruence); lia).
    unfold val_or_return at 1. unfold bind at 1. unfold bind at 1.
    rewrite (index_some _ _ _ _ _ Hp). reflexivity. }
  rewrite E. unfold plain_outcome. rewrite Hc.
  rewrite (sh_Authenticate_eq username password s w h Hh), Hnil.
  reflexivity.
Qed.

Lemma auth_nil_result_sends_nothing_witness :
  let h := Reference.policy_rejecting in
  let s := set_gotHelo true (Reference.fresh Reference.plain_server h) in
  let w := Reference.client [] in
  let cmd := parseLine Reference.unicode "AUTH PLAIN AGFsaWNlAHNlY3JldA==" in
  (nth_error (fields cmd) 2 = Some "AGFsaWNlAHNlY3JldA=="
   /\ plain_credentials "AGFsaWNlAHNlY3JldA==" = Some ("alice", "secret")
   /\ sHandler s = Some h
   /\ Authenticate h (w_calls w) "alice" "secret" = None)
  /\ (e <- authPLAIN cmd ;; handleError e) s w =
     Val tt s (logged_call (CallAuthenticate "alice" "secret") false w).
Proof.
  intros h s w cmd. split; [repeat split|].
  exact (proj1 (auth_nil_result_sends_nothing cmd "AGFsaWNlAHNlY3JldA=="
                  "alice" "secret" s w h eq_refl eq_refl eq_refl eq_refl)).
Defined.

(** ** More on the verbs *)

(** X11.  STARTTLS after whose go-ahead the connection factory returns an
    error: the error is what the handler returns, and the session is left
    exactly as it was, in the clear, on the old connection, with its old
    policy handler and its message handler, although the client has been
    told to go ahead. *)
Theorem starttls_factory_error_keeps_session (cmd : command) (s : session)
        (w : world) (cfg : unit) (newHandler : option SessionHandler) (e : error) :
  isTLS s = false ->
  TLSConfig (server s) = Some cfg ->
  hd None (w_writes w) = None ->
  OnNewConnection (server s) (w_calls w) true = (newHandler, Some e) ->
  handleSTARTTLS cmd s w =
  Val (Some e) s
      (logged_call (CallOnNewConnection true) (active s)
         (wrote (writer s) "250 Go ahead" w)).
Proof.
  intros Htls Hcfg Hwr Hnew.
  unfold handleSTARTTLS. unfold bind at 1. unfold get at 1.
  rewrite Htls, Hcfg.
  unfold or_return at 1. unfold bind at 1.
  rewrite PrintfLine_next by exact Hwr.
  unfold val_or_return, srv_OnNewConnection. unfold_monad.
  cbn [w_calls wrote]. rewrite Hnew. reflexivity.
Qed.

(** X12.  RCPT inside a transaction, with a parameter the validator
    accepts: the bare address is passed to the message handler's
    add-recipient operation, once; an error it returns is the reply as it
    is, and nil gives go-ahead.  And whatever a RCPT command is and does,
    it leaves the session as it was. *)
Theorem rcpt_forwards_address (lib : string -> option Address) (cmd : command)
        (s : session) (w : world) (mh : MessageHandler) (param recipient : string) :
  mHandler s = Some mh ->
  nth_error (params cmd) 1 = Some param ->
  parseAddress lib param = (recipient, None) ->
  handleRCPT lib cmd s w =
  Val (match AddRecipient mh (w_calls w) recipient with
       | Some e => Some e
       | None => GoAhead
       end)
      s (logged_call (CallAddRecipient recipient) true w)
  /\ forall cmd' s' w', final_session (handleRCPT lib cmd' s' w') = s'.
Proof.
  intros Hm Hp Ha. split; [|intros; apply handleRCPT_session].
  rewrite handleRCPT_eq, Hm, Hp, Ha.
  destruct (AddRecipient mh (w_calls w) recipient); reflexivity.
Qed.

(** X13.  MAIL changes the session only when it succeeds, and then only
    the message handler: after a MAIL that is refused for any reason (no
    greeting, TLS missing, a malformed address, the policy handler's
    error) or that panics, the session is as before, so a transaction that
    was open stays open with its old message handler. *)
Theorem mail_changes_session_on_success_only (lib : string -> option Address)
        (cmd : command) (s : session) (w : world) :
  match handleMAIL lib cmd s w with
  | Val e s' w' =>
      s' = s
      \/ (e = GoAhead /\ gotHelo s = true /\ exists mh, s' = set_mHandler mh s)
  | Panic _ s' _ => s' = s
  end.
Proof.
  rewrite handleMAIL_eq.
  destruct (gotHelo s) eqn:Hg; cbn [negb]; [|now left].
  case_inner; try (now left); try reflexivity.
  right. repeat split. eauto.
Qed.

(** X14.  DATA whose message handler returns an error instead of a sink:
    the error is returned, no go-ahead is written, no line of input is
    read and the session is as before.  DATA whose go-ahead cannot be
    written: the write failure is returned, no line of input is read, the
    sink is neither written nor closed, and the session is as before. *)
Theorem data_stops_before_body (cmd : command) (s : session) (w : world)
        (mh : MessageHandler) :
  mHandler s = Some mh ->
  (forall sink e,
      GetDataWriter mh (w_calls w) = (sink, Some e) ->
      handleDATA cmd s w = Val (Some e) s (logged_call CallGetDataWriter true w))
  /\ (forall sink m,
        GetDataWriter mh (w_calls w) = (sink, None) ->
        hd None (w_writes w) = Some m ->
        handleDATA cmd s w =
        Val (Some (Failure m)) s (write_failed (logged_call CallGetDataWriter true w))).
Proof.
  intros Hm. split.
  - intros sink e Hsink.
    unfold handleDATA. unfold bind at 1. unfold get at 1. rewrite Hm.
    unfold val_or_return at 1. unfold bind at 1.
    unfold mh_GetDataWriter. unfold_monad. rewrite Hsink. cbn [fst snd].
    unfold active. rewrite Hm. reflexivity.
  - intros sink m Hsink Hw.
    unfold handleDATA. unfold bind at 1. unfold get at 1. rewrite Hm.
    unfold val_or_return at 1. unfold bind at 1.
    unfold mh_GetDataWriter. unfold_monad. rewrite Hsink. cbn [fst snd].
    unfold active. rewrite Hm.
    fold (logged_call CallGetDataWriter true w).
    rewrite (PrintfLine_fails _ m) by exact Hw.
    reflexivity.
Qed.

(** X15.  EHLO accepted by the policy handler whose first capability line
    cannot be written: the write failure is returned, the message handler
    has been cleared, and the session is not marked as greeted; no further
    line is attempted. *)
Theorem ehlo_write_failure_leaves_ungreeted (cmd : command) (name m : string)
        (s : session) (w : world) (h : SessionHandler) :
  nth_error (fields cmd) 1 = Some name ->
  sHandler s = Some h ->
  HandleHELO h (w_calls w) name true = None ->
  hd None (w_writes w) = Some m ->
  handleEHLO cmd s w =
  Val (Some (Failure m)) (set_mHandler None s)
      (write_failed
         (logged_call CallMaxMessageSize false
            (logged_call (CallHandleHELO name true) false w)))
  /\ gotHelo (set_mHandler None s) = gotHelo s.
Proof.
  intros Hname Hh Hacc Hw. split; [|reflexivity].
  rewrite (handleEHLO_eq cmd name s w h Hname Hh), Hacc.
  unfold capability_list. cbn [app removelast].
  cbn [write_continuations]. unfold or_return at 1. unfold bind at 1.
  rewrite (PrintfLine_fails _ m) by exact Hw.
  reflexivity.
Qed.

Lemma starttls_factory_error_keeps_session_witness :
  let s := in_transaction refusing_factory_server
             (Reference.policy Reference.sink_ok) Reference.sink_ok in
  let w := Reference.client [] in
  (isTLS s = false /\ TLSConfig (server s) = Some tt
   /\ hd None (w_writes w) = None
   /\ OnNewConnection (server s) (w_calls w) true
      = (None, Some (Failure "no more sessions")))
  /\ handleSTARTTLS (parseLine Reference.unicode "STARTTLS") s w =
     Val (Some (Failure "no more sessions")) s
         (logged_call (CallOnNewConnection true) true
            (wrote (RawConn 0) "250 Go ahead" w)).
Proof.
  intros s w. split; [repeat split|].
  exact (starttls_factory_error_keeps_session (parseLine Reference.unicode "STARTTLS") s w tt None
           (Failure "no more sessions") eq_refl eq_refl eq_refl eq_refl).
Defined.

Lemma rcpt_forwards_address_witness :
  let sink := Reference.sink_ok in
  let s := in_transaction Reference.plain_server (Reference.policy sink) sink in
  let w := Reference.client [] in
  let cmd := parseLine Reference.unicode "RCPT TO:<c@d>" in
  (mHandler s = Some (Reference.message_handler sink)
   /\ nth_error (params cmd) 1 = Some "<c@d>"
   /\ parseAddress Reference.ParseAddress "<c@d>" = ("c@d", None))
  /\ handleRCPT Reference.ParseAddress cmd s w =
     Val GoAhead s (logged_call (CallAddRecipient "c@d") true w).
Proof.
  intros sink s w cmd. split; [repeat split|].
  exact (proj1 (rcpt_forwards_address Reference.ParseAddress cmd s w
                  (Reference.message_handler sink) "<c@d>" "c@d"
                  eq_refl eq_refl eq_refl)).
Defined.

Lemma data_stops_before_body_witness :
  let s := set_mHandler (Some sinkless_message_handler)
             (set_gotHelo true
                (Reference.fresh Reference.plain_server
                   (Reference.policy Reference.sink_ok))) in
  let w := Reference.client ["hi"; "."] in
  (mHandler s = Some sinkless_message_handler
   /\ GetDataWriter sinkless_message_handler (w_calls w)
      = (None, Some (Reportable 452%Z "Try again later")))
  /\ handleDATA (parseLine Reference.unicode "DATA") s w =
     Val (Some (Reportable 452%Z "Try again later")) s
         (logged_call CallGetDataWriter true w).
Proof.
  intros s w. split; [repeat split|].
  exact (proj1 (data_stops_before_body (parseLine Reference.unicode "DATA") s w
                  sinkless_message_handler eq_refl)
           None (Reportable 452%Z "Try again later") eq_refl).
Defined.

Lemma ehlo_write_failure_leaves_ungreeted_witness :
  let h := Reference.policy Reference.sink_ok in
  let s := Reference.fresh Reference.plain_server h in
  let w := mkWorld [] [] [Some "broken pipe"] [] None [] [] in
  let cmd := parseLine Reference.unicode "EHLO x" in
  (nth_error (fields cmd) 1 = Some "x" /\ sHandler s = Some h
   /\ HandleHELO h (w_calls w) "x" true = None
   /\ hd None (w_writes w) = Some "broken pipe")
  /\ handleEHLO cmd s w =
     Val (Some (Failure "broken pipe")) (set_mHandler None s)
         (mkWorld [] [] [] [] None []
            [mkLogged (CallHandleHELO "x" true) false;
             mkLogged CallMaxMessageSize false]).
Proof.
  intros h s w cmd. split; [repeat split|].
  exact (proj1 (ehlo_write_failure_leaves_ungreeted cmd "x" "broken pipe" s w h
                  eq_refl eq_refl eq_refl eq_refl)).
Defined.

(** ** Closing the transport *)

Lemma PrintfLine_closed (text : string) (s : session) (w : world) :
  w_closed (final_world (PrintfLine text s w)) = w_closed w.
Proof.
  unfold PrintfLine. destruct (w_writes w) as [|[m|] rest]; reflexivity.
Qed.

Lemma write_continuations_closed (exts : list string) :
  forall s w, w_closed (final_world (write_continuations exts s w)) = w_closed w.
Proof.
  induction exts as [|ext rest IH]; intros s w; cbn [write_continuations];
    [reflexivity|].
  unfold or_return, bind.
  pose proof (PrintfLine_closed (fmt_d StatusOK ++ "-" ++ ext) s w) as Hp.
  destruct (PrintfLine_total (fmt_d StatusOK ++ "-" ++ ext) s w) as (e & w' & E).
  rewrite E in *. cbn [final_world] in Hp.
  destruct e; [exact Hp|].
  rewrite IH. exact Hp.
Qed.

Lemma handleError_closed (e : err) (s : session) (w : world) :
  w_closed (final_world (handleError e s w)) = w_closed w.
Proof.
  unfold handleError, handleFatal, sh_HandleSessionError, the_sHandler, PrintfLine.
  unfold_monad.
  destruct e as [[code msg|m]|]; case_inner; reflexivity.
Qed.

Lemma handleEHLO_closed (cmd : command) (s : session) (w : world) :
  w_closed (final_world (handleEHLO cmd s w)) = w_closed w.
Proof.
  destruct (nth_error (fields cmd) 1) as [name|] eqn:Hname.
  - destruct (sHandler s) as [h|] eqn:Hh.
    + rewrite (handleEHLO_eq cmd name s w h Hname Hh).
      destruct (HandleHELO h (w_calls w) name true); [reflexivity|].
      match goal with
      | |- context [write_continuations ?l ?s0 ?w0] =>
          pose proof (write_continuations_closed l s0 w0) as Hc;
          destruct (write_continuations_total l s0 w0) as (e & w1 & E)
      end.
      rewrite E in *. destruct e; exact Hc.
    + destruct (greeting_nil_handler cmd name s w Hname Hh) as [-> _]. reflexivity.
  - unfold handleEHLO.
    replace (length (fields cmd) <? 2)%nat with true
      by (symmetry; apply Nat.ltb_lt; apply nth_error_None in Hname; lia).
    reflexivity.
Qed.

Lemma operationHandlers_closed (lib : string -> option Address)
      (uni : Unicode) (verb : string)
      (h : operationHandler) (cmd : command) (s : session) (w : world) :
  operationHandlers lib uni verb = Some h ->
  w_closed (final_world (h cmd s w)) = w_closed w.
Proof.
  unfold operationHandlers.
  repeat match goal with
         | |- context [String.eqb verb ?v] => destruct (String.eqb verb v)
         end;
    intros H; try discriminate H; injection H as <-.
  - unfold handleAUTH, authMap, authLOGIN, authPLAIN, decode_credentials,
      sh_Authenticate, the_sHandler, ReadLine, PrintfLine, index.
    unfold_monad. case_inner; reflexivity.
  - apply handleDATA_frame.
  - apply handleEHLO_closed.
  - unfold handleHELO, sh_HandleHELO, the_sHandler, index.
    unfold_monad. case_inner; reflexivity.
  - rewrite handleMAIL_eq. case_inner; reflexivity.
  - reflexivity.
  - reflexivity.
  - rewrite handleRCPT_eq. case_inner; reflexivity.
  - reflexivity.
  - unfold handleSTARTTLS, srv_OnNewConnection, PrintfLine.
    unfold_monad. case_inner; reflexivity.
Qed.

Lemma serveOne_closed (lib : string -> option Address)
      (uni : Unicode) (s : session) (w : world) :
  w_closed (final_world (serveOne lib uni s w)) = w_closed w.
Proof.
  assert (Hdispatch : forall l w0,
             w_closed (final_world
               (match operationHandlers lib uni (action (parseLine uni l)) with
                | None => handleError (NewReportableStatus StatusCommandNotImplemented
                                         "Unsupported command")
                | Some action => e <- action (parseLine uni l) ;; handleError e
                end s w0)) = w_closed w0).
  { intros l w0.
    destruct (operationHandlers lib uni (action (parseLine uni l))) as [h|] eqn:Hop;
      [|apply handleError_closed].
    pose proof (operationHandlers_closed lib uni _ h (parseLine uni l) s w0 Hop) as Hc.
    unfold bind.
    destruct (h (parseLine uni l) s w0) as [e s1 w1|p s1 w1]; cbn [final_world] in *;
      [|exact Hc].
    rewrite handleError_closed. exact Hc. }
  unfold serveOne. unfold bind at 1. unfold SetReadDeadline.
  destruct (w_deadlines w) as [|[m|] rest]; cbn [transport_error];
    try (rewrite handleError_closed; reflexivity);
    unfold bind at 1; unfold ReadLine; cbn [w_incoming];
    destruct (w_incoming w) as [|l more]; cbn [fst snd];
    try (rewrite handleError_closed; reflexivity);
    rewrite Hdispatch; reflexivity.
Qed.

Lemma commandLoop_closed (lib : string -> option Address)
      (uni : Unicode) (fuel : nat) :
  forall s w, w_closed (run_world (commandLoop lib uni fuel s w)) = w_closed w.
Proof.
  induction fuel as [|fuel IH]; intros s w; cbn [commandLoop]; [reflexivity|].
  destruct (keepGoing s); [|apply IH].
  pose proof (serveOne_closed lib uni s w) as Hc.
  destruct (serveOne lib uni s w) as [u s1 w1|p s1 w1]; cbn [final_world] in Hc.
  - rewrite IH. exact Hc.
  - exact Hc.
Qed.

Lemma closeOrReport_closed (c : Conn) (s : session) (w : world) :
  w_closed (final_world (closeOrReport c s w)) = (w_closed w ++ [c])%list.
Proof.
  unfold closeOrReport, CloseConn, sh_HandleSessionError, the_sHandler.
  unfold_monad. case_inner; reflexivity.
Qed.

(** X16.  [serve] closes the connection it was started on when, and only
    when, it leaves its loop: while it is still looping, nothing has been
    closed; once it has returned or a panic has left it, exactly that
    connection has been closed, once, also after a STARTTLS has put a TLS
    layer in front of it. *)
Theorem transport_closed_on_exit_only (lib : string -> option Address)
      (uni : Unicode)
        (fuel : nat) (s : session) (w : world) :
  match serve lib uni fuel s w with
  | Looping _ w' => w_closed w' = w_closed w
  | Returned _ w' => w_closed w' = (w_closed w ++ [conn s])%list
  | Crashed _ _ w' => w_closed w' = (w_closed w ++ [conn s])%list
  end.
Proof.
  unfold serve.
  pose proof (PrintfLine_closed
                (fmt_d StatusServiceReady ++ " " ++ Hostname (server s) ++ " ESMTP ready")
                s w) as Hp.
  destruct (PrintfLine _ s w) as [[e|] s1 w1|p s1 w1]; cbn [final_world] in Hp.
  - assert (Hh : w_closed (final_world (sh_HandleSessionError e s1 w1)) = w_closed w).
    { rewrite <- Hp. unfold sh_HandleSessionError, the_sHandler. unfold_monad.
      destruct (sHandler s1); reflexivity. }
    destruct (sh_HandleSessionError e s1 w1) as [u s2 w2|p s2 w2];
      cbn [final_world run_deferred] in *.
    + pose proof (closeOrReport_closed (conn s) s2 w2) as Hc.
      destruct (closeOrReport (conn s) s2 w2); cbn [final_world] in Hc;
        rewrite Hc, Hh; reflexivity.
    + pose proof (closeOrReport_closed (conn s) s2 w2) as Hc.
      destruct (closeOrReport (conn s) s2 w2); cbn [final_world] in Hc;
        rewrite Hc, Hh; reflexivity.
  - pose proof (commandLoop_closed lib uni fuel s1 w1) as Hl.
    destruct (commandLoop lib uni fuel s1 w1) as [s2 w2|p s2 w2|s2 w2];
      cbn [run_world run_deferred] in *.
    + pose proof (closeOrReport_closed (conn s) s2 w2) as Hc.
      destruct (closeOrReport (conn s) s2 w2); cbn [final_world] in Hc;
        rewrite Hc, Hl, Hp; reflexivity.
    + pose proof (closeOrReport_closed (conn s) s2 w2) as Hc.
      destruct (closeOrReport (conn s) s2 w2); cbn [final_world] in Hc;
        rewrite Hc, Hl, Hp; reflexivity.
    + rewrite Hl. exact Hp.
  - cbn [run_deferred].
    pose proof (closeOrReport_closed (conn s) s1 w1) as Hc.
    destruct (closeOrReport (conn s) s1 w1); cbn [final_world] in Hc;
      rewrite Hc, Hp; reflexivity.
Qed.

(** X17.  When the greeting cannot be written, [serve] does return,
    whatever the client would have sent: the policy handler is told of the
    write failure, the connection is closed, and a failure of that close
    is reported to the policy handler too; the session itself is
    unchanged. *)
Theorem serve_returns_when_greeting_fails (lib : string -> option Address)
      (uni : Unicode)
        (fuel : nat) (s : session) (w : world) (h : SessionHandler) (m : string) :
  sHandler s = Some h ->
  hd None (w_writes w) = Some m ->
  let w1 := closed_conn (conn s)
              (logged_call (CallHandleSessionError (Failure m)) (active s)
                 (write_failed w)) in
  serve lib uni fuel s w =
  Returned s
    match w_close w with
    | Some m' => logged_call (CallHandleSessionError (Failure m')) (active s) w1
    | None => w1
    end.
Proof.
  intros Hh Hw w1. unfold serve.
  rewrite (PrintfLine_fails _ m) by exact Hw.
  unfold sh_HandleSessionError at 1. unfold the_sHandler. unfold_monad. rewrite Hh.
  cbv beta iota. cbn [run_deferred].
  unfold closeOrReport, CloseConn, sh_HandleSessionError, the_sHandler.
  unfold_monad. subst w1. unfold closed_conn, logged_call, write_failed.
  cbn [w_deadlines w_incoming w_writes w_sent w_close w_closed w_calls].
  destruct (w_close w) as [m'|]; cbn [transport_error]; cbv beta iota;
    [rewrite Hh|]; reflexivity.
Qed.

Lemma serve_returns_when_greeting_fails_witness :
  let h := Reference.policy Reference.sink_ok in
  let s := Reference.fresh Reference.plain_server h in
  let w := mkWorld [] ["HELO x"] [Some "broken pipe"] [] (Some "already closed") [] [] in
  (sHandler s = Some h /\ hd None (w_writes w) = Some "broken pipe")
  /\ serve Reference.ParseAddress Reference.unicode 5 s w =
     Returned s
       (mkWorld [] ["HELO x"] [] [] (Some "already closed") [RawConn 0]
          [mkLogged (CallHandleSessionError (Failure "broken pipe")) false;
           mkLogged (CallHandleSessionError (Failure "already closed")) false]).
Proof.
  intros h s w. split; [split; reflexivity|].
  exact (serve_returns_when_greeting_fails Reference.ParseAddress Reference.unicode 5 s w h
           "broken pipe" eq_refl eq_refl).
Defined.

(** X18.  A command that cannot be read ends the serving: when arming the
    read deadline fails, no line is read, and when the read itself fails
    (the client is gone), in both cases nothing is written, continue-serving
    becomes false and the policy handler is told of that failure once. *)
Theorem unreadable_command_ends_serving (lib : string -> option Address)
      (uni : Unicode)
        (s : session) (w : world) (h : SessionHandler) :
  sHandler s = Some h ->
  (forall m rest,
      w_deadlines w = Some m :: rest ->
      exists w', serveOne lib uni s w = Val tt (set_keepGoing false s) w'
                 /\ w_incoming w' = w_incoming w /\ w_sent w' = w_sent w
                 /\ w_calls w' = (w_calls w
                                  ++ [mkLogged (CallHandleSessionError (Failure m))
                                        (active s)])%list)
  /\ (w_deadlines w = [] -> w_incoming w = [] ->
      serveOne lib uni s w =
      Val tt (set_keepGoing false s)
          (logged_call (CallHandleSessionError (Failure "EOF")) (active s) w)).
Proof.
  intros Hh. split.
  - intros m rest Hd.
    unfold serveOne. unfold bind at 1. unfold SetReadDeadline. rewrite Hd.
    cbn [transport_error]. unfold handleError.
    rewrite (handleFatal_eq _ _ _ h Hh).
    eexists. split; [reflexivity|]. repeat split.
  - intros Hd Hin.
    unfold serveOne. unfold bind at 1. unfold SetReadDeadline. rewrite Hd.
    unfold bind at 1. unfold ReadLine. rewrite Hin. cbn [fst snd].
    unfold handleError. now apply (handleFatal_eq _ _ _ h).
Qed.

Lemma unreadable_command_ends_serving_witness :
  let h := Reference.policy Reference.sink_ok in
  let s := Reference.fresh Reference.plain_server h in
  let w := Reference.client [] in
  (sHandler s = Some h /\ w_deadlines w = [] /\ w_incoming w = [])
  /\ serveOne Reference.ParseAddress Reference.unicode s w =
     Val tt (set_keepGoing false s)
         (logged_call (CallHandleSessionError (Failure "EOF")) false w).
Proof.
  intros h s w. split; [repeat split|].
  exact (proj2 (unreadable_command_ends_serving Reference.ParseAddress Reference.unicode s w h eq_refl)
           eq_refl eq_refl).
Defined.

(** ** The accept loop *)

Lemma sublist_nil {A : Type} (l : list A) : sublist [] l.
Proof. induction l; constructor; assumption. Qed.

Lemma accept_loop_started (srv : Server) (listener : list accept_result) :
  forall st,
    exists more,
      started (accept_loop srv listener st) = (started st ++ more)%list
      /\ Forall (fun s => exists handler c,
                     s = newSession srv (Some handler) c false) more
      /\ sublist (map conn more) (accepted_conns listener).
Proof.
  induction listener as [|r rest IH]; intros st; cbn [accept_loop accepted_conns].
  - exists []. rewrite app_nil_r. repeat split; constructor.
  - destruct r as [c|[|] e].
    + destruct (OnNewConnection srv (asked st) false) as [[handler|] [e|]];
        cbn [started].
      * exists []. rewrite app_nil_r. repeat split; [constructor|apply sublist_nil].
      * destruct (IH (mkServing (started st ++ [newSession srv (Some handler) c false])%list
                        (asked st ++ [mkLogged (CallOnNewConnection false) false])%list
                        None)) as (more & Hs & Hf & Hsub).
        exists (newSession srv (Some handler) c false :: more).
        cbn [started] in Hs. rewrite Hs, <- app_assoc.
        repeat split.
        { constructor; [eauto|exact Hf]. }
        { cbn [map conn newSession]. now constructor. }
      * exists []. rewrite app_nil_r. repeat split; [constructor|apply sublist_nil].
      * destruct (IH (mkServing (started st)
                        (asked st ++ [mkLogged (CallOnNewConnection false) false])%list
                        None)) as (more & Hs & Hf & Hsub).
        exists more. cbn [started] in Hs. repeat split; try assumption.
        now constructor.
    + apply IH.
    + exists []. cbn [started]. rewrite app_nil_r.
      repeat split; [constructor|apply sublist_nil].
Qed.

(** X19.  Every session the accept loop starts is a new one made by
    [newSession] for this server with a policy handler that is not nil, in
    the clear, not greeted, with no message handler and set to go on; and
    the connections of the sessions started are, in order, among the
    connections the listener accepted, each at most once for each time it
    was accepted. *)
Theorem serve_starts_fresh_sessions (srv : Server) (listener : list accept_result) :
  Forall (fun s => (exists handler c, s = newSession srv (Some handler) c false)
                   /\ server s = srv /\ sHandler s <> None /\ mHandler s = None
                   /\ gotHelo s = false /\ isTLS s = false /\ keepGoing s = true)
         (started (Serve srv listener))
  /\ sublist (map conn (started (Serve srv listener))) (accepted_conns listener).
Proof.
  unfold Serve.
  destruct (accept_loop_started srv listener (mkServing [] [] None))
    as (more & Hs & Hf & Hsub).
  cbn [started app] in Hs. rewrite Hs. split; [|exact Hsub].
  apply Forall_forall. intros s Hin.
  rewrite Forall_forall in Hf. destruct (Hf s Hin) as (handler & c & ->).
  repeat split; eauto. discriminate.
Qed.

Lemma accept_loop_temporary (srv : Server) (listener : list accept_result) :
  forall st,
    accept_loop srv (without_temporary listener) st = accept_loop srv listener st.
Proof.
  induction listener as [|r rest IH]; intros st; [reflexivity|].
  destruct r as [c|[|] e]; cbn [without_temporary accept_loop].
  - destruct (OnNewConnection srv (asked st) false) as [[handler|] [e'|]];
      try reflexivity; apply IH.
  - apply IH.
  - reflexivity.
Qed.

Lemma accept_loop_app (srv : Server) (before after : list accept_result) :
  forall st,
    returned st = None ->
    accept_loop srv (before ++ after) st =
    match returned (accept_loop srv before st) with
    | Some _ => accept_loop srv before st
    | None => accept_loop srv after (accept_loop srv before st)
    end.
Proof.
  induction before as [|r rest IH]; intros st Hst; cbn [app accept_loop].
  - now rewrite Hst.
  - destruct r as [c|[|] e].
    + destruct (OnNewConnection srv (asked st) false) as [[handler|] [e'|]];
        cbn [returned]; try reflexivity; apply IH; reflexivity.
    + now apply IH.
    + reflexivity.
Qed.

(** X20.  When [Serve] is still accepting after a run of accept results,
    then: an accept error that is not temporary makes it return that error;
    an error of the connection factory makes it return that error without
    starting a session; in both cases nothing the listener would have
    returned later is looked at, and the sessions started before stay as
    they are.  A nil handler without error declines the connection and
    [Serve] goes on.  Temporary accept errors change nothing at all. *)
Theorem serve_stops_on_first_error (srv : Server)
        (before after : list accept_result) :
  returned (Serve srv before) = None ->
  let st := Serve srv before in
  let asked' := (asked st ++ [mkLogged (CallOnNewConnection false) false])%list in
  (forall e,
      Serve srv (before ++ AcceptError false e :: after)
      = mkServing (started st) (asked st) (Some e))
  /\ (forall c handler e,
        OnNewConnection srv (asked st) false = (handler, Some e) ->
        Serve srv (before ++ Accepted c :: after)
        = mkServing (started st) asked' (Some e))
  /\ (forall c,
        OnNewConnection srv (asked st) false = (None, None) ->
        Serve srv (before ++ [Accepted c]) = mkServing (started st) asked' None)
  /\ (forall listener, Serve srv (without_temporary listener) = Serve srv listener).
Proof.
  intros Hgo st asked'.
  assert (Happ : forall rest,
             Serve srv (before ++ rest) = accept_loop srv rest st).
  { intros rest. unfold Serve. rewrite accept_loop_app by reflexivity.
    fold (Serve srv before). now rewrite Hgo. }
  split; [|split; [|split]].
  - intros e. rewrite Happ. reflexivity.
  - intros c handler e Hf. rewrite Happ. cbn [accept_loop]. rewrite Hf.
    destruct handler; reflexivity.
  - intros c Hf. rewrite Happ. cbn [accept_loop]. now rewrite Hf.
  - intros listener. apply accept_loop_temporary.
Qed.

Lemma serve_stops_on_first_error_witness :
  let before := [AcceptError true (Failure "too many open files"); Accepted (RawConn 1)] in
  let st := Serve Reference.plain_server before in
  returned st = None
  /\ Serve Reference.plain_server
       (before ++ AcceptError false (Failure "listener closed") :: [Accepted (RawConn 2)])
     = mkServing (started st) (asked st) (Some (Failure "listener closed"))
  /\ map conn (started st) = [RawConn 1].
Proof.
  intros before st.
  split; [reflexivity|split; [|reflexivity]].
  exact (proj1 (serve_stops_on_first_error Reference.plain_server before
                  [Accepted (RawConn 2)] eq_refl)
           (Failure "listener closed")).
Defined.

(** ** The body of a message *)

Lemma dotRead_body (ls : list string) (rest : list string) :
  Forall (fun l => l <> ".") ls ->
  dotRead (ls ++ "." :: rest) = mkDotted (body_of ls) true rest.
Proof.
  induction ls as [|l ls IH]; intros H; cbn [app dotRead body_of]; [reflexivity|].
  inversion H as [|? ? Hl Hls]; subst.
  destruct (String.eqb_spec l "."); [congruence|].
  now rewrite IH.
Qed.

Lemma length_app_string (a b : string) :
  String.length (a ++ b) = String.length a + String.length b.
Proof. induction a as [|c a IH]; cbn [append String.length]; [reflexivity|now rewrite IH]. Qed.

Lemma joined_chunks_from (body : string) :
  forall room cur, joined (chunks_from room cur body) = cur ++ body.
Proof.
  induction body as [|c body IH]; intros room cur; cbn [chunks_from].
  - rewrite app_empty_string.
    destruct cur; cbn [joined fold_right]; rewrite ?app_empty_string; reflexivity.
  - destruct (room <=? 1)%N.
    + cbn [joined fold_right]. fold (joined (chunks_from copy_buffer_size "" body)).
      rewrite IH. now rewrite app_assoc_string.
    + rewrite IH. now rewrite app_assoc_string.
Qed.

Lemma chunks_from_sizes (body : string) :
  forall room cur,
    (1 <= room)%N ->
    (N.of_nat (String.length cur) + room = copy_buffer_size)%N ->
    Forall (fun piece => piece <> ""
                         /\ (N.of_nat (String.length piece) <= copy_buffer_size)%N)
           (chunks_from room cur body).
Proof.
  induction body as [|c body IH]; intros room cur Hroom Hsum; cbn [chunks_from].
  - destruct cur as [|c0 cur0]; constructor; [|constructor].
    split; [discriminate|lia].
  - assert (Hlen : String.length (cur ++ String c "") = S (String.length cur))
      by (rewrite length_app_string; cbn [String.length]; lia).
    destruct (N.leb_spec room 1).
    + constructor.
      * split; [apply app_nonempty_string; discriminate|rewrite Hlen; lia].
      * apply IH; [unfold copy_buffer_size; lia|reflexivity].
    + apply IH; [lia|rewrite Hlen; lia].
Qed.

Lemma logged_calls_calls (cs : list call) (a : bool) :
  forall w, w_calls (logged_calls cs a w)
            = (w_calls w ++ map (fun c => mkLogged c a) cs)%list.
Proof.
  induction cs as [|c cs IH]; intros w; cbn [logged_calls fold_left map].
  - now rewrite app_nil_r.
  - fold (logged_calls cs a (logged_call c a w)). rewrite IH.
    cbn [w_calls logged_call]. now rewrite <- app_assoc.
Qed.

Lemma logged_calls_rest (cs : list call) (a : bool) :
  forall w, w_incoming (logged_calls cs a w) = w_incoming w
            /\ w_sent (logged_calls cs a w) = w_sent w.
Proof.
  induction cs as [|c cs IH]; intros w; cbn [logged_calls fold_left]; [now split|].
  fold (logged_calls cs a (logged_call c a w)).
  destruct (IH (logged_call c a w)) as [-> ->]. now split.
Qed.

(** A sink that takes all it is given is written to once for every piece. *)
Lemma copy_chunks_accepted (sink : WriteCloser) (pieces : list string) :
  (forall hist data, wcWrite sink hist data = (Z.of_nat (String.length data), None)) ->
  forall s w,
    copy_chunks (Some sink) pieces s w
    = Val None s (logged_calls (map CallWrite pieces) (active s) w).
Proof.
  intros Hwrite.
  induction pieces as [|piece rest IH]; intros s w; cbn [copy_chunks map]; [reflexivity|].
  unfold bind at 1.
  assert (E : copy_chunk sink piece s w
              = Val None s (logged_call (CallWrite piece) (active s) w)).
  { unfold copy_chunk. unfold_monad. rewrite Hwrite.
    replace (Z.of_nat (String.length piece) <? 0)%Z with false
      by (symmetry; apply Z.ltb_ge; lia).
    rewrite Z.ltb_irrefl, Z.eqb_refl. reflexivity. }
  rewrite E. apply IH.
Qed.

(** X21.  A DATA phase with a sink that takes all of every write and
    closes: the lines before the first line that is a single dot, each
    without one leading dot and ended by a line feed, make the body; the
    sink is given the body in pieces, one write for each piece, in order
    (no write at all when the body is empty), and is then closed; the
    pieces put together are the body, none is empty and none is longer
    than the copy buffer of 32768 bytes.  The reply is thank-you, the
    message handler is cleared, and exactly the body and its terminating
    line have been read: what follows is left to be read as commands. *)
Theorem data_delivers_body (cmd : command) (s : session) (w : world)
        (mh : MessageHandler) (sink : WriteCloser) (ls rest : list string) :
  mHandler s = Some mh ->
  GetDataWriter mh (w_calls w) = (Some sink, None) ->
  hd None (w_writes w) = None ->
  (forall hist data, wcWrite sink hist data = (Z.of_nat (String.length data), None)) ->
  (forall hist, wcClose sink hist = None) ->
  Forall (fun l => l <> ".") ls ->
  w_incoming w = (ls ++ "." :: rest)%list ->
  (exists w',
    handleDATA cmd s w = Val ThankYou (set_mHandler None s) w'
    /\ w_incoming w' = rest
    /\ w_calls w' = (w_calls w ++ data_calls ls)%list
    /\ w_sent w' = (w_sent w
                    ++ [(writer s, "354 Go ahead. End your data with <CR><LF>.<CR><LF>")])%list)
  /\ joined (chunks (body_of ls)) = body_of ls
  /\ Forall (fun piece => piece <> ""
                          /\ (N.of_nat (String.length piece) <= 32768)%N)
            (chunks (body_of ls)).
Proof.
  intros Hm Hsink Hw Hwrite Hclose Hls Hin.
  split; [|split;
           [apply (joined_chunks_from (body_of ls) copy_buffer_size "")
           |apply (chunks_from_sizes (body_of ls) copy_buffer_size "");
            [unfold copy_buffer_size; lia|reflexivity]]].
  rewrite (handleDATA_eq cmd s w mh sink Hm Hsink Hw).
  unfold io_Copy. cbn [w_incoming wrote logged_call]. rewrite Hin.
  rewrite (dotRead_body ls rest Hls). cbn [dot_body dot_terminated dot_rest].
  unfold bind at 1. rewrite (copy_chunks_accepted sink _ Hwrite).
  unfold ret. rewrite Hclose.
  eexists. split; [reflexivity|].
  unfold active. rewrite Hm.
  cbn [w_incoming w_calls w_sent logged_call].
  rewrite logged_calls_calls.
  destruct (logged_calls_rest (map CallWrite (chunks (body_of ls))) true
              (set_incoming rest
                 (wrote (writer s)
                    (fmt_d StatusStartMailInput
                     ++ " Go ahead. End your data with <CR><LF>.<CR><LF>")
                    (logged_call CallGetDataWriter true w)))) as [-> ->].
  repeat split.
  cbn [w_calls set_incoming wrote logged_call]. unfold data_calls.
  rewrite map_map. cbn [app]. rewrite <- !app_assoc. reflexivity.
Qed.

Lemma data_delivers_body_witness :
  let sink := Reference.sink_ok in
  let mh := Reference.message_handler sink in
  let s := in_transaction Reference.plain_server (Reference.policy sink) sink in
  let w := Reference.client ["hi"; "..dot"; "."; "QUIT"] in
  (mHandler s = Some mh
   /\ GetDataWriter mh (w_calls w) = (Some sink, None)
   /\ hd None (w_writes w) = None
   /\ Forall (fun l => l <> ".") ["hi"; "..dot"]
   /\ w_incoming w = (["hi"; "..dot"] ++ "." :: ["QUIT"])%list)
  /\ exists w',
      handleDATA (parseLine Reference.unicode "DATA") s w = Val ThankYou (set_mHandler None s) w'
      /\ w_incoming w' = ["QUIT"]
      /\ w_calls w' = [mkLogged CallGetDataWriter true;
                       mkLogged (CallWrite ("hi" ++ LF ++ ".dot" ++ LF)) true;
                       mkLogged CallClose true].
Proof.
  intros sink mh s w.
  assert (Hls : Forall (fun l => l <> ".") ["hi"; "..dot"])
    by (repeat constructor; discriminate).
  split; [repeat split; exact Hls|].
  destruct (data_delivers_body (parseLine Reference.unicode "DATA") s w mh sink ["hi"; "..dot"] ["QUIT"]
              eq_refl eq_refl eq_refl (fun _ _ => eq_refl) (fun _ => eq_refl)
              Hls eq_refl) as ((w' & E & Hi & Hc & _) & _).
  exists w'. repeat split; assumption.
Defined.

Lemma dotRead_cut_short (ls : list string) :
  Forall (fun l => l <> ".") ls ->
  dotRead ls = mkDotted (body_of ls) false [].
Proof.
  induction ls as [|l ls IH]; intros H; cbn [dotRead body_of]; [reflexivity|].
  inversion H as [|? ? Hl Hls]; subst.
  destruct (String.eqb_spec l "."); [congruence|].
  now rewrite IH.
Qed.

(** X23.  A DATA phase whose input ends before the line that is a single
    dot, with a sink that takes all of every write: the lines that did
    come are still handed to the sink, piece by piece, before the copy
    gives up; the sink is not closed; the handler returns the
    unexpected-EOF error and the session keeps its message handler. *)
Theorem data_cut_short_reaches_sink (cmd : command) (s : session) (w : world)
        (mh : MessageHandler) (sink : WriteCloser) (ls : list string) :
  mHandler s = Some mh ->
  GetDataWriter mh (w_calls w) = (Some sink, None) ->
  hd None (w_writes w) = None ->
  (forall hist data, wcWrite sink hist data = (Z.of_nat (String.length data), None)) ->
  Forall (fun l => l <> ".") ls ->
  w_incoming w = ls ->
  exists w',
    handleDATA cmd s w = Val (Some (Failure "unexpected EOF")) s w'
    /\ w_incoming w' = []
    /\ w_calls w' = (w_calls w
                     ++ mkLogged CallGetDataWriter true
                     :: map (fun piece => mkLogged (CallWrite piece) true)
                            (chunks (body_of ls)))%list.
Proof.
  intros Hm Hsink Hw Hwrite Hls Hin.
  rewrite (handleDATA_eq cmd s w mh sink Hm Hsink Hw).
  unfold io_Copy. cbn [w_incoming wrote logged_call]. rewrite Hin.
  rewrite (dotRead_cut_short ls Hls). cbn [dot_body dot_terminated dot_rest].
  unfold bind at 1. rewrite (copy_chunks_accepted sink _ Hwrite).
  unfold ret.
  eexists. split; [reflexivity|].
  unfold active. rewrite Hm.
  rewrite logged_calls_calls.
  destruct (logged_calls_rest (map CallWrite (chunks (body_of ls))) true
              (set_incoming []
                 (wrote (writer s)
                    (fmt_d StatusStartMailInput
                     ++ " Go ahead. End your data with <CR><LF>.<CR><LF>")
                    (logged_call CallGetDataWriter true w)))) as [-> _].
  split; [reflexivity|].
  cbn [w_calls set_incoming wrote logged_call].
  rewrite map_map, <- app_assoc. reflexivity.
Qed.

Lemma data_cut_short_reaches_sink_witness :
  let sink := Reference.sink_ok in
  let mh := Reference.message_handler sink in
  let s := in_transaction Reference.plain_server (Reference.policy sink) sink in
  let w := Reference.client ["hi"; "there"] in
  (mHandler s = Some mh
   /\ GetDataWriter mh (w_calls w) = (Some sink, None)
   /\ hd None (w_writes w) = None
   /\ Forall (fun l => l <> ".") ["hi"; "there"]
   /\ w_incoming w = ["hi"; "there"])
  /\ exists w',
      handleDATA (parseLine Reference.unicode "DATA") s w
      = Val (Some (Failure "unexpected EOF")) s w'
      /\ w_calls w' = [mkLogged CallGetDataWriter true;
                       mkLogged (CallWrite ("hi" ++ LF ++ "there" ++ LF)) true].
Proof.
  intros sink mh s w.
  assert (Hls : Forall (fun l => l <> ".") ["hi"; "there"])
    by (repeat constructor; discriminate).
  split; [repeat split; exact Hls|].
  destruct (data_cut_short_reaches_sink (parseLine Reference.unicode "DATA") s w mh sink
              ["hi"; "there"] eq_refl eq_refl eq_refl (fun _ _ => eq_refl)
              Hls eq_refl) as (w' & E & _ & Hc).
  exists w'. split; assumption.
Defined.

Lemma chunks_from_pending (body : string) :
  forall room cur, cur <> "" ->
    exists piece rest, chunks_from room cur body = piece :: rest.
Proof.
  induction body as [|c body IH]; intros room cur Hcur; cbn [chunks_from].
  - destruct cur; [congruence|eauto].
  - destruct (room <=? 1)%N; [eauto|].
    apply IH. apply app_nonempty_string. discriminate.
Qed.

Lemma chunks_nonempty (body : string) :
  body <> "" -> exists piece rest, chunks body = piece :: rest.
Proof.
  destruct body as [|c body]; [congruence|]. intros _.
  unfold chunks. cbn [chunks_from].
  destruct (copy_buffer_size <=? 1)%N; [eauto|].
  apply chunks_from_pending. discriminate.
Qed.

(** X24.  A DATA phase whose sink fails its first write: the error of the
    sink is what the handler returns, whether the body that follows is
    complete or cut short by the end of the input; one write was made, the
    sink is not closed, the session keeps its message handler, and what
    the copy left of the body is skipped, so the lines to come are those
    after the terminating line. *)
Theorem data_sink_error_comes_first (cmd : command) (s : session) (w : world)
        (mh : MessageHandler) (sink : WriteCloser) (e : error) :
  mHandler s = Some mh ->
  GetDataWriter mh (w_calls w) = (Some sink, None) ->
  hd None (w_writes w) = None ->
  (forall hist data, snd (wcWrite sink hist data) = Some e) ->
  dot_body (dotRead (w_incoming w)) <> "" ->
  exists piece rest w',
    chunks (dot_body (dotRead (w_incoming w))) = piece :: rest
    /\ handleDATA cmd s w = Val (Some e) s w'
    /\ w_incoming w' = dot_rest (dotRead (w_incoming w))
    /\ w_calls w' = (w_calls w ++ [mkLogged CallGetDataWriter true;
                                   mkLogged (CallWrite piece) true])%list.
Proof.
  intros Hm Hsink Hw Hwrite Hbody.
  destruct (chunks_nonempty _ Hbody) as (piece & rest & Hpieces).
  exists piece, rest.
  rewrite (handleDATA_eq cmd s w mh sink Hm Hsink Hw).
  unfold io_Copy. cbn [w_incoming wrote logged_call].
  rewrite Hpieces. cbn [copy_chunks].
  unfold bind at 1. unfold bind at 1.
  unfold copy_chunk. unfold_monad.
  match goal with
  | |- context [wcWrite sink ?h piece] =>
      pose proof (Hwrite h piece) as Hfail;
      destruct (wcWrite sink h piece) as [nw ew]
  end.
  cbn [snd] in Hfail. subst ew.
  unfold active. rewrite Hm.
  eexists. split; [reflexivity|].
  split; [destruct ((nw <? 0) || (Z.of_nat (String.length piece) <? nw))%Z%bool;
          reflexivity|].
  split; [reflexivity|].
  cbn [w_calls set_incoming wrote logged_call].
  now rewrite <- app_assoc.
Qed.

Lemma data_sink_error_comes_first_witness :
  let sink := Reference.sink_write_fails in
  let mh := Reference.message_handler sink in
  let s := in_transaction Reference.plain_server (Reference.policy sink) sink in
  let w := Reference.client ["hi"] in
  (mHandler s = Some mh
   /\ GetDataWriter mh (w_calls w) = (Some sink, None)
   /\ hd None (w_writes w) = None
   /\ dot_body (dotRead (w_incoming w)) <> "")
  /\ exists w',
      handleDATA (parseLine Reference.unicode "DATA") s w
      = Val (Some (Failure "disk full")) s w'
      /\ w_incoming w' = [].
Proof.
  intros sink mh s w.
  assert (Hbody : dot_body (dotRead (w_incoming w)) <> "") by discriminate.
  split; [repeat split; exact Hbody|].
  destruct (data_sink_error_comes_first (parseLine Reference.unicode "DATA") s w mh sink
              _ eq_refl eq_refl eq_refl (fun _ _ => eq_refl) Hbody)
    as (piece & rest & w' & _ & E & Hi & _).
  exists w'. split; assumption.
Defined.

(** ** A greeting and a sender *)




